(** * PostPilot resource-control core: admission control, caching, backend
      selection.

    A shallow embedding of [server/app/services/ratelimit.py],
    [server/app/services/cache.py] and [server/app/services/llm_client.py],
    with the properties of the design document proved (or refuted) on it;
    and, for the further properties at the end, of
    [server/app/services/prompts.py], [server/app/services/normalize.py],
    the validation in [server/app/config.py] and the endpoints of
    [server/app/main.py].

    Conventions of the embedding.
    - Python [float] values (timestamps, token balances, delays) are exact
      rationals [Q]; comparisons are the boolean ones the code performs.
      Results that are numbers are compared with [==] ([Qeq]).
    - Every [time.time()] read of one call is the argument [now] of the
      embedded function: one call is instantaneous, time passes between
      calls.
    - A Python exception is the [Raise] constructor of [result].
    - Dictionaries and the SQLite table (primary key [key]) are [gmap]s.
    - Strings are ASCII texts: the string methods and the regular
      expressions are modelled as they act on ASCII. *)

From Stdlib Require Import ZArith QArith Qminmax Lqa Lia Bool List.
From Stdlib Require Import Ascii String DecimalString.
From stdpp Require Import gmap strings.

Local Open Scope Z_scope.
Local Open Scope Q_scope.
Local Open Scope string_scope.

(** ** Python runtime pieces *)

Inductive exn : Type :=
| ZeroDivisionError
| StoreError (msg : string).

Inductive result (A : Type) : Type :=
| Ok (a : A)
| Raise (e : exn).
Arguments Ok {A} a.
Arguments Raise {A} e.

Definition Qlt_bool (x y : Q) : bool := negb (Qle_bool y x).

(** [config.py], the fields the core reads. *)
Record Settings : Type := {
  fireworks_api_key : option string;
  use_redis : bool;
  cache_ttl : Z;
  rate_limit_requests : Z;
  rate_limit_window : Z
}.

Definition default_settings : Settings :=
  {| fireworks_api_key := None;
     use_redis := false;
     cache_ttl := 86400;
     rate_limit_requests := 60;
     rate_limit_window := 300 |}.

(** ** [ratelimit.py]: TokenBucket *)

Record TokenBucket : Type := {
  capacity : Z;
  refill_rate : Q;
  tokens : Q;
  last_refill : Q
}.

(** [TokenBucket.__init__] *)
Definition TokenBucket_init (cap : Z) (rate : Q) (now : Q) : TokenBucket :=
  {| capacity := cap;
     refill_rate := rate;
     tokens := inject_Z cap;
     last_refill := now |}.

(** Python's [min(a, b)] answers [b] when [b < a] and [a] otherwise. *)
Definition py_min (a b : Q) : Q := if Qlt_bool b a then b else a.

(** [TokenBucket.consume]: lazy refill, clamp, then the balance test. *)
Definition consume (b : TokenBucket) (n : Z) (now : Q) : bool * TokenBucket :=
  let time_elapsed := now - last_refill b in
  let tokens_to_add := time_elapsed * refill_rate b in
  let refilled := py_min (inject_Z (capacity b)) (tokens b + tokens_to_add) in
  if Qle_bool (inject_Z n) refilled then
    (true, {| capacity := capacity b; refill_rate := refill_rate b;
              tokens := refilled - inject_Z n; last_refill := now |})
  else
    (false, {| capacity := capacity b; refill_rate := refill_rate b;
               tokens := refilled; last_refill := now |}).

(** [TokenBucket.get_retry_after]; the division raises on a zero rate. *)
Definition get_retry_after (b : TokenBucket) : result Q :=
  if Qle_bool 1 (tokens b) then Ok 0
  else
    let tokens_needed := 1 - tokens b in
    if Qeq_bool (refill_rate b) 0 then Raise ZeroDivisionError
    else Ok (tokens_needed / refill_rate b).

(** ** [ratelimit.py]: RateLimiter *)

Record RateLimiter : Type := {
  buckets : gmap string TokenBucket;
  cleanup_interval : Q;
  last_cleanup : Q
}.

(** [RateLimiter.__init__] *)
Definition RateLimiter_init (now : Q) : RateLimiter :=
  {| buckets := ∅; cleanup_interval := 300; last_cleanup := now |}.

(** [RateLimiter._get_bucket_key]; [None] and the empty string are falsy. *)
Definition _get_bucket_key (client_id : string) (endpoint : option string) : string :=
  match endpoint with
  | Some e => if String.eqb e "" then client_id else client_id ++ ":" ++ e
  | None => client_id
  end.

(** [RateLimiter._cleanup_old_buckets] *)
Definition _cleanup_old_buckets (rl : RateLimiter) (now : Q) : RateLimiter :=
  if Qlt_bool (now - last_cleanup rl) (cleanup_interval rl) then rl
  else
    let cutoff_time := now - 3600 in
    {| buckets :=
         filter (fun kb => Qlt_bool (last_refill (snd kb)) cutoff_time = false)
                (buckets rl);
       cleanup_interval := cleanup_interval rl;
       last_cleanup := now |}.

Definition set_buckets (rl : RateLimiter) (m : gmap string TokenBucket) : RateLimiter :=
  {| buckets := m; cleanup_interval := cleanup_interval rl;
     last_cleanup := last_cleanup rl |}.

(** [RateLimiter.is_allowed]: the answer (or the exception) and the limiter
    as the call leaves it.  The bucket object lives in the dictionary, so
    the consumed bucket is written back under its key. *)
Definition is_allowed (cfg : Settings) (rl : RateLimiter)
    (client_id : string) (endpoint : option string) (n : Z) (now : Q)
  : result (bool * Q) * RateLimiter :=
  let rl1 := _cleanup_old_buckets rl now in
  let bucket_key := _get_bucket_key client_id endpoint in
  let created :=
    match buckets rl1 !! bucket_key with
    | Some b => Ok b
    | None =>
        if Z.eqb (rate_limit_window cfg) 0 then Raise ZeroDivisionError
        else Ok (TokenBucket_init (rate_limit_requests cfg)
                   (inject_Z (rate_limit_requests cfg)
                      / inject_Z (rate_limit_window cfg)) now)
    end in
  match created with
  | Raise e => (Raise e, rl1)
  | Ok bucket =>
      let '(ok, bucket') := consume bucket n now in
      let rl2 := set_buckets rl1 (<[bucket_key := bucket']> (buckets rl1)) in
      if ok then (Ok (true, 0), rl2)
      else
        match get_retry_after bucket' with
        | Ok retry_after => (Ok (false, retry_after), rl2)
        | Raise e => (Raise e, rl2)
        end
  end.

(** Python's [int(x)] on a float: truncation toward zero. *)
Definition py_int (x : Q) : Z := Z.quot (Qnum x) (Zpos (Qden x)).

Record RateStatus : Type := {
  st_allowed : bool;
  st_remaining : Z;
  st_reset_time : Q
}.

(** [RateLimiter.get_status]: it reads the bucket as it was left, without
    refilling it and without creating one. *)
Definition get_status (cfg : Settings) (rl : RateLimiter)
    (client_id : string) (endpoint : option string) (now : Q) : RateStatus :=
  let bucket_key := _get_bucket_key client_id endpoint in
  match buckets rl !! bucket_key with
  | None =>
      {| st_allowed := true;
         st_remaining := rate_limit_requests cfg;
         st_reset_time := now + inject_Z (rate_limit_window cfg) |}
  | Some bucket =>
      {| st_allowed := Qle_bool 1 (tokens bucket);
         st_remaining := py_int (tokens bucket);
         st_reset_time := last_refill bucket + inject_Z (rate_limit_window cfg) |}
  end.

(** ** The shared store of the distributed limiter

    The Redis server is outside the repository; this is the part of its
    documented behaviour that [RedisRateLimiter] relies on: sorted sets
    (member to score), removal of empty keys, and per-key expiry. *)

Record ZSetKey : Type := {
  zmembers : gmap string Q;
  zexpire : option Q
}.

Definition zexpired (z : ZSetKey) (now : Q) : bool :=
  match zexpire z with
  | Some t => Qle_bool t now
  | None => false
  end.

(** Lazy expiry: a key whose time has come is gone before any command.
    The store's clock is read as the caller's. *)
Definition redis_purge (db : gmap string ZSetKey) (key : string) (now : Q)
  : gmap string ZSetKey :=
  match db !! key with
  | Some z => if zexpired z now then delete key db else db
  | None => db
  end.

Definition redis_members (db : gmap string ZSetKey) (key : string) : gmap string Q :=
  match db !! key with
  | Some z => zmembers z
  | None => ∅
  end.

Definition redis_store (db : gmap string ZSetKey) (key : string)
    (ms : gmap string Q) (e : option Q) : gmap string ZSetKey :=
  if decide (ms = ∅) then delete key db
  else <[key := {| zmembers := ms; zexpire := e |}]> db.

Definition redis_expiry (db : gmap string ZSetKey) (key : string) : option Q :=
  match db !! key with
  | Some z => zexpire z
  | None => None
  end.

Definition score_in_range (lo hi : Q) (s : Q) : bool :=
  Qle_bool lo s && Qle_bool s hi.

(** ZREMRANGEBYSCORE key lo hi: the number of members removed. *)
Definition zremrangebyscore (db : gmap string ZSetKey) (key : string) (lo hi : Q)
  : Z * gmap string ZSetKey :=
  let ms := redis_members db key in
  let kept := filter (fun kv => score_in_range lo hi (snd kv) = false) ms in
  (Z.of_nat (size ms) - Z.of_nat (size kept),
   redis_store db key kept (redis_expiry db key))%Z.

(** ZCARD key *)
Definition zcard (db : gmap string ZSetKey) (key : string) : Z :=
  Z.of_nat (size (redis_members db key)).

(** ZADD key score member: 1 for a new member, 0 for an updated score. *)
Definition zadd (db : gmap string ZSetKey) (key : string) (member : string) (score : Q)
  : Z * gmap string ZSetKey :=
  let ms := redis_members db key in
  ((match ms !! member with Some _ => 0 | None => 1 end)%Z,
   <[key := {| zmembers := <[member := score]> ms;
               zexpire := redis_expiry db key |}]> db).

(** EXPIRE key seconds *)
Definition expire (db : gmap string ZSetKey) (key : string) (seconds : Q) (now : Q)
  : bool * gmap string ZSetKey :=
  match db !! key with
  | Some z =>
      (true,
       if Qle_bool seconds 0 then delete key db
       else <[key := {| zmembers := zmembers z;
                        zexpire := Some (now + seconds) |}]> db)
  | None => (false, db)
  end.

(** Sorted-set order: by score, then by member. *)
Definition zless (a b : string * Q) : bool :=
  Qlt_bool (snd a) (snd b)
  || (Qeq_bool (snd a) (snd b) && String.ltb (fst a) (fst b)).

Definition zfirst (ms : gmap string Q) : option (string * Q) :=
  fold_right
    (fun kv best =>
       match best with
       | Some b => if zless kv b then Some kv else Some b
       | None => Some kv
       end)
    None (map_to_list ms).

(** ZRANGE key 0 0 WITHSCORES *)
Definition zrange_first (db : gmap string ZSetKey) (key : string)
  : list (string * Q) :=
  match zfirst (redis_members db key) with
  | Some kv => [kv]
  | None => []
  end.

(** ** [ratelimit.py]: RedisRateLimiter *)

(** What the network does to one call: whether [pipe.execute()] and the
    later [zrange] reach the store. *)
Record Network : Type := {
  execute_error : option exn;
  zrange_error : option exn
}.

Definition network_up : Network :=
  {| execute_error := None; zrange_error := None |}.

(** Python's [max(a, b)] answers [b] when [b > a] and [a] otherwise. *)
Definition py_max (a b : Q) : Q := if Qlt_bool a b then b else a.

Section Distributed.

(** [str(now)], the member name of a request in the window set. *)
Variable str_float : Q -> string.

(** The four queued commands of the pipeline, run as one transaction;
    the replies in order. *)
Definition pipeline_execute (net : Network) (db : gmap string ZSetKey)
    (key : string) (window_start now window : Q)
  : result (Z * Z * Z * bool) * gmap string ZSetKey :=
  match execute_error net with
  | Some e => (Raise e, db)
  | None =>
      let db0 := redis_purge db key now in
      let '(r0, db1) := zremrangebyscore db0 key 0 window_start in
      let r1 := zcard db1 key in
      let '(r2, db2) := zadd db1 key (str_float now) now in
      let '(r3, db3) := expire db2 key window now in
      (Ok (r0, r1, r2, r3), db3)
  end.

Definition zrange_call (net : Network) (db : gmap string ZSetKey)
    (key : string) (now : Q) : result (list (string * Q)) :=
  match zrange_error net with
  | Some e => Raise e
  | None => Ok (zrange_first (redis_purge db key now) key)
  end.

Definition redis_key (client_id : string) (endpoint : option string) : string :=
  "rate_limit:" ++ client_id ++ ":" ++
  match endpoint with
  | Some e => if String.eqb e "" then "global" else e
  | None => "global"
  end.

(** The body of the [try] in [RedisRateLimiter.is_allowed]. *)
Definition redis_is_allowed_try (cfg : Settings) (net : Network)
    (db : gmap string ZSetKey) (client_id : string) (endpoint : option string)
    (now : Q) : result (bool * Q) * gmap string ZSetKey :=
  let key := redis_key client_id endpoint in
  let window := inject_Z (rate_limit_window cfg) in
  let window_start := now - window in
  match pipeline_execute net db key window_start now window with
  | (Raise e, db') => (Raise e, db')
  | (Ok (_, current_requests, _, _), db') =>
      if (current_requests <? rate_limit_requests cfg)%Z then (Ok (true, 0), db')
      else
        match zrange_call net db' key now with
        | Raise e => (Raise e, db')
        | Ok (oldest :: _) =>
            let retry_after := snd oldest + window - now in
            (Ok (false, py_max 0 retry_after), db')
        | Ok [] => (Ok (false, window), db')
        end
  end.

(** [RedisRateLimiter.is_allowed]: the [except] clause answers for every
    exception of the body.  The method does not read its [tokens]
    argument, which is left out. *)
Definition redis_is_allowed (cfg : Settings) (net : Network)
    (db : gmap string ZSetKey) (client_id : string) (endpoint : option string)
    (now : Q) : (bool * Q) * gmap string ZSetKey :=
  match redis_is_allowed_try cfg net db client_id endpoint now with
  | (Ok r, db') => (r, db')
  | (Raise _, db') => ((true, 0), db')
  end.

End Distributed.




(** ** Python string methods, on ASCII text

    A [string] is the text's byte sequence; [strip], [lower] and slicing
    are the ASCII ones, which is what [str] does on ASCII text. *)

Definition py_isspace (c : ascii) : bool :=
  let n := nat_of_ascii c in
  ((9 <=? n) && (n <=? 13) || (28 <=? n) && (n <=? 32))%nat.

Fixpoint lstrip (s : string) : string :=
  match s with
  | String c s' => if py_isspace c then lstrip s' else s
  | "" => ""
  end.

Fixpoint rstrip (s : string) : string :=
  match s with
  | String c s' =>
      let r := rstrip s' in
      if py_isspace c && String.eqb r "" then "" else String c r
  | "" => ""
  end.

(** [s.strip()] *)
Definition strip (s : string) : string := rstrip (lstrip s).

Definition lower_ascii (c : ascii) : ascii :=
  let n := nat_of_ascii c in
  if ((65 <=? n) && (n <=? 90))%nat then ascii_of_nat (n + 32) else c.

(** [s.lower()] *)
Fixpoint lower (s : string) : string :=
  match s with
  | String c s' => String (lower_ascii c) (lower s')
  | "" => ""
  end.

(** [needle in hay] *)
Fixpoint str_in (needle hay : string) : bool :=
  if String.prefix needle hay then true
  else
    match hay with
    | String _ hay' => str_in needle hay'
    | "" => false
    end.

(** [hay.find(needle)], from the front of [hay]; [-1] when absent. *)
Fixpoint find_from (needle hay : string) (pos : Z) : Z :=
  if String.prefix needle hay then pos
  else
    match hay with
    | String _ hay' => find_from needle hay' (pos + 1)
    | "" => (-1)%Z
    end.

Fixpoint drop (n : nat) (s : string) : string :=
  match n, s with
  | S n', String _ s' => drop n' s'
  | _, _ => s
  end.

(** [hay.find(needle, start)] for [0 <= start] *)
Definition find (needle hay : string) (start : Z) : Z :=
  if (Z.of_nat (String.length hay) <? start)%Z then (-1)%Z
  else find_from needle (drop (Z.to_nat start) hay) start.

(** [s[a:b]] for [0 <= a] and [0 <= b] *)
Definition slice (s : string) (a b : Z) : string :=
  substring (Z.to_nat a) (Z.to_nat (b - a)) s.

(** [s[:n]] *)
Definition take (n : nat) (s : string) : string := substring 0 n s.

(** [len(s.split())]: the number of maximal runs of non-space characters. *)
Fixpoint count_words (in_word : bool) (s : string) : Z :=
  match s with
  | String c s' =>
      if py_isspace c then count_words false s'
      else ((if in_word then 0 else 1) + count_words true s')%Z
  | "" => 0%Z
  end.

(** ** [hashlib.sha256] *)

Module SHA256.
Local Open Scope Z_scope.
Local Open Scope list_scope.

(** FIPS 180-4 on 32-bit words kept in [Z], each sum reduced modulo 2^32. *)

Definition w32 (x : Z) : Z := x mod 4294967296.
Definition add32 (x y : Z) : Z := w32 (x + y).
Definition rotr (n x : Z) : Z :=
  Z.lor (Z.shiftr x n) (w32 (Z.shiftl x (32 - n))).
Definition Ch (x y z : Z) : Z :=
  Z.lxor (Z.land x y) (Z.land (Z.lxor x 4294967295) z).
Definition Maj (x y z : Z) : Z :=
  Z.lxor (Z.lxor (Z.land x y) (Z.land x z)) (Z.land y z).
Definition Sigma0 (x : Z) : Z := Z.lxor (Z.lxor (rotr 2 x) (rotr 13 x)) (rotr 22 x).
Definition Sigma1 (x : Z) : Z := Z.lxor (Z.lxor (rotr 6 x) (rotr 11 x)) (rotr 25 x).
Definition sigma0 (x : Z) : Z := Z.lxor (Z.lxor (rotr 7 x) (rotr 18 x)) (Z.shiftr x 3).
Definition sigma1 (x : Z) : Z := Z.lxor (Z.lxor (rotr 17 x) (rotr 19 x)) (Z.shiftr x 10).

(** The round constants (fractional parts of the cube roots of the first
    64 primes), in decimal. *)
Definition K : list Z :=
  [1116352408; 1899447441; 3049323471; 3921009573;
   961987163; 1508970993; 2453635748; 2870763221;
   3624381080; 310598401; 607225278; 1426881987;
   1925078388; 2162078206; 2614888103; 3248222580;
   3835390401; 4022224774; 264347078; 604807628;
   770255983; 1249150122; 1555081692; 1996064986;
   2554220882; 2821834349; 2952996808; 3210313671;
   3336571891; 3584528711; 113926993; 338241895;
   666307205; 773529912; 1294757372; 1396182291;
   1695183700; 1986661051; 2177026350; 2456956037;
   2730485921; 2820302411; 3259730800; 3345764771;
   3516065817; 3600352804; 4094571909; 275423344;
   430227734; 506948616; 659060556; 883997877;
   958139571; 1322822218; 1537002063; 1747873779;
   1955562222; 2024104815; 2227730452; 2361852424;
   2428436474; 2756734187; 3204031479; 3329325298].

(** Padding: 128, zeros up to 56 mod 64, the bit length on 8 bytes. *)
Definition be_bytes (width : nat) (x : Z) : list Z :=
  map (fun i => Z.land (Z.shiftr x (8 * Z.of_nat i)) 255) (rev (seq 0 width)).

Definition pad (msg : list Z) : list Z :=
  let len := Z.of_nat (List.length msg) in
  let zeros := Z.to_nat ((55 - len) mod 64) in
  msg ++ [128] ++ repeat 0 zeros ++ be_bytes 8 (8 * len).

Fixpoint be_word (bs : list Z) (acc : Z) : Z :=
  match bs with
  | [] => acc
  | b :: bs' => be_word bs' (Z.lor (Z.shiftl acc 8) b)
  end.

Fixpoint group (fuel size : nat) (l : list Z) : list (list Z) :=
  match fuel, l with
  | O, _ | _, [] => []
  | S fuel', _ => firstn size l :: group fuel' size (skipn size l)
  end.

Definition words_of_block (block : list Z) : list Z :=
  map (fun bs => be_word bs 0) (group 16 4 block).

(** The message schedule, most recent word first. *)
Fixpoint schedule (rounds : nat) (rev_w : list Z) : list Z :=
  match rounds with
  | O => rev_w
  | S r =>
      let w := add32 (add32 (sigma1 (nth 1 rev_w 0)) (nth 6 rev_w 0))
                     (add32 (sigma0 (nth 14 rev_w 0)) (nth 15 rev_w 0)) in
      schedule r (w :: rev_w)
  end.

Record regs : Type := Regs { ra : Z; rb : Z; rc : Z; rd : Z;
                             re : Z; rf : Z; rg : Z; rh : Z }.

Definition round (s : regs) (kw : Z * Z) : regs :=
  let '(k, w) := kw in
  let t1 := add32 (add32 (add32 (rh s) (Sigma1 (re s)))
                         (add32 (Ch (re s) (rf s) (rg s)) k)) w in
  let t2 := add32 (Sigma0 (ra s)) (Maj (ra s) (rb s) (rc s)) in
  Regs (add32 t1 t2) (ra s) (rb s) (rc s) (add32 (rd s) t1) (re s) (rf s) (rg s).

Definition compress (h : regs) (block : list Z) : regs :=
  let w := rev (schedule 48 (rev (words_of_block block))) in
  let s := fold_left round (combine K w) h in
  Regs (add32 (ra h) (ra s)) (add32 (rb h) (rb s)) (add32 (rc h) (rc s))
       (add32 (rd h) (rd s)) (add32 (re h) (re s)) (add32 (rf h) (rf s))
       (add32 (rg h) (rg s)) (add32 (rh h) (rh s)).

Definition init_regs : regs :=
  Regs 1779033703 3144134277 1013904242 2773480762
       1359893119 2600822924 528734635 1541459225.

Definition digest_words (msg : list Z) : list Z :=
  let p := pad msg in
  let s := fold_left compress (group (List.length p) 64 p) init_regs in
  [ra s; rb s; rc s; rd s; re s; rf s; rg s; rh s].

Definition hex_digit (d : Z) : ascii :=
  ascii_of_nat (Z.to_nat (if d <? 10 then 48 + d else 87 + d)).

Definition hex_word (w : Z) : string :=
  fold_right (fun i acc => String (hex_digit (Z.land (Z.shiftr w (4 * Z.of_nat i)) 15)) acc)
             ""%string (rev (seq 0 8)).

Definition bytes_of_string (s : string) : list Z :=
  map (fun c => Z.of_nat (nat_of_ascii c)) (list_ascii_of_string s).

(** [hashlib.sha256(s.encode()).hexdigest()] *)
Definition hexdigest (s : string) : string :=
  fold_right (fun w acc => append (hex_word w) acc) ""%string
             (digest_words (bytes_of_string s)).
End SHA256.

(** ** [cache.py]: the local backend *)

(** Values that [json.dumps] writes and [json.loads] reads back. *)
#[warnings="-register-all"]
Inductive json : Type :=
| JNull
| JBool (b : bool)
| JNum (q : Q)
| JStr (s : string)
| JArr (items : list json)
| JObj (fields : list (string * json)).

(** A row of the table [cache]; the TEXT column [value] holds the JSON
    document of the value, kept here as the value [json.loads] gives. *)
Record CacheRow : Type := {
  row_value : json;
  created_at : Q;
  expires_at : Q
}.

(** [SQLiteCache.get]: the SELECT keeps the row only when
    [expires_at > now]; any database error is a miss. *)
Definition SQLiteCache_get (io_error : option exn)
    (table : gmap string CacheRow) (key : string) (now : Q) : option json :=
  match io_error with
  | Some _ => None
  | None =>
      match table !! key with
      | Some row =>
          if Qlt_bool now (expires_at row) then Some (row_value row) else None
      | None => None
      end
  end.

(** [ttl or settings.cache_ttl]: [None] and [0] are falsy. *)
Definition ttl_or_default (cfg : Settings) (ttl : option Z) : Z :=
  match ttl with
  | Some t => if (t =? 0)%Z then cache_ttl cfg else t
  | None => cache_ttl cfg
  end.

(** [SQLiteCache.set]: INSERT OR REPLACE on the primary key. *)
Definition SQLiteCache_set (cfg : Settings) (io_error : option exn)
    (table : gmap string CacheRow) (key : string) (value : json)
    (ttl : option Z) (now : Q) : bool * gmap string CacheRow :=
  match io_error with
  | Some _ => (false, table)
  | None =>
      let ttl := ttl_or_default cfg ttl in
      let expires_at := now + inject_Z ttl in
      (true, <[key := {| row_value := value; created_at := now;
                         expires_at := expires_at |}]> table)
  end.





(** [SQLiteCache.clear] *)
Definition SQLiteCache_clear (io_error : option exn)
    (table : gmap string CacheRow) : bool * gmap string CacheRow :=
  match io_error with
  | Some _ => (false, table)
  | None => (true, ∅)
  end.

(** [SQLiteCache.cleanup_expired]: DELETE ... WHERE expires_at <= now. *)
Definition SQLiteCache_cleanup_expired (io_error : option exn)
    (table : gmap string CacheRow) (now : Q) : Z * gmap string CacheRow :=
  match io_error with
  | Some _ => (0%Z, table)
  | None =>
      let kept := filter (fun kr => Qle_bool (expires_at (snd kr)) now = false) table in
      ((Z.of_nat (size table) - Z.of_nat (size kept))%Z, kept)
  end.

(** ** [cache.py]: CacheManager over the local backend *)

(** [generate_key] with the version string made a parameter. *)
Definition generate_key_with (cache_version : string)
    (text mode persona : string) : string :=
  let normalized_text := lower (strip text) in
  let content_hash :=
    SHA256.hexdigest
      (normalized_text ++ ":" ++ mode ++ ":" ++ persona ++ ":" ++ cache_version) in
  "postpilot:" ++ content_hash.

(** [CacheManager.generate_key] *)
Definition generate_key (text mode persona : string) : string :=
  generate_key_with "v2" text mode persona.

(** [CacheManager.get] *)
Definition CacheManager_get (io_error : option exn)
    (table : gmap string CacheRow) (text mode persona : string) (now : Q)
  : option json :=
  let key := generate_key text mode persona in
  SQLiteCache_get io_error table key now.

(** The metadata wrapper that [CacheManager.set] stores. *)
Definition cache_data (text mode persona : string) (result : json) (now : Q) : json :=
  JObj [("result", result);
        ("cached_at", JNum now);
        ("mode", JStr mode);
        ("persona", JStr persona);
        ("text_hash", JStr (take 16 (SHA256.hexdigest text)))].

(** [CacheManager.set] *)
Definition CacheManager_set (cfg : Settings) (io_error : option exn)
    (table : gmap string CacheRow) (text mode persona : string)
    (result : json) (ttl : option Z) (now : Q) : bool * gmap string CacheRow :=
  let key := generate_key text mode persona in
  SQLiteCache_set cfg io_error table key
    (cache_data text mode persona result now) ttl now.


(** [CacheManager.clear] *)
Definition CacheManager_clear (io_error : option exn)
    (table : gmap string CacheRow) : bool * gmap string CacheRow :=
  SQLiteCache_clear io_error table.

(** [CacheManager.cleanup_expired]; the local backend has the method. *)
Definition CacheManager_cleanup_expired (io_error : option exn)
    (table : gmap string CacheRow) (now : Q) : Z * gmap string CacheRow :=
  SQLiteCache_cleanup_expired io_error table now.

(** ** [cache.py]: the remote backend

    The Redis server's strings with expiry, as [RedisCache] uses them:
    GET, SETEX (which refuses a lifetime that is not positive), DEL and
    FLUSHDB.  The stored bytes are the JSON document, kept as the value
    [json.loads] gives, as for the local table. *)

Record RedisString : Type := {
  rs_value : json;
  rs_expire : Q
}.


(** [RedisCache.set]: SETEX raises on [ttl <= 0], which the method turns
    into [False]. *)
Definition RedisCache_set (cfg : Settings) (net_error : option exn)
    (kv : gmap string RedisString) (key : string) (value : json)
    (ttl : option Z) (now : Q) : bool * gmap string RedisString :=
  match net_error with
  | Some _ => (false, kv)
  | None =>
      let ttl := ttl_or_default cfg ttl in
      if (ttl <=? 0)%Z then (false, kv)
      else (true, <[key := {| rs_value := value;
                              rs_expire := now + inject_Z ttl |}]> kv)
  end.



(** [create_cache_manager]: which backend the manager is built on, or the
    exception of [SQLiteCache()] when the local database cannot be
    initialised. *)
Inductive CacheBackend : Type :=
| LocalBackend
| RemoteBackend.

Definition create_cache_manager (cfg : Settings)
    (redis_probe sqlite_init : option exn) : result CacheBackend :=
  let local :=
    match sqlite_init with
    | Some e => Raise e
    | None => Ok LocalBackend
    end in
  if use_redis cfg then
    match redis_probe with
    | None => Ok RemoteBackend
    | Some _ => local
    end
  else local.

(** ** [llm_client.py] *)

Record GenerationResult : Type := {
  text : string;
  model : string;
  provider : string;
  processing_time : Q;
  tokens_used : Z;
  success : bool
}.

Inductive LLMClient : Type :=
| DobbyClient (api_key : option string) (model_name : string)
| LocalMockClient.

Definition dobby_default_model : string :=
  "accounts/sentientfoundation-serverless/models/dobby-mini-unhinged-plus-llama-3-1-8b".

(** [key and len(key) > 10], as a truth value. *)
Definition key_usable (key : option string) : bool :=
  match key with
  | Some k => negb (String.eqb k "") && (10 <? String.length k)%nat
  | None => false
  end.

(** [is_available] of either client. *)
Definition is_available (c : LLMClient) : bool :=
  match c with
  | DobbyClient key _ => key_usable key
  | LocalMockClient => true
  end.

(** [LLMClientFactory.create_client] *)
Definition create_client (cfg : Settings) : LLMClient :=
  if key_usable (fireworks_api_key cfg) then
    let client := DobbyClient (fireworks_api_key cfg) dobby_default_model in
    if is_available client then client else LocalMockClient
  else LocalMockClient.

Definition nl : string := String (ascii_of_nat 10) "".

(** The tweet line that [LocalMockClient.generate] cuts out of the prompt. *)
Definition tweet_content (prompt : string) : string :=
  if str_in "Tweet:" prompt then
    let tweet_start := (find "Tweet:" prompt 0 + 6)%Z in
    let tweet_end := find nl prompt tweet_start in
    let tweet_end :=
      if (tweet_end =? -1)%Z then Z.of_nat (String.length prompt) else tweet_end in
    strip (slice prompt tweet_start tweet_end)
  else "Sample tweet content".

Definition summarize_head : string := "Summary of the tweet: ".
Definition summarize_tail : string :=
  "..." ++ nl ++ nl ++
  "This tweet discusses important topics that are relevant to the audience." ++
  nl ++ nl ++ "The key points are clearly presented and easy to understand.".

Definition context_head : string := "Context for the tweet: ".
Definition context_tail : string :=
  "..." ++ nl ++ nl ++
  "This provides important background information about the topic." ++
  nl ++ nl ++ "The context helps readers understand the broader implications." ++
  nl ++ nl ++ "Additional insights are provided to enhance understanding.".

Definition generic_head : string := "Response to: ".
Definition generic_tail : string :=
  "..." ++ nl ++ nl ++
  "This is a generated response based on the input content." ++
  nl ++ nl ++ "The response addresses the key points mentioned in the tweet.".

Definition response_text (prompt : string) : string :=
  let tweet := tweet_content prompt in
  if str_in "summarize" (lower prompt) then
    summarize_head ++ take 100 tweet ++ summarize_tail
  else if str_in "context" (lower prompt) then
    context_head ++ take 100 tweet ++ context_tail
  else if str_in "reply" (lower prompt) then
    "1. Great point about " ++ take 50 tweet ++
    "...! I'd love to hear more about this." ++ nl ++
    "2. This is really interesting - what are your thoughts on the implications?" ++
    nl ++ "3. Thanks for sharing this insight about " ++ take 30 tweet ++ "...!"
  else
    generic_head ++ take 100 tweet ++ generic_tail.

(** [LocalMockClient.generate]; [start_time] and [end_time] are the two
    clock reads around the artificial delay. *)
Definition mock_generate (prompt : string) (temperature : Q) (max_tokens : Z)
    (start_time end_time : Q) : GenerationResult :=
  let response := response_text prompt in
  {| text := response;
     model := "mock-local";
     provider := "local";
     processing_time := end_time - start_time;
     tokens_used := count_words false response;
     success := true |}.

(** The delay the mock sleeps: [0.1 + temperature * 0.2] seconds. *)
Definition mock_delay (temperature : Q) : Q := (1 # 10) + temperature * (2 # 10).

(** ** [llm_client.py]: the post-processing of a remote answer *)

(** Where a substitution stands: scanning, inside the label with [k]
    characters of it left (at [0] the whitespace run after it), or in the
    rest of the line. *)
Inductive SubMode : Type :=
| Scan
| Skip (k : nat)
| Line.

(** [re.sub(label + r'\s*', '', s)] and, with [to_eol],
    [re.sub(label + r'\s*[^\n]*', '', s)], for a literal [label]: every
    match, left to right, is removed; both stars are greedy and nothing
    follows them, so a match takes the label, all the whitespace after
    it, and then (with [to_eol]) everything up to the next newline. *)
Fixpoint re_sub_label (label : string) (to_eol : bool) (mode : SubMode)
    (s : string) : string :=
  match s with
  | String c s' =>
      let scan :=
        if String.prefix label s
        then re_sub_label label to_eol (Skip (String.length label - 1)) s'
        else String c (re_sub_label label to_eol Scan s') in
      match mode with
      | Scan => scan
      | Skip (S k) => re_sub_label label to_eol (Skip k) s'
      | Skip O =>
          if py_isspace c then re_sub_label label to_eol (Skip 0) s'
          else if to_eol then re_sub_label label to_eol Line s'
          else scan
      | Line =>
          if Ascii.eqb c (ascii_of_nat 10) then scan
          else re_sub_label label to_eol Line s'
      end
  | "" => ""
  end.

Definition is_terminator (c : ascii) : bool :=
  Ascii.eqb c "." || Ascii.eqb c "!" || Ascii.eqb c "?".

Definition starts_with_terminator (s : string) : bool :=
  match s with
  | String c _ => is_terminator c
  | "" => false
  end.

(** [re.split(r'[.!?]+', s)]: the first piece and the pieces after it; a
    run of terminators is one separator. *)
Fixpoint split_sentences (s : string) : string * list string :=
  match s with
  | String c s' =>
      let '(piece, rest) := split_sentences s' in
      if is_terminator c then
        if starts_with_terminator s' then (piece, rest) else ("", piece :: rest)
      else (String c piece, rest)
  | "" => ("", [])
  end.

(** [DobbyClient._format_response] *)
Definition _format_response (text : string) : string :=
  let text := re_sub_label "Author:" true Scan text in
  let text := re_sub_label "Source URL:" true Scan text in
  let text := re_sub_label "Summary:" false Scan text in
  let text := re_sub_label "Context:" false Scan text in
  let text := re_sub_label "Reply Suggestions:" false Scan text in
  let text := strip text in
  let '(first, others) := split_sentences text in
  let formatted_sentences :=
    List.filter (fun sentence => negb (String.eqb sentence ""))
      (List.map strip (first :: others)) in
  if (1 <? List.length formatted_sentences)%nat
  then String.concat ("." ++ nl ++ nl) formatted_sentences ++ "."
  else text.

(** ** [prompts.py] *)

Record PersonaConfig : Type := {
  persona_name : string;
  persona_description : string;
  persona_style : string;
  persona_tone : string;
  persona_personality : string
}.

(** [PromptBuilder._load_personas], in the order of the dictionary. *)
Definition personas : list (string * PersonaConfig) :=
  [("human",
    {| persona_name := "Human";
       persona_description := "Friendly, conversational, relatable responses";
       persona_style := "conversational";
       persona_tone := "warm and friendly";
       persona_personality := "approachable, empathetic, genuine" |});
   ("hardcore",
    {| persona_name := "Hardcore";
       persona_description := "Direct, no-nonsense, straight to the point";
       persona_style := "direct";
       persona_tone := "blunt and straightforward";
       persona_personality := "confident, direct, no fluff" |});
   ("curator",
    {| persona_name := "Curator";
       persona_description := "Thoughtful, insightful, expert perspective";
       persona_style := "analytical";
       persona_tone := "intelligent and thoughtful";
       persona_personality := "wise, insightful, well-informed" |})].

Fixpoint assoc_get {A : Type} (key : string) (l : list (string * A)) : option A :=
  match l with
  | (k, v) :: rest => if String.eqb k key then Some v else assoc_get key rest
  | [] => None
  end.

Definition human_config : PersonaConfig :=
  {| persona_name := "Human";
     persona_description := "Friendly, conversational, relatable responses";
     persona_style := "conversational";
     persona_tone := "warm and friendly";
     persona_personality := "approachable, empathetic, genuine" |}.

(** [PromptBuilder.get_persona_info]: an unknown persona is "human". *)
Definition get_persona_info (persona : string) : PersonaConfig :=
  match assoc_get persona personas with
  | Some config => config
  | None => human_config
  end.

(** [PromptBuilder.validate_persona] *)
Definition validate_persona (persona : string) : bool :=
  match assoc_get persona personas with
  | Some _ => true
  | None => false
  end.

(** The tail that the three builders append: the optional source and
    author, each skipped when absent or empty. *)
Definition prompt_suffix (url author : option string) : string :=
  match url with
  | Some u => if String.eqb u "" then "" else nl ++ nl ++ "Source URL: " ++ u
  | None => ""
  end ++
  match author with
  | Some a => if String.eqb a "" then "" else nl ++ nl ++ "Author: " ++ a
  | None => ""
  end.

Definition example_format : string :=
  "EXAMPLE FORMAT:" ++ nl ++
  "This is the first sentence." ++ nl ++ nl ++
  "This is the second sentence." ++ nl ++ nl ++
  "This is the third sentence." ++ nl ++ nl ++
  "RESPONSE:".

(** [PromptBuilder.build_summarize_prompt]; the persona is not used. *)
Definition build_summarize_prompt (text persona : string)
    (url author : option string) : string :=
  "Create a summary with EXACT formatting." ++ nl ++ nl ++
  "Tweet: " ++ text ++ nl ++ nl ++
  "FORMATTING RULES:" ++ nl ++
  "- Write 2-3 complete sentences" ++ nl ++
  "- Each sentence on its own line" ++ nl ++
  "- Blank line between sentences" ++ nl ++
  "- NO metadata, URLs, or author names" ++ nl ++
  "- NO labels or prefixes" ++ nl ++ nl ++
  example_format ++ prompt_suffix url author.

(** [PromptBuilder.build_context_prompt]; the persona is not used. *)
Definition build_context_prompt (text persona : string)
    (url author : option string) : string :=
  "Create context with EXACT formatting." ++ nl ++ nl ++
  "Tweet: " ++ text ++ nl ++ nl ++
  "FORMATTING RULES:" ++ nl ++
  "- Write 3-4 complete sentences" ++ nl ++
  "- Each sentence on its own line" ++ nl ++
  "- Blank line between sentences" ++ nl ++
  "- NO metadata, URLs, or author names" ++ nl ++
  "- NO labels or prefixes" ++ nl ++ nl ++
  example_format ++ prompt_suffix url author.

(** [PromptBuilder.build_replies_prompt]; the style argument is not used,
    the style line comes from the persona. *)
Definition build_replies_prompt (text persona style : string)
    (url author : option string) : string :=
  let persona_config := get_persona_info persona in
  "Generate 3 replies with EXACT formatting." ++ nl ++ nl ++
  "Tweet: " ++ text ++ nl ++ nl ++
  "Persona: " ++ persona_name persona_config ++ " - " ++
  persona_description persona_config ++ nl ++
  "Tone: " ++ persona_tone persona_config ++ nl ++
  "Style: " ++ persona_style persona_config ++ nl ++ nl ++
  "FORMATTING RULES:" ++ nl ++
  "- Generate exactly 3 replies" ++ nl ++
  "- Each reply on its own line" ++ nl ++
  "- Blank line between replies" ++ nl ++
  "- NO metadata, URLs, or author names" ++ nl ++
  "- NO labels or prefixes" ++ nl ++ nl ++
  "EXAMPLE FORMAT:" ++ nl ++
  "1. First reply here." ++ nl ++ nl ++
  "2. Second reply here." ++ nl ++ nl ++
  "3. Third reply here." ++ nl ++ nl ++
  "RESPONSE:" ++ prompt_suffix url author.

(** ** [normalize.py], on ASCII text

    On ASCII text [unicodedata.normalize('NFKC', text)] returns the text
    unchanged, the class [\s] is [str.isspace] and [\w] is a letter, a
    digit or the underscore. *)

Definition max_length : Z := 10000.
Definition min_length : Z := 10.

Definition starts_with_space (s : string) : bool :=
  match s with
  | String c _ => py_isspace c
  | "" => false
  end.

(** [re.sub(r'\s+', ' ', s)]: every maximal run of white space becomes one
    space. *)
Fixpoint collapse_spaces (s : string) : string :=
  match s with
  | String c s' =>
      if py_isspace c then
        if starts_with_space s' then collapse_spaces s'
        else String " " (collapse_spaces s')
      else String c (collapse_spaces s')
  | "" => ""
  end.

(** The class [[\x00-\x08\x0B\x0C\x0E-\x1F\x7F]]. *)
Definition is_control (c : ascii) : bool :=
  let n := nat_of_ascii c in
  ((n <=? 8) || (n =? 11) || (n =? 12) || (14 <=? n) && (n <=? 31) ||
   (n =? 127))%nat.

Fixpoint remove_control (s : string) : string :=
  match s with
  | String c s' =>
      if is_control c then remove_control s' else String c (remove_control s')
  | "" => ""
  end.

(** [TextNormalizer._basic_normalize] *)
Definition _basic_normalize (text : string) : string :=
  let text := collapse_spaces text in
  let text := strip text in
  remove_control text.

Definition is_word (c : ascii) : bool :=
  let n := nat_of_ascii c in
  ((48 <=? n) && (n <=? 57) || (65 <=? n) && (n <=? 90) || (n =? 95) ||
   (97 <=? n) && (n <=? 122))%nat.

Definition starts_with_word (s : string) : bool :=
  match s with
  | String c _ => is_word c
  | "" => false
  end.

(** [re.sub(marker + r'\w+', '', s)]; [in_match] says that the previous
    character belonged to a match, which the word characters that follow
    continue. *)
Fixpoint remove_marked (marker : ascii) (in_match : bool) (s : string) : string :=
  match s with
  | String c s' =>
      if in_match && is_word c then remove_marked marker true s'
      else if Ascii.eqb c marker && starts_with_word s' then
        remove_marked marker true s'
      else String c (remove_marked marker false s')
  | "" => ""
  end.

(** [TextNormalizer._strip_mentions] *)
Definition _strip_mentions (text : string) : string :=
  let text := remove_marked "@" false text in
  let text := collapse_spaces text in
  strip text.

Fixpoint take_word (s : string) : string :=
  match s with
  | String c s' => if is_word c then String c (take_word s') else ""
  | "" => ""
  end.

(** [re.findall(marker + r'\w+', s)].  A match ends where its word ends and
    the scan resumes there; the characters of the word are no markers, so
    resuming right behind the marker finds the same matches. *)
Fixpoint findall_marked (marker : ascii) (s : string) : list string :=
  match s with
  | String c s' =>
      if Ascii.eqb c marker && starts_with_word s' then
        String c (take_word s') :: findall_marked marker s'
      else findall_marked marker s'
  | "" => []
  end.

(** [TextNormalizer.extract_hashtags] *)
Definition extract_hashtags (text : string) : list string :=
  List.map lower (findall_marked "#" text).

(** [TextNormalizer.extract_mentions] *)
Definition extract_mentions (text : string) : list string :=
  List.map lower (findall_marked "@" text).

(** [TextNormalizer.is_valid_text] *)
Definition is_valid_text (text : string) : bool :=
  if String.eqb text "" then false
  else
    let normalized := _basic_normalize text in
    if (Z.of_nat (String.length normalized) <? min_length)%Z then false
    else if (Z.of_nat (String.length (strip normalized)) <? min_length)%Z then false
    else true.

(** The dictionary that [normalize] returns; the last two keys are absent
    from the answer to an empty text. *)
Record NormalizedText : Type := {
  n_text : string;
  n_language : string;
  n_word_count : Z;
  n_char_count : Z;
  n_normalized : bool;
  n_original_length : option Z;
  n_truncated : option bool
}.

Section Normalizer.

(** The URL patterns of [_strip_urls] and the [langdetect] library are not
    modelled: the first is a text transformer, the second returns a
    language code or raises. *)
Variable _strip_urls : string -> string.
Variable langdetect_detect : string -> result string.

(** [TextNormalizer._detect_language] *)
Definition _detect_language (text : string) : string :=
  if (String.length (strip text) <? 10)%nat then "unknown"
  else
    match langdetect_detect text with
    | Ok detected => if String.eqb detected "" then "unknown" else detected
    | Raise _ => "unknown"
    end.

(** [TextNormalizer.normalize] *)
Definition normalize (text : string) (strip_urls strip_mentions : bool)
  : NormalizedText :=
  if String.eqb text "" then
    {| n_text := ""; n_language := "unknown"; n_word_count := 0;
       n_char_count := 0; n_normalized := false;
       n_original_length := None; n_truncated := None |}
  else
    let normalized := text in
    let normalized := if strip_urls then _strip_urls normalized else normalized in
    let normalized :=
      if strip_mentions then _strip_mentions normalized else normalized in
    let normalized := _basic_normalize normalized in
    let normalized :=
      if (max_length <? Z.of_nat (String.length normalized))%Z
      then slice normalized 0 max_length ++ "..."
      else normalized in
    let language := _detect_language normalized in
    {| n_text := normalized;
       n_language := language;
       n_word_count := count_words false normalized;
       n_char_count := Z.of_nat (String.length normalized);
       n_normalized := true;
       n_original_length := Some (Z.of_nat (String.length text));
       n_truncated := Some (max_length <? Z.of_nat (String.length text))%Z |}.

End Normalizer.

(** ** [config.py]: validation and derived values *)

(** [Settings.validate_fireworks_key]: the [ValueError] of a key that is
    present and shorter than 10 characters, or the key as given. *)
Definition validate_fireworks_key (v : option string) : string + option string :=
  match v with
  | Some k =>
      if negb (String.eqb k "") && (String.length k <? 10)%nat
      then inl "Fireworks API key appears to be invalid"
      else inr v
  | None => inr v
  end.

(** [s.split(sep)] for a one-character separator. *)
Fixpoint split_char (sep : ascii) (s : string) : list string :=
  match s with
  | String c s' =>
      match split_char sep s' with
      | piece :: rest =>
          if Ascii.eqb c sep then "" :: piece :: rest else String c piece :: rest
      | [] => if Ascii.eqb c sep then [""; ""] else [String c ""]
      end
  | "" => [""]
  end.

(** [Settings.get_allowed_origins] on the configured string. *)
Definition get_allowed_origins (allowed_origins : string) : list string :=
  List.map strip
    (List.filter (fun origin => negb (String.eqb (strip origin) ""))
       (split_char "," allowed_origins)).

(** ** [main.py]: the replies cut out of a generated text *)

(** [line.lstrip('0123456789. -•')]; the bullet is not an ASCII character. *)
Definition is_list_mark (c : ascii) : bool :=
  let n := nat_of_ascii c in
  ((48 <=? n) && (n <=? 57) || (n =? 46) || (n =? 32) || (n =? 45))%nat.

Fixpoint lstrip_chars (s : string) : string :=
  match s with
  | String c s' => if is_list_mark c then lstrip_chars s' else s
  | "" => ""
  end.

(** [s.split('. ')], as the piece being read and the pieces behind it. *)
Fixpoint split_dot_space (s : string) : string * list string :=
  match s with
  | String "." (String " " rest) =>
      let (piece, pieces) := split_dot_space rest in ("", piece :: pieces)
  | String c s' =>
      let (piece, pieces) := split_dot_space s' in (String c piece, pieces)
  | "" => ("", [])
  end.

(** The loop over the lines of [generate_replies]. *)
Definition reply_lines (replies_text : string) : list string :=
  List.filter (fun line => negb (String.eqb line ""))
    (List.map (fun line => lstrip_chars (strip line))
       (split_char (ascii_of_nat 10) replies_text)).

Definition reply_sentences (replies_text : string) : list string :=
  let (piece, pieces) := split_dot_space replies_text in
  List.map (fun s => strip s ++ ".")
    (List.filter (fun s => negb (String.eqb (strip s) "")) (piece :: pieces)).

(** The replies that [generate_replies] returns for the stripped text of
    the language model. *)
Definition parse_replies (replies_text : string) : list string :=
  let replies := reply_lines replies_text in
  let replies :=
    match replies with
    | [] => reply_sentences replies_text
    | _ => replies
    end in
  firstn 3 replies.

(** ** [main.py]: the three endpoints *)

(** The answer of an endpoint: the response model, or the [HTTPException]
    that leaves the handler. *)
Inductive HttpResult (A : Type) : Type :=
| Http200 (body : A)
| HTTPException (status_code : Z) (detail : string).
Arguments Http200 {A} body.
Arguments HTTPException {A} status_code detail.

Record SummarizeResponse : Type := {
  sr_summary : string;
  sr_word_count : Z;
  sr_processing_time : Q
}.

Record ContextResponse : Type := {
  cr_context : string;
  cr_source_url : option string;
  cr_processing_time : Q
}.

Record RepliesResponse : Type := {
  rr_replies : list string;
  rr_count : Z;
  rr_processing_time : Q
}.

(** A rational rounded to the nearest integer, halves to the even one. *)
Definition round_half_even (q : Q) : Z :=
  let n := Qnum q in
  let d := Zpos (Qden q) in
  let below := (n / d)%Z in
  let twice_rest := (2 * (n - below * d))%Z in
  if (twice_rest <? d)%Z then below
  else if (d <? twice_rest)%Z then (below + 1)%Z
  else if Z.even below then below else (below + 1)%Z.

(** [f"{x:.0f}"] *)
Definition format_0f (x : Q) : string :=
  if (Qnum x <? 0)%Z
  then "-" ++ NilZero.string_of_int (Z.to_int (round_half_even (- x)))
  else NilZero.string_of_int (Z.to_int (round_half_even x)).

Definition rate_limit_detail (retry_after : Q) : string :=
  "Rate limit exceeded. Try again in " ++ format_0f retry_after ++ " seconds".

Section Endpoints.

(** The module-level objects the handlers use: [rate_limiter], either
    limiter behind its [is_allowed]; [llm_client.generate] at the
    configured temperature and token limit, which returns a result or
    raises; and what the normalizer leaves to its libraries. *)
Variable LimiterState : Type.
Variable rate_limiter_is_allowed :
  LimiterState -> string -> option string -> Z -> Q ->
  result (bool * Q) * LimiterState.
Variable llm_client_generate : string -> result GenerationResult.
Variable _strip_urls : string -> string.
Variable langdetect_detect : string -> result string.

(** [summarize_post]; [start_time], [now] and [end_time] are the clock
    reads of the handler, of the limiter and of the response. *)
Definition summarize_post (limiter : LimiterState)
    (request_text persona : string) (url author : option string)
    (start_time now end_time : Q)
  : HttpResult SummarizeResponse * LimiterState :=
  let client_ip := "127.0.0.1" in
  let '(answer, limiter) :=
    rate_limiter_is_allowed limiter client_ip (Some "summarize") 1 now in
  match answer with
  | Raise _ => (HTTPException 500 "Internal server error", limiter)
  | Ok (is_allowed, retry_after) =>
      if negb is_allowed then
        (HTTPException 429 (rate_limit_detail retry_after), limiter)
      else
        let normalized :=
          normalize _strip_urls langdetect_detect request_text false false in
        if negb (is_valid_text (n_text normalized)) then
          (HTTPException 400 "Invalid or too short text for processing", limiter)
        else
          let prompt :=
            build_summarize_prompt (n_text normalized) persona url author in
          match llm_client_generate prompt with
          | Raise _ => (HTTPException 500 "Internal server error", limiter)
          | Ok llm_result =>
              if negb (success llm_result) then
                (HTTPException 500 "Failed to generate summary", limiter)
              else
                let summary := strip (text llm_result) in
                (Http200 {| sr_summary := summary;
                            sr_word_count := count_words false summary;
                            sr_processing_time := end_time - start_time |},
                 limiter)
          end
  end.

(** [build_context] *)
Definition build_context (limiter : LimiterState)
    (request_text persona : string) (url author : option string)
    (start_time now end_time : Q)
  : HttpResult ContextResponse * LimiterState :=
  let client_ip := "127.0.0.1" in
  let '(answer, limiter) :=
    rate_limiter_is_allowed limiter client_ip (Some "context") 1 now in
  match answer with
  | Raise _ => (HTTPException 500 "Internal server error", limiter)
  | Ok (is_allowed, retry_after) =>
      if negb is_allowed then
        (HTTPException 429 (rate_limit_detail retry_after), limiter)
      else
        let normalized :=
          normalize _strip_urls langdetect_detect request_text false false in
        if negb (is_valid_text (n_text normalized)) then
          (HTTPException 400 "Invalid or too short text for processing", limiter)
        else
          let prompt :=
            build_context_prompt (n_text normalized) persona url author in
          match llm_client_generate prompt with
          | Raise _ => (HTTPException 500 "Internal server error", limiter)
          | Ok llm_result =>
              if negb (success llm_result) then
                (HTTPException 500 "Failed to generate context", limiter)
              else
                (Http200 {| cr_context := strip (text llm_result);
                            cr_source_url := url;
                            cr_processing_time := end_time - start_time |},
                 limiter)
          end
  end.

(** [generate_replies] *)
Definition generate_replies (limiter : LimiterState)
    (request_text persona : string) (style url author : option string)
    (start_time now end_time : Q)
  : HttpResult RepliesResponse * LimiterState :=
  let client_ip := "127.0.0.1" in
  let '(answer, limiter) :=
    rate_limiter_is_allowed limiter client_ip (Some "replies") 1 now in
  match answer with
  | Raise _ => (HTTPException 500 "Internal server error", limiter)
  | Ok (is_allowed, retry_after) =>
      if negb is_allowed then
        (HTTPException 429 (rate_limit_detail retry_after), limiter)
      else
        let normalized :=
          normalize _strip_urls langdetect_detect request_text false false in
        if negb (is_valid_text (n_text normalized)) then
          (HTTPException 400 "Invalid or too short text for processing", limiter)
        else
          let style :=
            match style with
            | Some s => if String.eqb s "" then "conversational" else s
            | None => "conversational"
            end in
          let prompt :=
            build_replies_prompt (n_text normalized) persona style url author in
          match llm_client_generate prompt with
          | Raise _ => (HTTPException 500 "Internal server error", limiter)
          | Ok llm_result =>
              if negb (success llm_result) then
                (HTTPException 500 "Failed to generate replies", limiter)
              else
                let replies := parse_replies (strip (text llm_result)) in
                (Http200 {| rr_replies := replies;
                            rr_count := Z.of_nat (List.length replies);
                            rr_processing_time := end_time - start_time |},
                 limiter)
          end
  end.

End Endpoints.

(** * Specification vocabulary *)

(** The data-model invariant of a bucket: [0 <= tokens <= capacity]. *)
Definition bucket_inv (b : TokenBucket) : Prop :=
  0 <= tokens b /\ tokens b <= inject_Z (capacity b).

(** The balance right after the refill step of [consume] at time [now]. *)
Definition refilled_balance (b : TokenBucket) (now : Q) : Q :=
  py_min (inject_Z (capacity b)) (tokens b + (now - last_refill b) * refill_rate b).

(** A history of [consume] calls, each with its cost and its clock read. *)
Fixpoint run_bucket (b : TokenBucket) (calls : list (Z * Q)) : TokenBucket :=
  match calls with
  | [] => b
  | (n, now) :: rest => run_bucket (snd (consume b n now)) rest
  end.

(** Costs are non-negative and the clock does not run backwards. *)
Fixpoint calls_ok (last : Q) (calls : list (Z * Q)) : Prop :=
  match calls with
  | [] => True
  | (n, now) :: rest => (0 <= n)%Z /\ last <= now /\ calls_ok now rest
  end.

(** [k] calls of [is_allowed] in a row at the same instant. *)
Fixpoint repeat_is_allowed (cfg : Settings) (rl : RateLimiter)
    (client_id : string) (endpoint : option string) (n : Z) (now : Q) (k : nat)
  : list (result (bool * Q)) * RateLimiter :=
  match k with
  | O => ([], rl)
  | S k' =>
      let '(r, rl1) := is_allowed cfg rl client_id endpoint n now in
      let '(rs, rl2) := repeat_is_allowed cfg rl1 client_id endpoint n now k' in
      (r :: rs, rl2)
  end.

(** The configured refill rate, [requests / window]. *)
Definition configured_rate (cfg : Settings) : Q :=
  inject_Z (rate_limit_requests cfg) / inject_Z (rate_limit_window cfg).

(** The bucket that [is_allowed] consumes from: the stored one, or a new one. *)
Definition bucket_of (cfg : Settings) (rl : RateLimiter) (key : string) (now : Q)
  : TokenBucket :=
  match buckets (_cleanup_old_buckets rl now) !! key with
  | Some b => b
  | None => TokenBucket_init (rate_limit_requests cfg) (configured_rate cfg) now
  end.

(** Every stored bucket refills at the configured rate. *)
Definition limiter_wf (cfg : Settings) (rl : RateLimiter) : Prop :=
  forall key b, buckets rl !! key = Some b -> refill_rate b = configured_rate cfg.

(** The limiter rests at instant [now] with balance [q] under [key]: no
    sweep is due, and the key's bucket was last refilled at [now]. *)
Definition at_rest (cfg : Settings) (rl : RateLimiter) (key : string)
    (now q : Q) : Prop :=
  now - last_cleanup rl < cleanup_interval rl /\
  last_refill (bucket_of cfg rl key now) = now /\
  capacity (bucket_of cfg rl key now) = rate_limit_requests cfg /\
  refill_rate (bucket_of cfg rl key now) = configured_rate cfg /\
  tokens (bucket_of cfg rl key now) == q /\
  q <= inject_Z (rate_limit_requests cfg).

(** The scenario of the design document: 5 requests per 10 seconds. *)
Definition scenario_settings (redis : bool) : Settings :=
  {| fireworks_api_key := None;
     use_redis := redis;
     cache_ttl := 86400;
     rate_limit_requests := 5;
     rate_limit_window := 10 |}.

(** The state of a limiter that has run under [cfg] with a clock that has
    reached [now]: every stored bucket has the configured capacity and
    rate, a balance within [0, capacity], and a last refill not after
    [now]. *)
Definition limiter_ok (cfg : Settings) (rl : RateLimiter) (now : Q) : Prop :=
  0 < cleanup_interval rl /\
  forall key b, buckets rl !! key = Some b ->
    capacity b = rate_limit_requests cfg /\
    refill_rate b = configured_rate cfg /\
    bucket_inv b /\
    last_refill b <= now.

(** [None] and the empty endpoint name the same bucket. *)
Definition endpoint_name (endpoint : option string) : option string :=
  match endpoint with
  | Some e => if String.eqb e "" then None else Some e
  | None => None
  end.

(** A history of [is_allowed] calls: who, which endpoint, what cost, when. *)
Fixpoint run_limiter (cfg : Settings) (rl : RateLimiter)
    (calls : list (string * option string * Z * Q)) : RateLimiter :=
  match calls with
  | [] => rl
  | (client_id, endpoint, n, now) :: rest =>
      run_limiter cfg (snd (is_allowed cfg rl client_id endpoint n now)) rest
  end.

(** Costs are non-negative and the clock does not run backwards. *)
Fixpoint history_ok (last : Q) (calls : list (string * option string * Z * Q)) : Prop :=
  match calls with
  | [] => True
  | (_, _, n, now) :: rest => (0 <= n)%Z /\ last <= now /\ history_ok now rest
  end.

(** The clock read of the last call of a history that started at [t0]. *)
Fixpoint last_time (t0 : Q) (calls : list (string * option string * Z * Q)) : Q :=
  match calls with
  | [] => t0
  | (_, _, _, now) :: rest => last_time now rest
  end.

(** The limiter without the bucket of [key]. *)
Definition forget_bucket (rl : RateLimiter) (key : string) : RateLimiter :=
  set_buckets rl (delete key (buckets rl)).








(** Every character of [s] passes the test [p]. *)
Fixpoint all_chars (p : ascii -> bool) (s : string) : bool :=
  match s with
  | String c s' => p c && all_chars p s'
  | "" => true
  end.

(** The text of [_format_response] after the labels are removed. *)
Definition clean_labels (text : string) : string :=
  strip
    (re_sub_label "Reply Suggestions:" false Scan
       (re_sub_label "Context:" false Scan
          (re_sub_label "Summary:" false Scan
             (re_sub_label "Source URL:" true Scan
                (re_sub_label "Author:" true Scan text))))).

(** Its sentences: the non-blank pieces between terminators, stripped. *)
Definition sentences_of (text : string) : list string :=
  List.filter (fun sentence => negb (String.eqb sentence ""))
    (List.map strip (fst (split_sentences text) :: snd (split_sentences text))).

(** The length of the configured credential, 0 when there is none. *)
Definition key_length (k : option string) : nat :=
  match k with
  | Some s => String.length s
  | None => 0
  end.

(** The line feed. *)
Definition newline : ascii := ascii_of_nat 10.

(** A text on one line. *)
Definition single_line (s : string) : bool :=
  all_chars (fun c => negb (Ascii.eqb c newline)) s.

Definition opt_text (o : option string) : string :=
  match o with
  | Some s => s
  | None => ""
  end.

(** The word [w], in small letters, occurs in what the caller supplied. *)
Definition request_mentions (w text : string) (url author : option string)
  : bool :=
  str_in w (lower text) || str_in w (lower (opt_text url)) ||
  str_in w (lower (opt_text author)).

(** [n] and [u] agree as far as both go. *)
Fixpoint compat (n u : string) : bool :=
  match n, u with
  | String a n', String b u' => Ascii.eqb a b && compat n' u'
  | _, _ => true
  end.

(** No occurrence of [n] starts inside [pre], whatever follows [pre]. *)
Fixpoint early_free (n pre : string) : bool :=
  match pre with
  | String _ pre' => negb (compat n pre) && early_free n pre'
  | "" => true
  end.

(** A word the templates' separators and labels cannot produce. *)
Definition keyword_like (w : string) : bool :=
  all_chars (fun c => negb (Ascii.eqb c " ") && negb (Ascii.eqb c newline)) w &&
  negb (String.eqb w "") &&
  negb (str_in w (lower "Source URL:")) && negb (str_in w (lower "Author:")).

(** The three replies of the mock's reply template, without their
    numbers. *)
Definition mock_replies (tweet : string) : list string :=
  ["Great point about " ++ take 50 tweet ++
   "...! I'd love to hear more about this.";
   "This is really interesting - what are your thoughts on the implications?";
   "Thanks for sharing this insight about " ++ take 30 tweet ++ "...!"].

(** The text ends in white space. *)
Fixpoint ends_with_space (s : string) : bool :=
  match s with
  | String c "" => py_isspace c
  | String _ s' => ends_with_space s'
  | "" => false
  end.

(** ASCII text, on which the string model is the program's. *)
Definition is_ascii (s : string) : bool :=
  all_chars (fun c => (nat_of_ascii c <? 128)%nat) s.

(** The printable ASCII characters, the space among them. *)
Definition printable (c : ascii) : bool :=
  ((32 <=? nat_of_ascii c) && (nat_of_ascii c <=? 126))%nat.

(** Neither a control character nor white space other than the space. *)
Definition plain_char (c : ascii) : bool :=
  negb (is_control c) && (negb (py_isspace c) || Ascii.eqb c " ").

(** All white space is single spaces. *)
Fixpoint single_spaced (s : string) : bool :=
  match s with
  | String c s' =>
      (negb (py_isspace c) || Ascii.eqb c " " && negb (starts_with_space s')) &&
      single_spaced s'
  | "" => true
  end.

(** No marker of [s] has a word behind it. *)
Fixpoint unmarked (marker : ascii) (s : string) : bool :=
  match s with
  | String c s' =>
      negb (Ascii.eqb c marker && starts_with_word s') && unmarked marker s'
  | "" => true
  end.

(** [c * n] *)
Fixpoint replicate_char (n : nat) (c : ascii) : string :=
  match n with
  | S n' => String c (replicate_char n' c)
  | O => ""
  end.

(** The body of a request to an endpoint. *)
Record Request : Type := {
  rq_text : string;
  rq_persona : string;
  rq_url : option string;
  rq_author : option string
}.

(** The status code of an answer. *)
Definition status {A : Type} (answer : HttpResult A) : Z :=
  match answer with
  | Http200 _ => 200
  | HTTPException status_code _ => status_code
  end.

(** Requests to [/summarize] served one after the other at the instant
    [now], over the in-process limiter. *)
Fixpoint summarize_all (cfg : Settings)
    (generate : string -> result GenerationResult)
    (strip_urls : string -> string) (detect : string -> result string)
    (limiter : RateLimiter) (requests : list Request) (now : Q)
  : list (HttpResult SummarizeResponse) * RateLimiter :=
  match requests with
  | [] => ([], limiter)
  | r :: rest =>
      let '(answer, limiter1) :=
        summarize_post RateLimiter (is_allowed cfg) generate strip_urls detect
          limiter (rq_text r) (rq_persona r) (rq_url r) (rq_author r)
          now now now in
      let '(answers, limiter2) :=
        summarize_all cfg generate strip_urls detect limiter1 rest now in
      (answer :: answers, limiter2)
  end.

(** Five requests of five callers, the second too short to be valid. *)
Definition sample_requests : list Request :=
  [{| rq_text := "gm frens, shipping today"; rq_persona := "human";
      rq_url := None; rq_author := Some "@a" |};
   {| rq_text := "gm"; rq_persona := "human";
      rq_url := None; rq_author := Some "@b" |};
   {| rq_text := "what a time to be alive"; rq_persona := "curator";
      rq_url := Some "https://x.com/c/status/3"; rq_author := Some "@c" |};
   {| rq_text := "please summarize this thread"; rq_persona := "hardcore";
      rq_url := None; rq_author := None |};
   {| rq_text := "the fifth request of the burst"; rq_persona := "human";
      rq_url := None; rq_author := Some "@e" |}].

(** The mock behind [llm_client.generate], at the default temperature and
    token limit. *)
Definition mock_client (prompt : string) : result GenerationResult :=
  Ok (mock_generate prompt (7 # 10) 500 0 0).


(** The tokens that a history of calls was granted under [key]. *)
Fixpoint granted_to (cfg : Settings) (rl : RateLimiter) (key : string)
    (calls : list (string * option string * Z * Q)) : Z :=
  match calls with
  | [] => 0
  | (client_id, endpoint, n, now) :: rest =>
      ((if String.eqb (_get_bucket_key client_id endpoint) key then
          match fst (is_allowed cfg rl client_id endpoint n now) with
          | Ok (true, _) => n
          | _ => 0
          end
        else 0) +
       granted_to cfg (snd (is_allowed cfg rl client_id endpoint n now)) key rest)%Z
  end.



(** A concrete [str(now)] for evaluating examples: the reduced fraction
    in decimal, one name per value. *)
Definition fraction_name (q : Q) : string :=
  let r := Qred q in
  NilZero.string_of_int (Z.to_int (Qnum r)) ++ "/" ++
  NilZero.string_of_int (Z.to_int (Zpos (Qden r))).

(** The pre-insert count a check at instant [t] would see under [key]. *)
Definition window_members (db : gmap string ZSetKey) (key : string)
    (window t : Q) : gmap string Q :=
  redis_members (snd (zremrangebyscore (redis_purge db key t) key 0 (t - window))) key.

(** One request per 10 seconds, distributed. *)
Definition strict_settings : Settings :=
  {| fireworks_api_key := None;
     use_redis := true;
     cache_ttl := 86400;
     rate_limit_requests := 1;
     rate_limit_window := 10 |}.

(** The text that [generate_key] hashes. *)
Definition key_message (cache_version text mode persona : string) : string :=
  lower (strip text) ++ ":" ++ mode ++ ":" ++ persona ++ ":" ++ cache_version.

(** No [":"] inside, as in the interface's modes. *)
Fixpoint no_colon (s : string) : bool :=
  match s with
  | String c s' => negb (Ascii.eqb c ":") && no_colon s'
  | "" => true
  end.


(** * Properties *)

(** ** Boolean comparisons on [Q] *)

(** Closed comparisons of rationals, by evaluation. *)
Ltac qclosed := unfold Qeq, Qle, Qlt; simpl; lia.

Lemma Qlt_bool_true x y : Qlt_bool x y = true <-> x < y.
Proof.
  unfold Qlt_bool. rewrite negb_true_iff.
  destruct (Qle_bool y x) eqn:E.
  - apply Qle_bool_iff in E. split; [discriminate | intros H; lra].
  - split; [intros _ | reflexivity].
    destruct (Qlt_le_dec x y) as [H|H]; [exact H|].
    apply Qle_bool_iff in H. congruence.
Qed.

Lemma Qlt_bool_false x y : Qlt_bool x y = false <-> y <= x.
Proof.
  unfold Qlt_bool. rewrite negb_false_iff. apply Qle_bool_iff.
Qed.

Lemma Qle_bool_false x y : Qle_bool x y = false <-> y < x.
Proof.
  rewrite <- Qlt_bool_true. unfold Qlt_bool.
  destruct (Qle_bool x y); simpl; intuition congruence.
Qed.

Lemma Qeq_bool_false x y : Qeq_bool x y = false <-> ~ x == y.
Proof.
  split.
  - intros E H. apply Qeq_bool_iff in H. congruence.
  - intros H. destruct (Qeq_bool x y) eqn:E; [|reflexivity].
    apply Qeq_bool_iff in E. contradiction.
Qed.

Lemma inject_Z_nonneg n : (0 <= n)%Z -> 0 <= inject_Z n.
Proof. intros H. change 0 with (inject_Z 0). now rewrite <- Zle_Qle. Qed.

Lemma py_min_cases a b :
  (b < a /\ py_min a b = b) \/ (a <= b /\ py_min a b = a).
Proof.
  unfold py_min. destruct (Qlt_bool b a) eqn:E.
  - left. split; [now apply Qlt_bool_true | reflexivity].
  - right. split; [now apply Qlt_bool_false | reflexivity].
Qed.

Lemma py_min_le_l a b : py_min a b <= a.
Proof. destruct (py_min_cases a b) as [[H ->]|[H ->]]; lra. Qed.


Lemma py_min_glb a b c : c <= a -> c <= b -> c <= py_min a b.
Proof. intros. destruct (py_min_cases a b) as [[H' ->]|[H' ->]]; lra. Qed.

(** ** TokenBucket *)

Lemma consume_granted b n now :
  fst (consume b n now) = true ->
  inject_Z n <= refilled_balance b now /\
  snd (consume b n now) =
    {| capacity := capacity b; refill_rate := refill_rate b;
       tokens := refilled_balance b now - inject_Z n; last_refill := now |}.
Proof.
  unfold consume, refilled_balance.
  destruct (Qle_bool _ _) eqn:E; simpl; [|discriminate].
  intros _. split; [now apply Qle_bool_iff | reflexivity].
Qed.

Lemma consume_denied b n now :
  fst (consume b n now) = false ->
  refilled_balance b now < inject_Z n /\
  snd (consume b n now) =
    {| capacity := capacity b; refill_rate := refill_rate b;
       tokens := refilled_balance b now; last_refill := now |}.
Proof.
  unfold consume, refilled_balance.
  destruct (Qle_bool _ _) eqn:E; simpl; [discriminate|].
  intros _. split; [now apply Qle_bool_false | reflexivity].
Qed.

Lemma consume_grants_iff b n now :
  fst (consume b n now) = true <-> inject_Z n <= refilled_balance b now.
Proof.
  unfold consume, refilled_balance.
  destruct (Qle_bool _ _) eqn:E; simpl.
  - apply Qle_bool_iff in E. tauto.
  - apply Qle_bool_false in E. split; [discriminate | intros; lra].
Qed.

Lemma consume_fields b n now :
  capacity (snd (consume b n now)) = capacity b /\
  refill_rate (snd (consume b n now)) = refill_rate b /\
  last_refill (snd (consume b n now)) = now.
Proof. unfold consume. destruct (Qle_bool _ _); simpl; auto. Qed.

Lemma refilled_balance_bounds b now :
  bucket_inv b ->
  0 <= (now - last_refill b) * refill_rate b ->
  0 <= refilled_balance b now <= inject_Z (capacity b).
Proof.
  intros [H0 Hc] Hadd. unfold refilled_balance. split.
  - apply py_min_glb; lra.
  - apply py_min_le_l.
Qed.

Lemma consume_inv_step b n now :
  bucket_inv b ->
  (0 <= n)%Z ->
  0 <= (now - last_refill b) * refill_rate b ->
  bucket_inv (snd (consume b n now)).
Proof.
  intros Hinv Hn Hadd.
  pose proof (inject_Z_nonneg _ Hn) as Hn0.
  pose proof (refilled_balance_bounds b now Hinv Hadd) as [Hr0 Hrc].
  destruct (fst (consume b n now)) eqn:E.
  - destruct (consume_granted _ _ _ E) as [Hle ->].
    unfold bucket_inv; simpl. lra.
  - destruct (consume_denied _ _ _ E) as [Hlt ->].
    unfold bucket_inv; simpl. lra.
Qed.




(** The invariant along a whole history of calls on a new bucket. *)
Lemma run_bucket_inv calls : forall b,
  0 <= refill_rate b ->
  bucket_inv b ->
  calls_ok (last_refill b) calls ->
  bucket_inv (run_bucket b calls).
Proof.
  induction calls as [|[n now] rest IH]; intros b Hrate Hinv Hok; simpl.
  - exact Hinv.
  - destruct Hok as (Hn & Hnow & Hrest).
    destruct (consume_fields b n now) as (Hc & Hr & Hl).
    apply IH.
    + rewrite Hr. exact Hrate.
    + assert (Hadd : 0 <= (now - last_refill b) * refill_rate b).
      { apply Qmult_le_0_compat; lra. }
      now apply consume_inv_step.
    + rewrite Hl. exact Hrest.
Qed.

Lemma get_retry_after_ready b :
  1 <= tokens b -> get_retry_after b = Ok 0.
Proof.
  intros H. unfold get_retry_after.
  apply Qle_bool_iff in H. now rewrite H.
Qed.

Lemma get_retry_after_waiting b :
  tokens b < 1 -> ~ refill_rate b == 0 ->
  get_retry_after b = Ok ((1 - tokens b) / refill_rate b).
Proof.
  intros Ht Hr. unfold get_retry_after.
  apply Qle_bool_false in Ht. apply Qeq_bool_false in Hr.
  now rewrite Ht, Hr.
Qed.

Lemma get_retry_after_zero_rate b :
  tokens b < 1 -> refill_rate b == 0 ->
  get_retry_after b = Raise ZeroDivisionError.
Proof.
  intros Ht Hr. unfold get_retry_after.
  apply Qle_bool_false in Ht. apply Qeq_bool_iff in Hr.
  now rewrite Ht, Hr.
Qed.

Lemma Qdiv_lt_mono a b r : 0 < r -> a < b -> a / r < b / r.
Proof.
  intros Hr Hab. unfold Qdiv.
  apply Qmult_lt_compat_r; [now apply Qinv_lt_0_compat | exact Hab].
Qed.

Lemma Qdiv_pos a r : 0 < r -> 0 < a -> 0 < a / r.
Proof.
  intros Hr Ha. unfold Qdiv.
  apply Qmult_lt_0_compat; [exact Ha | now apply Qinv_lt_0_compat].
Qed.

Lemma retry_after_decreases b now1 now2 :
  0 < refill_rate b -> (1 <= capacity b)%Z ->
  now1 < now2 ->
  fst (consume b 1 now2) = false ->
  exists r1 r2,
    fst (consume b 1 now1) = false /\
    get_retry_after (snd (consume b 1 now1)) = Ok r1 /\
    get_retry_after (snd (consume b 1 now2)) = Ok r2 /\
    0 < r2 /\ r2 < r1.
Proof.
  intros Hpos Hcap Hlt Hden2.
  assert (Hrate : ~ refill_rate b == 0) by lra.
  assert (Hc1 : 1 <= inject_Z (capacity b)).
  { change 1 with (inject_Z 1). now rewrite <- Zle_Qle. }
  assert (Hmore : 0 < (now2 - now1) * refill_rate b).
  { apply Qmult_lt_0_compat; lra. }
  destruct (consume_denied _ _ _ Hden2) as [Hb2 E2].
  change (inject_Z 1) with 1 in Hb2.
  assert (Hx2 : refilled_balance b now2
                = tokens b + (now2 - last_refill b) * refill_rate b).
  { unfold refilled_balance in *.
    destruct (py_min_cases (inject_Z (capacity b))
                (tokens b + (now2 - last_refill b) * refill_rate b))
      as [[_ ->]|[_ Heq]]; [reflexivity|]. rewrite Heq in Hb2. lra. }
  assert (Hx1 : refilled_balance b now1
                = tokens b + (now1 - last_refill b) * refill_rate b).
  { unfold refilled_balance in *.
    destruct (py_min_cases (inject_Z (capacity b))
                (tokens b + (now1 - last_refill b) * refill_rate b))
      as [[_ ->]|[Hge _]]; [reflexivity|]. rewrite Hx2 in Hb2. lra. }
  assert (Hb1 : refilled_balance b now1 < refilled_balance b now2).
  { rewrite Hx1, Hx2. lra. }
  assert (Hden1 : fst (consume b 1 now1) = false).
  { destruct (fst (consume b 1 now1)) eqn:E; [|reflexivity].
    apply consume_grants_iff in E. change (inject_Z 1) with 1 in E. lra. }
  destruct (consume_denied _ _ _ Hden1) as [_ E1].
  exists ((1 - refilled_balance b now1) / refill_rate b),
         ((1 - refilled_balance b now2) / refill_rate b).
  split; [exact Hden1|]. rewrite E1, E2.
  split; [rewrite get_retry_after_waiting; simpl; [reflexivity | lra | exact Hrate]|].
  split; [rewrite get_retry_after_waiting; simpl; [reflexivity | lra | exact Hrate]|].
  split; [apply Qdiv_pos; lra | apply Qdiv_lt_mono; lra].
Qed.

(** Waiting the announced delay is enough: the next unit request is granted. *)
Lemma retry_after_is_enough b now :
  0 < refill_rate b -> (1 <= capacity b)%Z ->
  (1 - tokens b) / refill_rate b <= now - last_refill b ->
  fst (consume b 1 now) = true.
Proof.
  intros Hpos Hcap Hwait.
  assert (Hc1 : 1 <= inject_Z (capacity b)).
  { change 1 with (inject_Z 1). now rewrite <- Zle_Qle. }
  apply consume_grants_iff. change (inject_Z 1) with 1.
  unfold refilled_balance. apply py_min_glb; [exact Hc1|].
  assert (H : (1 - tokens b) / refill_rate b * refill_rate b
              <= (now - last_refill b) * refill_rate b).
  { apply Qmult_le_compat_r; lra. }
  assert (E : (1 - tokens b) / refill_rate b * refill_rate b == 1 - tokens b).
  { field. lra. }
  lra.
Qed.

(** C3. [get_retry_after] answers [0] whenever the balance is at least 1
    and otherwise, for a rate that is not zero, exactly
    [(1 - tokens) / refill_rate]; on a zero rate that division raises.
    Waiting refills the bucket at the next [consume]: of two waits on the
    same bucket, of positive rate and of capacity at least 1, that both
    leave it short of one token, the longer one leaves the strictly
    smaller positive delay. *)
Theorem get_retry_after_law (b : TokenBucket) :
  (1 <= tokens b -> get_retry_after b = Ok 0) /\
  (tokens b < 1 -> ~ refill_rate b == 0 ->
   get_retry_after b = Ok ((1 - tokens b) / refill_rate b)) /\
  (tokens b < 1 -> refill_rate b == 0 ->
   get_retry_after b = Raise ZeroDivisionError) /\
  (forall now1 now2,
     0 < refill_rate b -> (1 <= capacity b)%Z ->
     now1 < now2 ->
     fst (consume b 1 now2) = false ->
     exists r1 r2,
       fst (consume b 1 now1) = false /\
       get_retry_after (snd (consume b 1 now1)) = Ok r1 /\
       get_retry_after (snd (consume b 1 now2)) = Ok r2 /\
       0 < r2 /\ r2 < r1).
Proof.
  split; [apply get_retry_after_ready|].
  split; [apply get_retry_after_waiting|].
  split; [apply get_retry_after_zero_rate|].
  intros now1 now2. apply retry_after_decreases.
Qed.

Lemma get_retry_after_law_witness :
  get_retry_after {| capacity := 5; refill_rate := 1 # 2;
                     tokens := 1 # 4; last_refill := 0 |}
  = Ok ((1 - (1 # 4)) / (1 # 2)) /\
  exists r1 r2,
    get_retry_after
      (snd (consume {| capacity := 5; refill_rate := 1 # 2;
                       tokens := 1 # 4; last_refill := 0 |} 1 (1 # 2))) = Ok r1 /\
    get_retry_after
      (snd (consume {| capacity := 5; refill_rate := 1 # 2;
                       tokens := 1 # 4; last_refill := 0 |} 1 1)) = Ok r2 /\
    r2 < r1.
Proof.
  destruct (get_retry_after_law
              {| capacity := 5; refill_rate := 1 # 2;
                 tokens := 1 # 4; last_refill := 0 |}) as (_ & Hw & _ & Hm).
  split; [apply Hw; simpl; qclosed|].
  destruct (Hm (1 # 2) 1) as (r1 & r2 & _ & H1 & H2 & _ & Hlt);
    [simpl; qclosed | simpl; lia | qclosed | reflexivity |].
  exists r1, r2. auto.
Defined.

(** A bucket that cannot hold a whole token never gets closer to one: the
    reason for the capacity bound in the monotonicity statement. *)
Example retry_after_stuck_below_capacity_one :
  get_retry_after (snd (consume (TokenBucket_init 0 1 0) 1 5)) = Ok (1 / 1) /\
  get_retry_after (snd (consume (TokenBucket_init 0 1 0) 1 9)) = Ok (1 / 1).
Proof. split; reflexivity. Qed.

(** On a zero refill rate the delay is a division by zero. *)
Example retry_after_zero_rate_raises :
  get_retry_after (TokenBucket_init 0 0 0) = Raise ZeroDivisionError.
Proof. reflexivity. Qed.

(** Two buckets on which the law as worded fails.  A limit of 0 requests
    makes a bucket of rate 0: short of a token, its delay is no number but
    a [ZeroDivisionError], which [is_allowed] lets through.  And a bucket
    of capacity 0 with a positive rate stays empty however long the wait:
    its delay does not decrease. *)
Lemma get_retry_after_law_fails :
  (tokens (TokenBucket_init 0 (0 / 300) 0) < 1 /\
   get_retry_after (TokenBucket_init 0 (0 / 300) 0) = Raise ZeroDivisionError /\
   fst (is_allowed {| fireworks_api_key := None; use_redis := false;
                      cache_ttl := 86400; rate_limit_requests := 0;
                      rate_limit_window := 300 |}
          (RateLimiter_init 0) "c1" None 1 0) = Raise ZeroDivisionError) /\
  (get_retry_after (snd (consume (TokenBucket_init 0 1 0) 1 5)) = Ok (1 / 1) /\
   get_retry_after (snd (consume (TokenBucket_init 0 1 0) 1 9)) = Ok (1 / 1)).
Proof.
  split; [split; [qclosed|split; reflexivity]|split; reflexivity].
Qed.

(** ** RateLimiter *)

Lemma cleanup_not_due rl now :
  now - last_cleanup rl < cleanup_interval rl ->
  _cleanup_old_buckets rl now = rl.
Proof.
  intros H. unfold _cleanup_old_buckets.
  apply Qlt_bool_true in H. now rewrite H.
Qed.

Lemma cleanup_lookup rl now key b :
  buckets (_cleanup_old_buckets rl now) !! key = Some b ->
  buckets rl !! key = Some b.
Proof.
  unfold _cleanup_old_buckets.
  destruct (Qlt_bool _ _); simpl; [tauto|].
  intros H. apply map_lookup_filter_Some in H. tauto.
Qed.

(** [is_allowed], read through the bucket it consumes from. *)
Lemma is_allowed_eq cfg rl client_id endpoint n now :
  rate_limit_window cfg <> 0%Z ->
  let rl1 := _cleanup_old_buckets rl now in
  let key := _get_bucket_key client_id endpoint in
  let b := bucket_of cfg rl key now in
  is_allowed cfg rl client_id endpoint n now =
    (if fst (consume b n now) then Ok (true, 0)
     else match get_retry_after (snd (consume b n now)) with
          | Ok retry_after => Ok (false, retry_after)
          | Raise e => Raise e
          end,
     set_buckets rl1 (<[key := snd (consume b n now)]> (buckets rl1))).
Proof.
  intros Hw. simpl. unfold is_allowed, bucket_of, configured_rate.
  apply Z.eqb_neq in Hw. rewrite Hw.
  destruct (buckets (_cleanup_old_buckets rl now) !! _) as [b|];
    destruct (consume _ n now) as [[|] b']; simpl;
    try reflexivity; destruct (get_retry_after b'); reflexivity.
Qed.

Lemma bucket_of_rate cfg rl key now :
  limiter_wf cfg rl ->
  refill_rate (bucket_of cfg rl key now) = configured_rate cfg.
Proof.
  intros Hwf. unfold bucket_of.
  destruct (buckets (_cleanup_old_buckets rl now) !! key) as [b|] eqn:E.
  - apply cleanup_lookup in E. exact (Hwf _ _ E).
  - reflexivity.
Qed.



Lemma configured_rate_pos cfg :
  (0 < rate_limit_requests cfg)%Z -> (0 < rate_limit_window cfg)%Z ->
  0 < configured_rate cfg.
Proof.
  intros Hr Hw. unfold configured_rate. apply Qdiv_pos.
  - change 0 with (inject_Z 0). now rewrite <- Zlt_Qlt.
  - change 0 with (inject_Z 0). now rewrite <- Zlt_Qlt.
Qed.

(** What one call answers, by the balance after refill. *)
Lemma is_allowed_answer cfg rl client_id endpoint n now :
  (0 < rate_limit_requests cfg)%Z -> (0 < rate_limit_window cfg)%Z ->
  limiter_wf cfg rl ->
  let b := bucket_of cfg rl (_get_bucket_key client_id endpoint) now in
  (inject_Z n <= refilled_balance b now ->
     fst (is_allowed cfg rl client_id endpoint n now) = Ok (true, 0)) /\
  (refilled_balance b now < inject_Z n ->
     exists retry_after,
       fst (is_allowed cfg rl client_id endpoint n now) = Ok (false, retry_after) /\
       get_retry_after (snd (consume b n now)) = Ok retry_after).
Proof.
  intros Hr Hw Hwf b.
  assert (Hw0 : rate_limit_window cfg <> 0%Z) by lia.
  rewrite (is_allowed_eq _ _ _ _ _ _ Hw0). simpl. fold b.
  pose proof (configured_rate_pos cfg Hr Hw) as Hpos.
  split; intros H.
  - apply consume_grants_iff in H. now rewrite H.
  - destruct (fst (consume b n now)) eqn:E.
    { apply consume_grants_iff in E. lra. }
    destruct (consume_fields b n now) as (_ & Hrate & _).
    unfold b in Hrate at 2. rewrite (bucket_of_rate _ _ _ _ Hwf) in Hrate.
    destruct (Qlt_le_dec (tokens (snd (consume b n now))) 1) as [Hlt|Hge].
    + rewrite get_retry_after_waiting; [eauto | exact Hlt | rewrite Hrate; lra].
    + rewrite get_retry_after_ready; [eauto | exact Hge].
Qed.




(** *** Bursts: calls in a row with no time elapsing *)

Lemma at_rest_init cfg key now :
  at_rest cfg (RateLimiter_init now) key now (inject_Z (rate_limit_requests cfg)).
Proof.
  assert (Hnd : now - last_cleanup (RateLimiter_init now)
                < cleanup_interval (RateLimiter_init now)) by (simpl; lra).
  unfold at_rest, bucket_of. rewrite (cleanup_not_due _ _ Hnd). simpl.
  rewrite lookup_empty. simpl. repeat split; lra.
Qed.

Lemma at_rest_refilled cfg rl key now q :
  at_rest cfg rl key now q ->
  refilled_balance (bucket_of cfg rl key now) now == q.
Proof.
  intros (_ & Hl & Hc & _ & Ht & Hq). unfold refilled_balance.
  rewrite Hl, Hc.
  destruct (py_min_cases (inject_Z (rate_limit_requests cfg))
              (tokens (bucket_of cfg rl key now)
               + (now - now) * refill_rate (bucket_of cfg rl key now)))
    as [[H ->]|[H ->]]; lra.
Qed.

(** The state one call leaves behind, when no sweep is due. *)
Lemma at_rest_after cfg rl client_id endpoint n now q q' :
  rate_limit_window cfg <> 0%Z ->
  at_rest cfg rl (_get_bucket_key client_id endpoint) now q ->
  tokens (snd (consume (bucket_of cfg rl (_get_bucket_key client_id endpoint) now)
                 n now)) == q' ->
  q' <= inject_Z (rate_limit_requests cfg) ->
  at_rest cfg (snd (is_allowed cfg rl client_id endpoint n now))
    (_get_bucket_key client_id endpoint) now q'.
Proof.
  intros Hw Hrest Hq' Hle.
  pose proof Hrest as (Hnd & Hl & Hc & Hr & _ & _).
  rewrite (is_allowed_eq _ _ _ _ _ _ Hw). simpl.
  rewrite (cleanup_not_due _ _ Hnd).
  set (key := _get_bucket_key client_id endpoint) in *.
  set (b := bucket_of cfg rl key now) in *.
  destruct (consume_fields b n now) as (Hc' & Hr' & Hl').
  assert (Hb : bucket_of cfg (set_buckets rl (<[key := snd (consume b n now)]> (buckets rl)))
                 key now = snd (consume b n now)).
  { unfold bucket_of. rewrite cleanup_not_due by exact Hnd.
    simpl. now rewrite lookup_insert_eq. }
  unfold at_rest. rewrite Hb. simpl.
  repeat split; try assumption; congruence.
Qed.

Lemma is_allowed_at_rest_granted cfg rl client_id endpoint n now q :
  rate_limit_window cfg <> 0%Z ->
  (0 <= n)%Z ->
  at_rest cfg rl (_get_bucket_key client_id endpoint) now q ->
  inject_Z n <= q ->
  fst (is_allowed cfg rl client_id endpoint n now) = Ok (true, 0) /\
  at_rest cfg (snd (is_allowed cfg rl client_id endpoint n now))
    (_get_bucket_key client_id endpoint) now (q - inject_Z n).
Proof.
  intros Hw Hn Hrest Hle.
  pose proof (at_rest_refilled _ _ _ _ _ Hrest) as Href.
  pose proof (inject_Z_nonneg _ Hn) as Hn0.
  pose proof Hrest as (_ & _ & _ & _ & _ & Hq).
  assert (E : fst (consume (bucket_of cfg rl (_get_bucket_key client_id endpoint) now)
                     n now) = true).
  { apply consume_grants_iff. lra. }
  split.
  - rewrite (is_allowed_eq _ _ _ _ _ _ Hw). simpl. now rewrite E.
  - apply (at_rest_after _ _ _ _ _ _ q); try assumption; [|lra].
    destruct (consume_granted _ _ _ E) as [_ ->]. simpl. lra.
Qed.

Lemma is_allowed_at_rest_denied cfg rl client_id endpoint n now q :
  rate_limit_window cfg <> 0%Z ->
  ~ configured_rate cfg == 0 ->
  at_rest cfg rl (_get_bucket_key client_id endpoint) now q ->
  q < inject_Z n ->
  q < 1 ->
  exists retry_after,
    fst (is_allowed cfg rl client_id endpoint n now) = Ok (false, retry_after) /\
    retry_after == (1 - q) / configured_rate cfg /\
    at_rest cfg (snd (is_allowed cfg rl client_id endpoint n now))
      (_get_bucket_key client_id endpoint) now q.
Proof.
  intros Hw Hrate Hrest Hlt Hlt1.
  pose proof (at_rest_refilled _ _ _ _ _ Hrest) as Href.
  pose proof Hrest as (_ & _ & _ & Hr & _ & Hq).
  set (b := bucket_of cfg rl (_get_bucket_key client_id endpoint) now) in *.
  assert (E : fst (consume b n now) = false).
  { destruct (fst (consume b n now)) eqn:E; [|reflexivity].
    apply consume_grants_iff in E. lra. }
  destruct (consume_denied _ _ _ E) as [_ Eb].
  exists ((1 - refilled_balance b now) / refill_rate b).
  split; [|split].
  - rewrite (is_allowed_eq _ _ _ _ _ _ Hw). simpl. fold b. rewrite E, Eb.
    rewrite get_retry_after_waiting; simpl;
      [reflexivity | lra | now rewrite Hr].
  - rewrite Hr. now rewrite Href.
  - apply (at_rest_after _ _ _ _ _ _ q); try assumption.
    fold b. rewrite Eb. simpl. exact Href.
Qed.

Lemma at_rest_proper cfg rl key now q q' :
  q == q' -> at_rest cfg rl key now q -> at_rest cfg rl key now q'.
Proof.
  intros E (H1 & H2 & H3 & H4 & H5 & H6).
  repeat split; try assumption; lra.
Qed.

(** [k] unit requests in a row succeed on a balance of at least [k]. *)
Lemma burst_granted cfg client_id endpoint now k : forall rl q,
  rate_limit_window cfg <> 0%Z ->
  at_rest cfg rl (_get_bucket_key client_id endpoint) now q ->
  inject_Z (Z.of_nat k) <= q ->
  fst (repeat_is_allowed cfg rl client_id endpoint 1 now k)
    = repeat (Ok (true, 0)) k /\
  at_rest cfg (snd (repeat_is_allowed cfg rl client_id endpoint 1 now k))
    (_get_bucket_key client_id endpoint) now (q - inject_Z (Z.of_nat k)).
Proof.
  induction k as [|k IH]; intros rl q Hw Hrest Hle.
  - simpl. split; [reflexivity|].
    apply (at_rest_proper _ _ _ _ q); [|exact Hrest].
    change (inject_Z (Z.of_nat 0)) with 0. lra.
  - assert (Hk : inject_Z (Z.of_nat (S k)) == inject_Z (Z.of_nat k) + 1).
    { rewrite Nat2Z.inj_succ. unfold Z.succ. rewrite inject_Z_plus. reflexivity. }
    assert (Hk0 : 0 <= inject_Z (Z.of_nat k)) by (apply inject_Z_nonneg; lia).
    change 1 with (inject_Z 1) in Hk.
    destruct (is_allowed_at_rest_granted cfg rl client_id endpoint 1 now q Hw)
      as [Hfst Hrest']; [lia | exact Hrest | lra |].
    simpl.
    destruct (is_allowed cfg rl client_id endpoint 1 now) as [r rl1].
    simpl in Hfst, Hrest'. subst r.
    destruct (IH rl1 (q - inject_Z 1) Hw Hrest') as [Hrs Hfin]; [lra|].
    destruct (repeat_is_allowed cfg rl1 client_id endpoint 1 now k) as [rs rl2].
    simpl in *. subst rs. split; [reflexivity|].
    apply (at_rest_proper _ _ _ _ (q - inject_Z 1 - inject_Z (Z.of_nat k)));
      [lra | exact Hfin].
Qed.

Lemma repeat_is_allowed_snoc cfg client_id endpoint n now k : forall rl,
  repeat_is_allowed cfg rl client_id endpoint n now (S k) =
    ((fst (repeat_is_allowed cfg rl client_id endpoint n now k)
       ++ [fst (is_allowed cfg
                  (snd (repeat_is_allowed cfg rl client_id endpoint n now k))
                  client_id endpoint n now)])%list,
     snd (is_allowed cfg
            (snd (repeat_is_allowed cfg rl client_id endpoint n now k))
            client_id endpoint n now)).
Proof.
  induction k as [|k IH]; intros rl.
  - simpl. now destruct (is_allowed cfg rl client_id endpoint n now).
  - change (repeat_is_allowed cfg rl client_id endpoint n now (S (S k)))
      with (let '(r, rl1) := is_allowed cfg rl client_id endpoint n now in
            let '(rs, rl2) := repeat_is_allowed cfg rl1 client_id endpoint n now (S k) in
            (r :: rs, rl2)).
    change (repeat_is_allowed cfg rl client_id endpoint n now (S k))
      with (let '(r, rl1) := is_allowed cfg rl client_id endpoint n now in
            let '(rs, rl2) := repeat_is_allowed cfg rl1 client_id endpoint n now k in
            (r :: rs, rl2)).
    destruct (is_allowed cfg rl client_id endpoint n now) as [r rl1].
    rewrite (IH rl1).
    destruct (repeat_is_allowed cfg rl1 client_id endpoint n now k) as [rs rl2].
    reflexivity.
Qed.

(** A new limiter grants exactly [capacity] unit requests made at one
    instant; the next one is denied with the time one token takes. *)
Lemma burst_exhausts cfg client_id endpoint t0 :
  (0 < rate_limit_requests cfg)%Z ->
  (0 < rate_limit_window cfg)%Z ->
  exists retry_after,
    fst (repeat_is_allowed cfg (RateLimiter_init t0) client_id endpoint 1 t0
           (S (Z.to_nat (rate_limit_requests cfg))))
    = (repeat (Ok (true, 0)) (Z.to_nat (rate_limit_requests cfg))
         ++ [Ok (false, retry_after)])%list /\
    retry_after == (1 - 0) / configured_rate cfg /\
    at_rest cfg
      (snd (repeat_is_allowed cfg (RateLimiter_init t0) client_id endpoint 1 t0
              (S (Z.to_nat (rate_limit_requests cfg)))))
      (_get_bucket_key client_id endpoint) t0 0.
Proof.
  intros Hr Hw.
  assert (Hw0 : rate_limit_window cfg <> 0%Z) by lia.
  pose proof (configured_rate_pos cfg Hr Hw) as Hpos.
  set (k := Z.to_nat (rate_limit_requests cfg)).
  assert (Hk : inject_Z (Z.of_nat k) = inject_Z (rate_limit_requests cfg)).
  { unfold k. rewrite Z2Nat.id by lia. reflexivity. }
  destruct (burst_granted cfg client_id endpoint t0 k (RateLimiter_init t0)
              (inject_Z (rate_limit_requests cfg)) Hw0 (at_rest_init _ _ _))
    as [Hrs Hrest]; [rewrite Hk; lra|].
  rewrite Hk in Hrest.
  apply (at_rest_proper _ _ _ _ _ 0) in Hrest; [|lra].
  assert (Hne : ~ configured_rate cfg == 0) by lra.
  destruct (is_allowed_at_rest_denied cfg _ client_id endpoint 1 t0 0 Hw0 Hne Hrest)
    as (retry & Hres & Hretry & Hfin); [reflexivity | reflexivity |].
  exists retry. rewrite repeat_is_allowed_snoc. simpl fst. simpl snd.
  rewrite Hrs, Hres. auto.
Qed.

(** C2. Capacity 5, window 10 seconds (rate 1/2 per second), a new
    limiter and six calls [is_allowed("c1", "summarize")] at one instant:
    the first five answer [(true, 0.0)], the sixth [(false, retry_after)]
    with [retry_after = (1 - remaining) / 0.5 = 2], the remaining balance
    being 0. *)
Theorem local_limiter_burst_scenario (t0 : Q) :
  exists remaining retry_after rl',
    repeat_is_allowed (scenario_settings false) (RateLimiter_init t0)
      "c1" (Some "summarize") 1 t0 6
    = ([Ok (true, 0); Ok (true, 0); Ok (true, 0); Ok (true, 0); Ok (true, 0);
        Ok (false, retry_after)], rl') /\
    configured_rate (scenario_settings false) == 1 # 2 /\
    tokens (bucket_of (scenario_settings false) rl' "c1:summarize" t0) = remaining /\
    remaining == 0 /\
    retry_after == (1 - remaining) / (1 # 2) /\
    retry_after == 2.
Proof.
  destruct (burst_exhausts (scenario_settings false) "c1" (Some "summarize") t0)
    as (retry & Hrs & Hretry & Hrest); [reflexivity | reflexivity |].
  change (S (Z.to_nat (rate_limit_requests (scenario_settings false)))) with 6%nat in *.
  change (Z.to_nat (rate_limit_requests (scenario_settings false))) with 5%nat in Hrs.
  simpl repeat in Hrs. simpl app in Hrs.
  destruct (repeat_is_allowed (scenario_settings false) (RateLimiter_init t0)
              "c1" (Some "summarize") 1 t0 6) as [rs rl'].
  simpl in Hrs, Hrest. subst rs.
  destruct Hrest as (_ & _ & _ & _ & Htok & _).
  assert (Hrate : configured_rate (scenario_settings false) == 1 # 2) by reflexivity.
  exists (tokens (bucket_of (scenario_settings false) rl' "c1:summarize" t0)), retry, rl'.
  split; [reflexivity|]. split; [exact Hrate|]. split; [reflexivity|].
  split; [exact Htok|].
  rewrite Hrate in Hretry. split.
  - rewrite Hretry, Htok. reflexivity.
  - rewrite Hretry. reflexivity.
Qed.

(** The same burst, evaluated at the epoch. *)
Example local_limiter_burst_at_zero :
  fst (repeat_is_allowed (scenario_settings false) (RateLimiter_init 0)
         "c1" (Some "summarize") 1 0 6)
  = [Ok (true, 0); Ok (true, 0); Ok (true, 0); Ok (true, 0); Ok (true, 0);
     Ok (false, 1000000 # 500000)].
Proof. vm_compute. reflexivity. Qed.

(** ** RedisRateLimiter *)

Section DistributedProperties.

Variable str_float : Q -> string.

Lemma redis_try_raises_from_store cfg net db client_id endpoint now e db' :
  redis_is_allowed_try str_float cfg net db client_id endpoint now = (Raise e, db') ->
  execute_error net = Some e \/ zrange_error net = Some e.
Proof.
  unfold redis_is_allowed_try, pipeline_execute, zrange_call.
  destruct (execute_error net) as [e1|]; [intros [= <- _]; now left|].
  destruct (zremrangebyscore _ _ _ _) as [r0 db1].
  destruct (zadd _ _ _ _) as [r2 db2].
  destruct (expire _ _ _ _) as [r3 db3].
  destruct (_ <? _)%Z; [discriminate|].
  destruct (zrange_error net) as [e2|]; [intros [= <- _]; now right|].
  destruct (zrange_first _ _); discriminate.
Qed.

Lemma redis_execute_error cfg net db client_id endpoint now e :
  execute_error net = Some e ->
  redis_is_allowed str_float cfg net db client_id endpoint now = ((true, 0), db).
Proof.
  intros H. unfold redis_is_allowed, redis_is_allowed_try, pipeline_execute.
  now rewrite H.
Qed.

Lemma redis_zrange_error cfg net db client_id endpoint now e :
  zrange_error net = Some e ->
  fst (redis_is_allowed str_float cfg net db client_id endpoint now) = (true, 0).
Proof.
  intros H. unfold redis_is_allowed, redis_is_allowed_try, pipeline_execute, zrange_call.
  rewrite H.
  destruct (execute_error net); [reflexivity|].
  destruct (zremrangebyscore _ _ _ _) as [r0 db1].
  destruct (zadd _ _ _ _) as [r2 db2].
  destruct (expire _ _ _ _) as [r3 db3].
  destruct (_ <? _)%Z; reflexivity.
Qed.

(** C6. Whenever an operation against the shared store raises during an
    admission check (the pipeline's [execute], or the [zrange] of a
    denial), [is_allowed] answers [(true, 0.0)] and no exception leaves
    the call: the exceptions of the [try] body are those of the store, and
    each becomes that answer.  A failed [execute] leaves the store as it
    was. *)
Theorem redis_fail_open (cfg : Settings) (net : Network)
    (db : gmap string ZSetKey) (client_id : string) (endpoint : option string)
    (now : Q) (e : exn) :
  execute_error net = Some e \/ zrange_error net = Some e ->
  fst (redis_is_allowed str_float cfg net db client_id endpoint now) = (true, 0) /\
  (execute_error net = Some e ->
   snd (redis_is_allowed str_float cfg net db client_id endpoint now) = db) /\
  (forall e' db',
     redis_is_allowed_try str_float cfg net db client_id endpoint now = (Raise e', db') ->
     (execute_error net = Some e' \/ zrange_error net = Some e') /\
     redis_is_allowed str_float cfg net db client_id endpoint now = ((true, 0), db')).
Proof.
  intros H. split; [|split].
  - destruct H as [H|H].
    + now rewrite (redis_execute_error _ _ _ _ _ _ _ H).
    + exact (redis_zrange_error _ _ _ _ _ _ _ H).
  - intros He. now rewrite (redis_execute_error _ _ _ _ _ _ _ He).
  - intros e' db' Htry.
    split; [exact (redis_try_raises_from_store _ _ _ _ _ _ _ _ Htry)|].
    unfold redis_is_allowed. now rewrite Htry.
Qed.

Lemma pipeline_execute_state net db key window_start now window :
  execute_error net = None ->
  0 < window ->
  snd (pipeline_execute str_float net db key window_start now window) !! key
  = Some {| zmembers :=
              <[str_float now := now]>
                (redis_members
                   (snd (zremrangebyscore (redis_purge db key now) key 0 window_start))
                   key);
            zexpire := Some (now + window) |}.
Proof.
  intros Hnet Hw. unfold pipeline_execute. rewrite Hnet.
  destruct (zremrangebyscore (redis_purge db key now) key 0 window_start)
    as [r0 db1].
  unfold zadd, expire. simpl. rewrite lookup_insert_eq.
  apply Qlt_bool_true in Hw. unfold Qlt_bool in Hw.
  apply negb_true_iff in Hw. rewrite Hw. simpl.
  now rewrite lookup_insert_eq.
Qed.




End DistributedProperties.

Lemma redis_fail_open_witness :
  fst (redis_is_allowed fraction_name strict_settings
         {| execute_error := Some (StoreError "connection lost");
            zrange_error := None |}
         ∅ "c1" (Some "summarize") 0) = (true, 0).
Proof.
  destruct (redis_fail_open fraction_name strict_settings
              {| execute_error := Some (StoreError "connection lost");
                 zrange_error := None |}
              ∅ "c1" (Some "summarize") 0 (StoreError "connection lost"))
    as (H & _); [left; reflexivity | exact H].
Defined.


(** A denied request delays recovery.  One request per 10 seconds: the
    request at 0 is admitted and the one at 5 denied; at 10.5 the first has
    left the window, yet the check is denied, because the denied request of
    instant 5 is counted.  Without the request at 5 it is admitted. *)
Example denied_request_delays_recovery :
  let call db t :=
    redis_is_allowed fraction_name strict_settings network_up db "c1" None t in
  let db1 := snd (call ∅ 0) in
  let db2 := snd (call db1 5) in
  fst (call ∅ 0) = (true, 0) /\
  fst (fst (call db1 5)) = false /\
  fst (fst (call db2 (21 # 2))) = false /\
  fst (call db1 (21 # 2)) = (true, 0).
Proof. vm_compute. repeat split; reflexivity. Qed.

(** ** The local cache backend *)

Lemma SQLiteCache_get_Some io table key now v :
  SQLiteCache_get io table key now = Some v <->
  io = None /\
  exists row, table !! key = Some row /\ row_value row = v /\ now < expires_at row.
Proof.
  unfold SQLiteCache_get. split.
  - destruct io; [discriminate|].
    destruct (table !! key) as [row|]; [|discriminate].
    destruct (Qlt_bool now (expires_at row)) eqn:E; [|discriminate].
    intros [= <-]. split; [reflexivity|]. exists row.
    apply Qlt_bool_true in E. auto.
  - intros (-> & row & -> & <- & Hlt).
    apply Qlt_bool_true in Hlt. now rewrite Hlt.
Qed.


Lemma SQLiteCache_set_row cfg table key value ttl now :
  SQLiteCache_set cfg None table key value ttl now =
  (true, <[key := {| row_value := value; created_at := now;
                     expires_at := now + inject_Z (ttl_or_default cfg ttl) |}]> table).
Proof. reflexivity. Qed.

(** The sweep removes only rows that no read returns any more. *)
Lemma cleanup_expired_keeps_reads io table key now :
  SQLiteCache_get io (snd (SQLiteCache_cleanup_expired None table now)) key now
  = SQLiteCache_get io table key now.
Proof.
  unfold SQLiteCache_get, SQLiteCache_cleanup_expired. cbn [snd].
  destruct io; [reflexivity|].
  destruct (table !! key) as [row|] eqn:Hrow.
  - destruct (Qlt_bool now (expires_at row)) eqn:E.
    + assert (Hkept :
        filter (fun kr : string * CacheRow => Qle_bool (expires_at (snd kr)) now = false)
               table !! key = Some row).
      { apply map_lookup_filter_Some. split; [exact Hrow|]. simpl.
        apply Qle_bool_false. now apply Qlt_bool_true. }
      now rewrite Hkept, E.
    + destruct (filter _ table !! key) as [row'|] eqn:Hf; [|reflexivity].
      apply map_lookup_filter_Some in Hf as [Hf _].
      rewrite Hrow in Hf. injection Hf as <-. now rewrite E.
  - destruct (filter _ table !! key) as [row'|] eqn:Hf; [|reflexivity].
    apply map_lookup_filter_Some in Hf as [Hf _]. congruence.
Qed.






(** *** [ttl = 0] *)

Lemma ttl_zero_is_default cfg : ttl_or_default cfg (Some 0%Z) = cache_ttl cfg.
Proof. reflexivity. Qed.

(** With [ttl = 0] the row is written with the configured default lifetime,
    and an immediate [get] returns it. *)
Lemma ttl_zero_entry_is_served cfg table text mode persona result now :
  (0 < cache_ttl cfg)%Z ->
  CacheManager_get None
    (snd (CacheManager_set cfg None table text mode persona result (Some 0%Z) now))
    text mode persona now
  = Some (cache_data text mode persona result now).
Proof.
  intros Hpos. unfold CacheManager_get, CacheManager_set.
  rewrite SQLiteCache_set_row, ttl_zero_is_default. cbn [fst snd].
  apply SQLiteCache_get_Some. split; [reflexivity|].
  eexists. split; [apply lookup_insert_eq|]. simpl. split; [reflexivity|].
  assert (0 < inject_Z (cache_ttl cfg)).
  { change 0 with (inject_Z 0). now rewrite <- Zlt_Qlt. }
  lra.
Qed.

(** C1, evaluated: [set("Hello World", "summarize", "human", result, ttl=0)]
    and an immediate [get] on the local backend.  The answer is the stored
    entry, not a miss, and the row expires 86400 seconds later. *)
Lemma ttl_zero_scenario :
  let result := JObj [("summary", JStr "hi")] in
  let stored :=
    CacheManager_set default_settings None ∅
      "Hello World" "summarize" "human" result (Some 0%Z) 1000 in
  fst stored = true /\
  CacheManager_get None (snd stored) "Hello World" "summarize" "human" 1000
  = Some (cache_data "Hello World" "summarize" "human" result 1000) /\
  expires_at <$> (snd stored !! generate_key "Hello World" "summarize" "human")
  = Some (1000 + 86400).
Proof. vm_compute. repeat split; reflexivity. Qed.

(** ** Strings *)

Lemma append_cons (c : ascii) (a b : string) : String c a ++ b = String c (a ++ b).
Proof. reflexivity. Qed.

Lemma append_nil_l (b : string) : "" ++ b = b.
Proof. reflexivity. Qed.

Lemma append_nil_r (s : string) : s ++ "" = s.
Proof.
  induction s as [|c s IH]; [reflexivity|].
  now rewrite append_cons, IH.
Qed.

Lemma append_assoc (a b c : string) : (a ++ b) ++ c = a ++ (b ++ c).
Proof.
  induction a as [|x a IH]; [reflexivity|].
  now rewrite !append_cons, IH.
Qed.

Lemma append_inj_l (s a b : string) : s ++ a = s ++ b -> a = b.
Proof.
  induction s as [|c s IH]; [tauto|].
  rewrite !append_cons. intros [= H]. now apply IH.
Qed.

Lemma length_append (a b : string) :
  String.length (a ++ b) = (String.length a + String.length b)%nat.
Proof.
  induction a as [|c a IH]; [reflexivity|].
  rewrite append_cons. simpl. now rewrite IH.
Qed.


Lemma prefix_nil (h : string) : String.prefix "" h = true.
Proof. destruct h; reflexivity. Qed.

Lemma prefix_append (n b : string) : String.prefix n (n ++ b) = true.
Proof.
  induction n as [|c n IH]; [apply prefix_nil|].
  rewrite append_cons. simpl.
  destruct (ascii_dec c c) as [_|Hne]; [exact IH | contradiction].
Qed.

Lemma prefix_inv (n : string) : forall h,
  String.prefix n h = true -> exists b, h = n ++ b.
Proof.
  induction n as [|c n IH]; intros h H.
  - now exists h.
  - destruct h as [|d h]; simpl in H; [discriminate|].
    destruct (ascii_dec c d) as [->|_]; [|discriminate].
    destruct (IH h H) as [b ->]. now exists b.
Qed.

Lemma str_in_unfold (n h : string) :
  str_in n h =
  if String.prefix n h then true
  else match h with
       | String _ h' => str_in n h'
       | "" => false
       end.
Proof. destruct h; reflexivity. Qed.

Lemma str_in_append (n b : string) : forall a, str_in n (a ++ n ++ b) = true.
Proof.
  induction a as [|c a IH].
  - rewrite append_nil_l, str_in_unfold. now rewrite prefix_append.
  - rewrite append_cons, str_in_unfold.
    destruct (String.prefix _ _); [reflexivity | exact IH].
Qed.

Lemma str_in_inv (n : string) : forall h,
  str_in n h = true -> exists a b, h = a ++ n ++ b.
Proof.
  induction h as [|c h IH]; rewrite str_in_unfold;
    destruct (String.prefix n _) eqn:E; intros H.
  - destruct (prefix_inv _ _ E) as [b ->]. now exists "", b.
  - discriminate.
  - destruct (prefix_inv _ _ E) as [b Hb]. exists "", b. exact Hb.
  - destruct (IH H) as (a & b & ->). now exists (String c a), b.
Qed.

Lemma lower_append (a b : string) : lower (a ++ b) = lower a ++ lower b.
Proof.
  induction a as [|c a IH]; [reflexivity|].
  rewrite append_cons. simpl. now rewrite IH.
Qed.

Lemma str_in_lower (n h : string) :
  str_in n h = true -> str_in (lower n) (lower h) = true.
Proof.
  intros H. destruct (str_in_inv _ _ H) as (a & b & ->).
  rewrite !lower_append. apply str_in_append.
Qed.

(** ** The generation backend *)

Lemma create_client_unusable_key cfg :
  key_usable (fireworks_api_key cfg) = false -> create_client cfg = LocalMockClient.
Proof. intros H. unfold create_client. now rewrite H. Qed.

Lemma response_text_summarize prompt :
  str_in "summarize" (lower prompt) = true ->
  response_text prompt
  = summarize_head ++ take 100 (tweet_content prompt) ++ summarize_tail.
Proof. intros H. unfold response_text. now rewrite H. Qed.

(** C9. With no generation credential configured, [create_client] yields
    the mock client; the mock's [generate] answers every prompt with
    [success = true]; and for a prompt that contains "summarize" the text
    is the summarize branch: it starts with "Summary of the tweet: " and
    ends with the canned summary sentences. *)
Theorem mock_backend_without_credential (cfg : Settings) (prompt : string)
    (temperature : Q) (max_tokens : Z) (start_time end_time : Q) :
  fireworks_api_key cfg = None ->
  create_client cfg = LocalMockClient /\
  is_available (create_client cfg) = true /\
  success (mock_generate prompt temperature max_tokens start_time end_time) = true /\
  (str_in "summarize" prompt = true ->
   text (mock_generate prompt temperature max_tokens start_time end_time)
   = summarize_head ++ take 100 (tweet_content prompt) ++ summarize_tail /\
   str_in summarize_head
     (text (mock_generate prompt temperature max_tokens start_time end_time)) = true /\
   str_in summarize_tail
     (text (mock_generate prompt temperature max_tokens start_time end_time)) = true).
Proof.
  intros Hkey.
  assert (Hmock : create_client cfg = LocalMockClient).
  { apply create_client_unusable_key. now rewrite Hkey. }
  rewrite Hmock. repeat split.
  - apply str_in_lower in H. change (lower "summarize") with "summarize" in H.
    simpl. now apply response_text_summarize.
  - apply str_in_lower in H. change (lower "summarize") with "summarize" in H.
    cbn [text mock_generate]. rewrite (response_text_summarize _ H).
    apply (str_in_append summarize_head _ "").
  - apply str_in_lower in H. change (lower "summarize") with "summarize" in H.
    cbn [text mock_generate]. rewrite (response_text_summarize _ H).
    rewrite <- append_assoc.
    rewrite <- (append_nil_r summarize_tail) at 2.
    apply str_in_append.
Qed.

Lemma mock_backend_without_credential_witness :
  create_client default_settings = LocalMockClient /\
  text (mock_generate "Please summarize this" (7 # 10) 500 0 (24 # 100))
  = summarize_head ++ take 100 (tweet_content "Please summarize this")
      ++ summarize_tail.
Proof.
  destruct (mock_backend_without_credential default_settings
              "Please summarize this" (7 # 10) 500 0 (24 # 100) eq_refl)
    as (Hc & _ & _ & Ht).
  split; [exact Hc|]. apply Ht. reflexivity.
Defined.

(** The mock's answers on a prompt of the service, evaluated. *)
Example mock_generate_summarize :
  text (mock_generate ("Summarize the tweet." ++ nl ++ "Tweet:  GM frens  " ++ nl
                       ++ "Persona: human") (7 # 10) 500 0 (24 # 100))
  = "Summary of the tweet: GM frens..." ++ nl ++ nl ++
    "This tweet discusses important topics that are relevant to the audience." ++
    nl ++ nl ++ "The key points are clearly presented and easy to understand.".
Proof. vm_compute. reflexivity. Qed.

(** Keys that are present but too short also select the mock. *)
Example create_client_short_key :
  create_client {| fireworks_api_key := Some "shortkey10";
                   use_redis := false; cache_ttl := 86400;
                   rate_limit_requests := 60; rate_limit_window := 300 |}
  = LocalMockClient.
Proof. reflexivity. Qed.

(** ** Cache keys *)




Lemma split_first_colon : forall a a' r r' : string,
  no_colon a = true -> no_colon a' = true ->
  a ++ ":" ++ r = a' ++ ":" ++ r' -> a = a' /\ r = r'.
Proof.
  induction a as [|c a IH]; intros [|d a'] r r' Ha Ha' H.
  - rewrite !append_nil_l in H. apply (append_inj_l ":") in H. auto.
  - rewrite append_nil_l, !append_cons in H. injection H as <- _.
    simpl in Ha'. discriminate.
  - rewrite append_nil_l, !append_cons in H. injection H as -> _.
    simpl in Ha. discriminate.
  - rewrite !append_cons in H. injection H as -> H.
    simpl in Ha, Ha'. apply andb_true_iff in Ha as [_ Ha].
    apply andb_true_iff in Ha' as [_ Ha'].
    destruct (IH a' r r' Ha Ha' H) as [-> ->]. auto.
Qed.





Lemma no_colon_append a b : no_colon (a ++ String ":" b) = false.
Proof.
  induction a as [|c a IH]; [reflexivity|].
  rewrite append_cons. simpl. rewrite IH. apply andb_false_r.
Qed.





(** The key of the design document's scenario. *)
Example generate_key_hello_world :
  generate_key "Hello World" "summarize" "human"
  = "postpilot:d3b906cf0cc8df3a138faccb5664c77a702007a12d951a827f23344c6ad281e0".
Proof. vm_compute. reflexivity. Qed.

(** Why the joint change asks for modes without [":"]: the fields are
    joined by [":"] with no escaping, so a separator inside a field moves
    the boundary and two derivations hash the same text. *)
Example key_message_separator_inside_field :
  key_message "v2" "x" "a:b" "c" = key_message "v2" "x" "a" "b:c".
Proof. reflexivity. Qed.


(** * Further properties of the services *)

(** ** The in-process limiter as a whole *)

Lemma configured_rate_nonneg cfg :
  (0 <= rate_limit_requests cfg)%Z -> (0 < rate_limit_window cfg)%Z ->
  0 <= configured_rate cfg.
Proof.
  intros Hr Hw. unfold configured_rate, Qdiv.
  apply Qmult_le_0_compat; [now apply inject_Z_nonneg|].
  apply Qinv_le_0_compat. apply inject_Z_nonneg. lia.
Qed.

Lemma cleanup_interval_cleanup rl now :
  cleanup_interval (_cleanup_old_buckets rl now) = cleanup_interval rl.
Proof. unfold _cleanup_old_buckets. now destruct (Qlt_bool _ _). Qed.

Lemma cleanup_lookup_recent rl now key b :
  buckets rl !! key = Some b ->
  now - 3600 <= last_refill b ->
  buckets (_cleanup_old_buckets rl now) !! key = Some b.
Proof.
  intros Hb Hrecent. unfold _cleanup_old_buckets.
  destruct (Qlt_bool _ _); [exact Hb|]. simpl.
  apply map_lookup_filter_Some. split; [exact Hb|]. simpl.
  now apply Qlt_bool_false.
Qed.

(** What [is_allowed] does to the dictionary: the sweep, then at most one
    entry written, under the key of the call. *)
Lemma is_allowed_buckets cfg rl client_id endpoint n now :
  buckets (snd (is_allowed cfg rl client_id endpoint n now))
    = buckets (_cleanup_old_buckets rl now) \/
  exists b, buckets (snd (is_allowed cfg rl client_id endpoint n now))
            = <[_get_bucket_key client_id endpoint := b]>
                (buckets (_cleanup_old_buckets rl now)).
Proof.
  unfold is_allowed.
  destruct (buckets (_cleanup_old_buckets rl now) !! _) as [b|].
  - destruct (consume b n now) as [[|] b']; simpl; [eauto|].
    destruct (get_retry_after b'); simpl; eauto.
  - destruct (rate_limit_window cfg =? 0)%Z; [now left|].
    destruct (consume _ n now) as [[|] b']; simpl; [eauto|].
    destruct (get_retry_after b'); simpl; eauto.
Qed.

Lemma is_allowed_cleanup_interval cfg rl client_id endpoint n now :
  cleanup_interval (snd (is_allowed cfg rl client_id endpoint n now))
  = cleanup_interval rl.
Proof.
  unfold is_allowed.
  destruct (buckets (_cleanup_old_buckets rl now) !! _) as [b|].
  - destruct (consume b n now) as [[|] b']; simpl;
      [apply cleanup_interval_cleanup|].
    destruct (get_retry_after b'); simpl; apply cleanup_interval_cleanup.
  - destruct (rate_limit_window cfg =? 0)%Z; [apply cleanup_interval_cleanup|].
    destruct (consume _ n now) as [[|] b']; simpl;
      [apply cleanup_interval_cleanup|].
    destruct (get_retry_after b'); simpl; apply cleanup_interval_cleanup.
Qed.

Lemma bucket_of_ok cfg rl key now now' :
  (0 <= rate_limit_requests cfg)%Z ->
  limiter_ok cfg rl now -> now <= now' ->
  capacity (bucket_of cfg rl key now') = rate_limit_requests cfg /\
  refill_rate (bucket_of cfg rl key now') = configured_rate cfg /\
  bucket_inv (bucket_of cfg rl key now') /\
  last_refill (bucket_of cfg rl key now') <= now'.
Proof.
  intros Hr [_ Hok] Hle. unfold bucket_of.
  destruct (buckets (_cleanup_old_buckets rl now') !! key) as [b|] eqn:E.
  - apply cleanup_lookup in E. destruct (Hok _ _ E) as (H1 & H2 & H3 & H4).
    repeat split; try assumption; try apply H3. lra.
  - pose proof (inject_Z_nonneg _ Hr).
    unfold bucket_inv. simpl. repeat split; lra.
Qed.

Lemma limiter_ok_init cfg now : limiter_ok cfg (RateLimiter_init now) now.
Proof.
  split; [simpl; lra|]. intros key b H. simpl in H.
  rewrite lookup_empty in H. discriminate.
Qed.

Lemma limiter_ok_step cfg rl client_id endpoint n now now' :
  (0 <= rate_limit_requests cfg)%Z ->
  (0 < rate_limit_window cfg)%Z ->
  (0 <= n)%Z ->
  now <= now' ->
  limiter_ok cfg rl now ->
  limiter_ok cfg (snd (is_allowed cfg rl client_id endpoint n now')) now'.
Proof.
  intros Hr Hw Hn Hle Hok.
  assert (Hw0 : rate_limit_window cfg <> 0%Z) by lia.
  pose proof (configured_rate_nonneg cfg Hr Hw) as Hrate.
  split; [rewrite is_allowed_cleanup_interval; apply Hok|].
  rewrite (is_allowed_eq _ _ _ _ _ _ Hw0). unfold set_buckets. simpl.
  intros key b.
  destruct (decide (_get_bucket_key client_id endpoint = key)) as [<-|Hne].
  - rewrite lookup_insert_eq. intros [= <-].
    destruct (bucket_of_ok cfg rl (_get_bucket_key client_id endpoint) now now'
                Hr Hok Hle) as (Hc & Hrt & Hinv & Hlast).
    destruct (consume_fields
                (bucket_of cfg rl (_get_bucket_key client_id endpoint) now') n now')
      as (-> & -> & ->).
    repeat split; try assumption; try lra;
      apply consume_inv_step; try assumption;
      rewrite Hrt; apply Qmult_le_0_compat; lra.
  - rewrite lookup_insert_ne by exact Hne. intros H.
    apply cleanup_lookup in H. destruct Hok as [_ Hok].
    destruct (Hok _ _ H) as (H1 & H2 & H3 & H4).
    repeat split; try assumption; try apply H3. lra.
Qed.

(** X1. After any history of [is_allowed] calls on a new limiter, with
    non-negative costs and a clock that does not run backwards, every
    stored bucket has the configured capacity and rate and a balance in
    [0, capacity], whatever the keys, the sweeps and the denials. *)
Theorem limiter_history_invariant (cfg : Settings) (t0 : Q)
    (calls : list (string * option string * Z * Q)) :
  (0 <= rate_limit_requests cfg)%Z ->
  (0 < rate_limit_window cfg)%Z ->
  history_ok t0 calls ->
  forall key b,
    buckets (run_limiter cfg (RateLimiter_init t0) calls) !! key = Some b ->
    capacity b = rate_limit_requests cfg /\
    refill_rate b = configured_rate cfg /\
    0 <= tokens b /\ tokens b <= inject_Z (rate_limit_requests cfg) /\
    last_refill b <= last_time t0 calls.
Proof.
  intros Hr Hw Hhist.
  assert (Hgen : forall calls rl t, limiter_ok cfg rl t -> history_ok t calls ->
                 limiter_ok cfg (run_limiter cfg rl calls) (last_time t calls)).
  { clear calls Hhist. induction calls as [|[[[c e] n] now] rest IH];
      intros rl t Hok Hh; simpl; [exact Hok|].
    destruct Hh as (Hn & Hle & Hrest).
    apply IH; [|exact Hrest]. now apply (limiter_ok_step cfg rl c e n t now). }
  destruct (Hgen calls _ _ (limiter_ok_init cfg t0) Hhist) as [_ Hok].
  intros key b Hb. destruct (Hok _ _ Hb) as (Hc & Hrt & [H0 Hcap] & Hl).
  rewrite Hc in Hcap. auto.
Qed.

Lemma limiter_history_invariant_witness :
  match buckets (run_limiter (scenario_settings false) (RateLimiter_init 0)
                   [("c1", Some "summarize", 1%Z, 0); ("c2", None, 3%Z, 1);
                    ("c1", Some "summarize", 9%Z, 4000)]) !! "c1:summarize" with
  | Some b => 0 <= tokens b /\ tokens b <= 5
  | None => False
  end.
Proof.
  destruct (buckets _ !! "c1:summarize") as [b|] eqn:Hb.
  - destruct (limiter_history_invariant (scenario_settings false) 0
                [("c1", Some "summarize", 1%Z, 0); ("c2", None, 3%Z, 1);
                 ("c1", Some "summarize", 9%Z, 4000)]) with (key := "c1:summarize") (b := b)
      as (_ & _ & H0 & Hc & _);
      [simpl; lia | simpl; lia | simpl; repeat split; try lia; qclosed | exact Hb |].
    split; [exact H0 | exact Hc].
  - vm_compute in Hb. discriminate Hb.
Defined.

(** X2. A call for one client leaves the buckets of the others alone: a
    bucket under another key that was used within the last hour is there
    unchanged after the call, and no bucket appears or changes under
    another key. *)
Theorem is_allowed_leaves_other_keys (cfg : Settings) (rl : RateLimiter)
    (client_id : string) (endpoint : option string) (n : Z) (now : Q)
    (key : string) :
  _get_bucket_key client_id endpoint <> key ->
  (forall b, buckets rl !! key = Some b -> now - 3600 <= last_refill b ->
     buckets (snd (is_allowed cfg rl client_id endpoint n now)) !! key = Some b) /\
  (forall b, buckets (snd (is_allowed cfg rl client_id endpoint n now)) !! key = Some b ->
     buckets rl !! key = Some b).
Proof.
  intros Hne.
  assert (Hsame : buckets (snd (is_allowed cfg rl client_id endpoint n now)) !! key
                  = buckets (_cleanup_old_buckets rl now) !! key).
  { destruct (is_allowed_buckets cfg rl client_id endpoint n now) as [->|[b ->]];
      [reflexivity|]. now rewrite lookup_insert_ne. }
  rewrite Hsame. split.
  - intros b Hb Hrecent. now apply cleanup_lookup_recent.
  - intros b. apply cleanup_lookup.
Qed.

Lemma is_allowed_leaves_other_keys_witness :
  buckets (snd (is_allowed (scenario_settings false)
                  (snd (is_allowed (scenario_settings false) (RateLimiter_init 0)
                          "c1" None 2 0))
                  "c2" None 1 10)) !! "c1"
  = Some {| capacity := 5; refill_rate := inject_Z 5 / inject_Z 10;
            tokens := py_min (inject_Z 5) (inject_Z 5 + (0 - 0) * (inject_Z 5 / inject_Z 10))
                      - inject_Z 2;
            last_refill := 0 |}.
Proof.
  destruct (is_allowed_leaves_other_keys (scenario_settings false)
              (snd (is_allowed (scenario_settings false) (RateLimiter_init 0)
                      "c1" None 2 0))
              "c2" None 1 10 "c1") as [Hkeep _]; [discriminate|].
  apply Hkeep; [reflexivity | simpl; qclosed].
Defined.

(** ** Sweeping idle buckets *)

Lemma consume_unfold b n now :
  consume b n now =
  if Qle_bool (inject_Z n) (refilled_balance b now) then
    (true, {| capacity := capacity b; refill_rate := refill_rate b;
              tokens := refilled_balance b now - inject_Z n; last_refill := now |})
  else
    (false, {| capacity := capacity b; refill_rate := refill_rate b;
               tokens := refilled_balance b now; last_refill := now |}).
Proof. reflexivity. Qed.

Lemma configured_rate_window cfg :
  (0 < rate_limit_window cfg)%Z ->
  inject_Z (rate_limit_window cfg) * configured_rate cfg
  == inject_Z (rate_limit_requests cfg).
Proof.
  intros Hw. unfold configured_rate.
  assert (0 < inject_Z (rate_limit_window cfg)).
  { change 0 with (inject_Z 0). now rewrite <- Zlt_Qlt. }
  field. lra.
Qed.

Lemma refilled_balance_new cfg now :
  refilled_balance
    (TokenBucket_init (rate_limit_requests cfg) (configured_rate cfg) now) now
  = inject_Z (rate_limit_requests cfg).
Proof.
  unfold refilled_balance. simpl.
  destruct (py_min_cases (inject_Z (rate_limit_requests cfg))
              (inject_Z (rate_limit_requests cfg)
               + (now - now) * configured_rate cfg)) as [[H _]|[_ ->]];
    [lra | reflexivity].
Qed.

Lemma refilled_balance_idle cfg b now :
  (0 <= rate_limit_requests cfg)%Z ->
  (0 < rate_limit_window cfg <= 3600)%Z ->
  capacity b = rate_limit_requests cfg ->
  refill_rate b = configured_rate cfg ->
  bucket_inv b ->
  last_refill b < now - 3600 ->
  refilled_balance b now = inject_Z (rate_limit_requests cfg).
Proof.
  intros Hr [Hw Hw'] Hc Hrt [H0 _] Hidle.
  pose proof (configured_rate_nonneg cfg Hr Hw) as Hrate.
  pose proof (configured_rate_window cfg Hw) as Hprod.
  assert (Hwq : inject_Z (rate_limit_window cfg) <= 3600).
  { change 3600 with (inject_Z 3600). now rewrite <- Zle_Qle. }
  assert (Hmul : inject_Z (rate_limit_window cfg) * configured_rate cfg
                 <= (now - last_refill b) * configured_rate cfg).
  { apply Qmult_le_compat_r; lra. }
  unfold refilled_balance. rewrite Hc, Hrt.
  destruct (py_min_cases (inject_Z (rate_limit_requests cfg))
              (tokens b + (now - last_refill b) * configured_rate cfg))
    as [[H _]|[_ ->]]; [lra | reflexivity].
Qed.

Lemma cleanup_forget rl key now :
  _cleanup_old_buckets (forget_bucket rl key) now
  = forget_bucket (_cleanup_old_buckets rl now) key.
Proof.
  unfold _cleanup_old_buckets, forget_bucket, set_buckets. simpl.
  destruct (Qlt_bool _ _); [reflexivity|]. simpl.
  now rewrite map_filter_delete.
Qed.

(** X3. With a window of at most one hour, the sweep of idle buckets
    cannot be observed: a bucket idle for more than an hour would refill
    to full, so a limiter that has forgotten the bucket answers a call
    for its key, and is left, exactly as the one that kept it. *)
Theorem forgetting_idle_bucket_is_unobservable (cfg : Settings) (rl : RateLimiter)
    (client_id : string) (endpoint : option string) (n : Z) (now : Q)
    (b : TokenBucket) :
  (0 <= rate_limit_requests cfg)%Z ->
  (0 < rate_limit_window cfg <= 3600)%Z ->
  buckets rl !! _get_bucket_key client_id endpoint = Some b ->
  capacity b = rate_limit_requests cfg ->
  refill_rate b = configured_rate cfg ->
  bucket_inv b ->
  last_refill b < now - 3600 ->
  is_allowed cfg (forget_bucket rl (_get_bucket_key client_id endpoint))
    client_id endpoint n now
  = is_allowed cfg rl client_id endpoint n now.
Proof.
  intros Hr Hw Hb Hc Hrt Hinv Hidle.
  assert (Hw0 : rate_limit_window cfg <> 0%Z) by lia.
  set (key := _get_bucket_key client_id endpoint) in *.
  rewrite !(is_allowed_eq _ _ _ _ _ _ Hw0). fold key.
  assert (Hnew : consume (bucket_of cfg (forget_bucket rl key) key now) n now
                 = consume (TokenBucket_init (rate_limit_requests cfg)
                              (configured_rate cfg) now) n now).
  { unfold bucket_of. rewrite cleanup_forget. unfold forget_bucket. simpl.
    now rewrite lookup_delete_eq. }
  assert (Hold : consume (bucket_of cfg rl key now) n now
                 = consume (TokenBucket_init (rate_limit_requests cfg)
                              (configured_rate cfg) now) n now).
  { unfold bucket_of.
    destruct (buckets (_cleanup_old_buckets rl now) !! key) as [b'|] eqn:E;
      [|reflexivity].
    apply cleanup_lookup in E. rewrite Hb in E. injection E as <-.
    rewrite !consume_unfold.
    rewrite (refilled_balance_idle cfg b now Hr Hw Hc Hrt Hinv Hidle).
    rewrite refilled_balance_new. simpl. now rewrite Hc, Hrt. }
  rewrite Hnew, Hold. f_equal.
  rewrite cleanup_forget. unfold forget_bucket, set_buckets. simpl.
  now rewrite insert_delete_eq.
Qed.

Lemma forgetting_idle_bucket_is_unobservable_witness :
  is_allowed default_settings
    (forget_bucket
       {| buckets := {[ "c1" := {| capacity := 60; refill_rate := configured_rate default_settings;
                                   tokens := 0; last_refill := 0 |} ]};
          cleanup_interval := 300; last_cleanup := 3500 |} "c1")
    "c1" None 1 3601
  = is_allowed default_settings
      {| buckets := {[ "c1" := {| capacity := 60; refill_rate := configured_rate default_settings;
                                  tokens := 0; last_refill := 0 |} ]};
         cleanup_interval := 300; last_cleanup := 3500 |}
      "c1" None 1 3601.
Proof.
  apply (forgetting_idle_bucket_is_unobservable default_settings _ "c1" None 1 3601
           {| capacity := 60; refill_rate := configured_rate default_settings;
              tokens := 0; last_refill := 0 |});
    [simpl; lia | simpl; lia | reflexivity | reflexivity | reflexivity
    | split; simpl; qclosed | simpl; qclosed].
Defined.

(** With a window longer than an hour the sweep is observable: a drained
    bucket idle for 3601 seconds has refilled to 3.6 tokens of 10, a
    forgotten one starts full, and a request for 5 tokens passes only on
    the latter. *)
Example sweep_observable_with_long_window :
  let cfg := {| fireworks_api_key := None; use_redis := false; cache_ttl := 86400;
                rate_limit_requests := 10; rate_limit_window := 10000 |} in
  let rl := {| buckets := {[ "c1" := {| capacity := 10; refill_rate := configured_rate cfg;
                                        tokens := 0; last_refill := 0 |} ]};
               cleanup_interval := 300; last_cleanup := 3500 |} in
  fst (is_allowed cfg rl "c1" None 5 3601) = Ok (false, 0) /\
  fst (is_allowed cfg (forget_bucket rl "c1") "c1" None 5 3601) = Ok (true, 0).
Proof. vm_compute. split; reflexivity. Qed.

(** ** The status read and the retry hint *)


Lemma limiter_ok_wf cfg rl now : limiter_ok cfg rl now -> limiter_wf cfg rl.
Proof. intros [_ H] key b Hb. now destruct (H _ _ Hb) as (_ & ? & _). Qed.

Lemma unit_request_granted cfg rl client_id endpoint now now' :
  (1 <= rate_limit_requests cfg)%Z ->
  (0 < rate_limit_window cfg)%Z ->
  limiter_ok cfg rl now -> now <= now' ->
  (forall b, buckets rl !! _get_bucket_key client_id endpoint = Some b ->
     fst (consume b 1 now') = true) ->
  fst (is_allowed cfg rl client_id endpoint 1 now') = Ok (true, 0).
Proof.
  intros Hr Hw Hok Hle Hb.
  apply is_allowed_answer; [lia | exact Hw | exact (limiter_ok_wf _ _ _ Hok)|].
  unfold bucket_of.
  destruct (buckets (_cleanup_old_buckets rl now') !! _) as [b|] eqn:E.
  - apply cleanup_lookup in E. apply consume_grants_iff. now apply Hb.
  - fold (configured_rate cfg). rewrite refilled_balance_new.
    rewrite <- Zle_Qle. exact Hr.
Qed.



(** The status is stale: two seconds after the bucket was drained it still
    says "not allowed", though a unit request is granted. *)
Example get_status_is_stale :
  let rl := snd (is_allowed (scenario_settings false) (RateLimiter_init 0)
                   "c1" None 5 0) in
  st_allowed (get_status (scenario_settings false) rl "c1" None 2) = false /\
  fst (is_allowed (scenario_settings false) rl "c1" None 1 2) = Ok (true, 0).
Proof. vm_compute. split; reflexivity. Qed.

(** X5. The retry hint, with a second to spare, is enough for unit
    requests: with a window of at most one hour, when [is_allowed] denies a
    unit request with [(false, retry_after)], the same request made at
    least [retry_after + 1] seconds later is granted.  (The second covers
    the rounding of the program's floating point, in which the refill over
    exactly [retry_after] seconds can fall short of the token by one unit
    in the last place.) *)
Theorem retry_after_hint_is_enough (cfg : Settings) (rl : RateLimiter)
    (client_id : string) (endpoint : option string) (now retry_after later : Q) :
  (1 <= rate_limit_requests cfg)%Z ->
  (0 < rate_limit_window cfg <= 3600)%Z ->
  limiter_ok cfg rl now ->
  fst (is_allowed cfg rl client_id endpoint 1 now) = Ok (false, retry_after) ->
  now + retry_after + 1 <= later ->
  0 < retry_after /\
  fst (is_allowed cfg (snd (is_allowed cfg rl client_id endpoint 1 now))
         client_id endpoint 1 later) = Ok (true, 0).
Proof.
  intros Hr [Hw _] Hok Hden Hlater.
  assert (Hw0 : rate_limit_window cfg <> 0%Z) by lia.
  assert (Hr0 : (0 <= rate_limit_requests cfg)%Z) by lia.
  assert (Hpos : 0 < configured_rate cfg) by (apply configured_rate_pos; lia).
  pose proof (limiter_ok_step cfg rl client_id endpoint 1 now now Hr0 Hw
                ltac:(lia) ltac:(lra) Hok) as Hok'.
  set (key := _get_bucket_key client_id endpoint) in *.
  destruct (bucket_of_ok cfg rl key now now Hr0 Hok ltac:(lra))
    as (Hc & Hrt & Hinv & Hl).
  revert Hden Hok'. rewrite (is_allowed_eq _ _ _ _ _ _ Hw0). fold key. simpl.
  set (b := bucket_of cfg rl key now) in *.
  destruct (fst (consume b 1 now)) eqn:E; [discriminate|].
  destruct (consume_denied _ _ _ E) as [Hshort Eb]. rewrite Eb.
  change (inject_Z 1) with 1 in Hshort.
  rewrite get_retry_after_waiting; simpl; [|exact Hshort | rewrite Hrt; lra].
  intros [= <-] Hok'.
  assert (Hr1 : 0 < (1 - refilled_balance b now) / refill_rate b).
  { apply Qdiv_pos; [rewrite Hrt; exact Hpos | lra]. }
  split; [exact Hr1|].
  apply (unit_request_granted cfg _ client_id endpoint now later Hr Hw Hok');
    [lra|].
  fold key. unfold set_buckets. simpl. rewrite lookup_insert_eq.
  intros b' [= <-].
  apply retry_after_is_enough; simpl.
  - rewrite Hrt. exact Hpos.
  - rewrite Hc. exact Hr.
  - lra.
Qed.

Lemma retry_after_hint_is_enough_witness :
  fst (is_allowed (scenario_settings false)
         (snd (is_allowed (scenario_settings false)
                 (snd (is_allowed (scenario_settings false) (RateLimiter_init 0)
                         "c1" None 5 0))
                 "c1" None 1 0))
         "c1" None 1 3) = Ok (true, 0).
Proof.
  destruct (retry_after_hint_is_enough (scenario_settings false)
              (snd (is_allowed (scenario_settings false) (RateLimiter_init 0)
                      "c1" None 5 0))
              "c1" None 0 (100 # 50) 3) as [_ H];
    [simpl; lia | simpl; lia | | vm_compute; reflexivity | qclosed | exact H].
  apply (limiter_ok_step (scenario_settings false) (RateLimiter_init 0)
           "c1" None 5 0 0); [simpl; lia | simpl; lia | lia | lra |].
  apply limiter_ok_init.
Defined.

(** For a request of more than one token the hint is the time to one
    token only: a request for 2 denied with a hint of 2 seconds is denied
    again 2 seconds later. *)
Example retry_after_hint_counts_one_token :
  let rl := snd (is_allowed (scenario_settings false) (RateLimiter_init 0)
                   "c1" None 5 0) in
  fst (is_allowed (scenario_settings false) rl "c1" None 2 0)
    = Ok (false, 100 # 50) /\
  fst (is_allowed (scenario_settings false)
         (snd (is_allowed (scenario_settings false) rl "c1" None 2 0))
         "c1" None 2 2) = Ok (false, 0).
Proof. vm_compute. split; reflexivity. Qed.

(** ** Bucket keys *)

Lemma get_bucket_key_endpoint_name client_id endpoint :
  _get_bucket_key client_id endpoint
  = match endpoint_name endpoint with
    | Some e => client_id ++ ":" ++ e
    | None => client_id
    end.
Proof.
  destruct endpoint as [e|]; [|reflexivity]. simpl.
  now destruct (String.eqb e "").
Qed.

(** X6. For client ids without [":"] (as IPv4 addresses are), two calls
    share a bucket exactly when they have the same client id and the same
    endpoint, an absent endpoint and the empty one counting as the same. *)
Theorem bucket_key_injective (client_id client_id' : string)
    (endpoint endpoint' : option string) :
  no_colon client_id = true ->
  no_colon client_id' = true ->
  (_get_bucket_key client_id endpoint = _get_bucket_key client_id' endpoint' <->
   client_id = client_id' /\ endpoint_name endpoint = endpoint_name endpoint').
Proof.
  intros Hc Hc'. rewrite !get_bucket_key_endpoint_name. split.
  - destruct (endpoint_name endpoint) as [e|], (endpoint_name endpoint') as [e'|];
      intros H.
    + destruct (split_first_colon _ _ _ _ Hc Hc' H) as [-> ->]. auto.
    + rewrite <- H in Hc'. change (":" ++ e) with (String ":" e) in Hc'.
      rewrite no_colon_append in Hc'. discriminate.
    + rewrite H in Hc. change (":" ++ e') with (String ":" e') in Hc.
      rewrite no_colon_append in Hc. discriminate.
    + auto.
  - intros [-> ->]. reflexivity.
Qed.

Lemma bucket_key_injective_witness :
  _get_bucket_key "10.0.0.1" (Some "summarize")
  <> _get_bucket_key "10.0.0.1" (Some "context").
Proof.
  intros H.
  apply (bucket_key_injective "10.0.0.1" "10.0.0.1"
           (Some "summarize") (Some "context") eq_refl eq_refl) in H.
  destruct H as [_ H]. discriminate H.
Defined.

(** With [":"] inside a client id the boundary is lost: an IPv6-style
    client without endpoint shares the bucket of another client's endpoint. *)
Example bucket_key_shared_across_clients :
  _get_bucket_key "fe80::1" None = _get_bucket_key "fe80:" (Some "1").
Proof. reflexivity. Qed.

(** ** The distributed limiter: decisions and hints *)

Lemma zfirst_min_list (l : list (string * Q)) (k : string) (s : Q) :
  fold_right
    (fun kv best =>
       match best with
       | Some b => if zless kv b then Some kv else Some b
       | None => Some kv
       end) None l = Some (k, s) ->
  In (k, s) l /\ forall k' s', In (k', s') l -> s <= s'.
Proof.
  revert k s. induction l as [|[k0 s0] l IH]; intros k s; simpl; [discriminate|].
  destruct (fold_right _ None l) as [[kb sb]|] eqn:E.
  - destruct (IH kb sb eq_refl) as [Hin Hmin].
    destruct (zless (k0, s0) (kb, sb)) eqn:Hless; intros [= <- <-].
    + split; [now left|]. intros k' s' [[= <- <-]|H']; [lra|].
      specialize (Hmin _ _ H'). unfold zless in Hless. simpl in Hless.
      apply orb_true_iff in Hless as [Hlt|Heq].
      * apply Qlt_bool_true in Hlt. lra.
      * apply andb_true_iff in Heq as [Heq _]. apply Qeq_bool_iff in Heq. lra.
    + split; [now right|]. intros k' s' [[= <- <-]|H']; [|now apply (Hmin k')].
      unfold zless in Hless. simpl in Hless.
      apply orb_false_iff in Hless as [Hlt _].
      apply Qlt_bool_false in Hlt. exact Hlt.
  - intros [= <- <-]. split; [now left|].
    intros k' s' [[= <- <-]|H']; [lra|].
    destruct l as [|x l]; [contradiction|]. simpl in E.
    destruct (fold_right _ None l) as [b|]; [destruct (zless x b)|]; discriminate.
Qed.

Lemma zfirst_min (ms : gmap string Q) (k : string) (s : Q) :
  zfirst ms = Some (k, s) ->
  ms !! k = Some s /\ forall k' s', ms !! k' = Some s' -> s <= s'.
Proof.
  unfold zfirst. intros H. destruct (zfirst_min_list _ _ _ H) as [Hin Hmin].
  split.
  - apply elem_of_map_to_list. now apply list_elem_of_In.
  - intros k' s' H'. apply (Hmin k').
    apply list_elem_of_In. now apply elem_of_map_to_list.
Qed.

Section DistributedDecisions.

Variable str_float : Q -> string.

Lemma pipeline_execute_reply net db key window_start now window :
  execute_error net = None ->
  exists r0 r2 r3,
    fst (pipeline_execute str_float net db key window_start now window)
    = Ok (r0,
          Z.of_nat (size (redis_members
                            (snd (zremrangebyscore (redis_purge db key now) key 0
                                    window_start)) key)),
          r2, r3).
Proof.
  intros Hnet. unfold pipeline_execute. rewrite Hnet.
  destruct (zremrangebyscore (redis_purge db key now) key 0 window_start)
    as [r0 db1].
  destruct (zadd db1 key (str_float now) now) as [r2 db2].
  destruct (expire db2 key window now) as [r3 db3].
  exists r0, r2, r3. reflexivity.
Qed.

(** X7. With the store reachable and a positive window, the distributed
    limiter admits a request exactly when fewer than [rate_limit_requests]
    requests, admitted or denied, are recorded in the window before it;
    and a denial carries a retry hint between 0 and the window length. *)
Theorem redis_decision_and_hint (cfg : Settings)
    (db : gmap string ZSetKey) (client_id : string) (endpoint : option string)
    (now : Q) :
  (0 < rate_limit_window cfg)%Z ->
  (fst (fst (redis_is_allowed str_float cfg network_up db client_id endpoint now))
     = true <->
   (Z.of_nat (size (window_members db (redis_key client_id endpoint)
                      (inject_Z (rate_limit_window cfg)) now))
      < rate_limit_requests cfg)%Z) /\
  (fst (fst (redis_is_allowed str_float cfg network_up db client_id endpoint now))
     = true ->
   snd (fst (redis_is_allowed str_float cfg network_up db client_id endpoint now))
     = 0) /\
  (fst (fst (redis_is_allowed str_float cfg network_up db client_id endpoint now))
     = false ->
   0 <= snd (fst (redis_is_allowed str_float cfg network_up db client_id
                    endpoint now))
     <= inject_Z (rate_limit_window cfg)).
Proof.
  intros Hw.
  assert (Hwq : 0 < inject_Z (rate_limit_window cfg)).
  { change 0 with (inject_Z 0). now rewrite <- Zlt_Qlt. }
  pose proof (pipeline_execute_state str_float network_up db
                (redis_key client_id endpoint)
                (now - inject_Z (rate_limit_window cfg)) now _ eq_refl Hwq) as Hst.
  destruct (pipeline_execute_reply network_up db (redis_key client_id endpoint)
              (now - inject_Z (rate_limit_window cfg)) now
              (inject_Z (rate_limit_window cfg)) eq_refl)
    as (r0 & r2 & r3 & Hrep).
  unfold redis_is_allowed, redis_is_allowed_try, window_members.
  destruct (pipeline_execute str_float network_up db _ _ now _) as [res db'].
  cbn [fst snd] in Hrep, Hst. subst res.
  set (count := Z.of_nat (size _)).
  destruct (count <? rate_limit_requests cfg)%Z eqn:Hcount.
  - apply Z.ltb_lt in Hcount. cbn [fst snd].
    split; [tauto|]. split; [reflexivity | discriminate].
  - apply Z.ltb_ge in Hcount.
    assert (Hlive : redis_purge db' (redis_key client_id endpoint) now = db').
    { unfold redis_purge. rewrite Hst. unfold zexpired. cbn [zexpire].
      assert (E : Qle_bool (now + inject_Z (rate_limit_window cfg)) now = false)
        by (apply Qle_bool_false; lra).
      now rewrite E. }
    unfold zrange_call. cbn [zrange_error network_up].
    rewrite Hlive. unfold zrange_first, redis_members. rewrite Hst.
    cbn [zmembers].
    destruct (zfirst _) as [[k s]|] eqn:Ef; cbn [fst snd].
    + destruct (zfirst_min _ _ _ Ef) as [_ Hmin].
      specialize (Hmin (str_float now) now (lookup_insert_eq _ _ _)).
      split; [split; [discriminate | lia]|]. split; [discriminate|]. intros _.
      unfold py_max. destruct (Qlt_bool 0 _) eqn:Hp.
      * apply Qlt_bool_true in Hp. lra.
      * lra.
    + split; [split; [discriminate | lia]|]. split; [discriminate|]. intros _. lra.
Qed.

End DistributedDecisions.

Lemma redis_decision_and_hint_witness :
  fst (fst (redis_is_allowed fraction_name strict_settings network_up ∅
              "c1" None 0)) = true.
Proof.
  destruct (redis_decision_and_hint fraction_name strict_settings ∅ "c1" None 0)
    as [Hiff _]; [reflexivity|].
  apply Hiff. vm_compute. reflexivity.
Defined.

(** ** The cache backends *)



Lemma cleanup_expired_lookup table now key row :
  snd (SQLiteCache_cleanup_expired None table now) !! key = Some row <->
  table !! key = Some row /\ now < expires_at row.
Proof.
  unfold SQLiteCache_cleanup_expired. cbn [snd].
  rewrite map_lookup_filter_Some. simpl. now rewrite Qle_bool_false.
Qed.

(** X9. [cleanup_expired] removes exactly the rows whose time has come:
    the rows left are those of the table that are still live; no read at
    that time or later changes; the number returned is the number of rows
    removed; and a second sweep at the same time removes nothing. *)
Theorem cleanup_expired_law (table : gmap string CacheRow) (now : Q) :
  (forall key row,
     snd (SQLiteCache_cleanup_expired None table now) !! key = Some row <->
     table !! key = Some row /\ now < expires_at row) /\
  (forall io key t, now <= t ->
     SQLiteCache_get io (snd (SQLiteCache_cleanup_expired None table now)) key t
     = SQLiteCache_get io table key t) /\
  (0 <= fst (SQLiteCache_cleanup_expired None table now))%Z /\
  (Z.of_nat (size (snd (SQLiteCache_cleanup_expired None table now)))
   = Z.of_nat (size table) - fst (SQLiteCache_cleanup_expired None table now))%Z /\
  SQLiteCache_cleanup_expired None
    (snd (SQLiteCache_cleanup_expired None table now)) now
  = (0%Z, snd (SQLiteCache_cleanup_expired None table now)).
Proof.
  split; [intros key row; apply cleanup_expired_lookup|].
  split; [|split; [|split]].
  - intros io key t Ht. unfold SQLiteCache_get. destruct io; [reflexivity|].
    destruct (snd (SQLiteCache_cleanup_expired None table now) !! key)
      as [row|] eqn:E.
    + apply cleanup_expired_lookup in E as [-> _]. reflexivity.
    + destruct (table !! key) as [row|] eqn:Hrow; [|reflexivity].
      destruct (Qlt_bool t (expires_at row)) eqn:Hlive; [|reflexivity].
      apply Qlt_bool_true in Hlive.
      assert (Hin : snd (SQLiteCache_cleanup_expired None table now) !! key
                    = Some row).
      { apply cleanup_expired_lookup. split; [exact Hrow | lra]. }
      congruence.
  - unfold SQLiteCache_cleanup_expired. cbn [fst].
    pose proof (map_subseteq_size
                  (filter (fun kr : string * CacheRow =>
                             Qle_bool (expires_at (snd kr)) now = false) table)
                  table (map_filter_subseteq _ _)).
    lia.
  - unfold SQLiteCache_cleanup_expired. cbn [fst snd]. lia.
  - unfold SQLiteCache_cleanup_expired at 1. cbn [snd].
    set (kept := snd (SQLiteCache_cleanup_expired None table now)).
    assert (Hid : filter (fun kr : string * CacheRow =>
                            Qle_bool (expires_at (snd kr)) now = false) kept = kept).
    { apply map_eq. intros key. apply option_eq. intros row.
      rewrite map_lookup_filter_Some. unfold kept.
      rewrite cleanup_expired_lookup. simpl. rewrite Qle_bool_false. tauto. }
    rewrite Hid. f_equal. lia.
Qed.

(** The sweep at work: one expired row of two. *)
Example cleanup_expired_counts :
  let table :=
    snd (SQLiteCache_set default_settings None
           (snd (SQLiteCache_set default_settings None ∅ "a" (JStr "1") (Some 10%Z) 0))
           "b" (JStr "2") (Some 100%Z) 0) in
  fst (SQLiteCache_cleanup_expired None table 10) = 1%Z /\
  SQLiteCache_get None (snd (SQLiteCache_cleanup_expired None table 10)) "b" 10
  = Some (JStr "2").
Proof. vm_compute. split; reflexivity. Qed.



(** *** The two backends side by side *)




(** Where the backends part: a negative lifetime is written (and never
    read) by the local backend and refused by the remote one. *)
Example backends_differ_on_negative_ttl :
  fst (SQLiteCache_set default_settings None ∅ "k" JNull (Some (-5)%Z) 0) = true /\
  fst (RedisCache_set default_settings None ∅ "k" JNull (Some (-5)%Z) 0) = false.
Proof. split; reflexivity. Qed.

(** ** The cache manager *)



(** X13. [create_cache_manager] absorbs a failure of the remote store but
    not one of the local database: it raises exactly when the local
    backend is the one to use (not configured remote, or remote
    unreachable) and its initialisation fails. *)
Theorem create_cache_manager_law (cfg : Settings) (redis_probe sqlite_init : option exn) :
  (create_cache_manager cfg redis_probe sqlite_init = Ok RemoteBackend <->
   use_redis cfg = true /\ redis_probe = None) /\
  (create_cache_manager cfg redis_probe sqlite_init = Ok LocalBackend <->
   (use_redis cfg = false \/ redis_probe <> None) /\ sqlite_init = None) /\
  (forall e, create_cache_manager cfg redis_probe sqlite_init = Raise e <->
   (use_redis cfg = false \/ redis_probe <> None) /\ sqlite_init = Some e).
Proof.
  unfold create_cache_manager.
  destruct (use_redis cfg), redis_probe as [e1|], sqlite_init as [e2|];
    (split; [|split; [|intros e']]);
    intuition (try discriminate; try congruence).
Qed.

(** ** More on strings *)

Lemma lstrip_fixed (s : string) : lstrip (lstrip s) = lstrip s.
Proof.
  induction s as [|c s IH]; [reflexivity|]. simpl.
  destruct (py_isspace c) eqn:E; [exact IH|]. simpl. now rewrite E.
Qed.

Lemma rstrip_fixed (s : string) : rstrip (rstrip s) = rstrip s.
Proof.
  induction s as [|c s IH]; [reflexivity|]. simpl.
  destruct (py_isspace c && (rstrip s =? ""))%string eqn:E; [reflexivity|].
  simpl. rewrite IH. now rewrite E.
Qed.

Lemma lstrip_rstrip (s : string) : lstrip s = s -> lstrip (rstrip s) = rstrip s.
Proof.
  destruct s as [|c s]; [reflexivity|]. simpl.
  destruct (py_isspace c) eqn:E.
  - intros H. exfalso.
    assert (Hlen : forall x, (String.length (lstrip x) <= String.length x)%nat).
    { clear. induction x as [|d x IH]; simpl; [lia|].
      destruct (py_isspace d); simpl; lia. }
    specialize (Hlen s). rewrite H in Hlen. simpl in Hlen. lia.
  - intros _. simpl. now rewrite E.
Qed.

Lemma strip_fixed (s : string) : strip (strip s) = strip s.
Proof.
  unfold strip.
  rewrite (lstrip_rstrip (lstrip s) (lstrip_fixed s)). apply rstrip_fixed.
Qed.

Lemma all_chars_append p (a b : string) :
  all_chars p (a ++ b) = all_chars p a && all_chars p b.
Proof.
  induction a as [|c a IH]; [reflexivity|].
  rewrite append_cons. simpl. now rewrite IH, andb_assoc.
Qed.

Lemma all_chars_lstrip p (s : string) :
  all_chars p s = true -> all_chars p (lstrip s) = true.
Proof.
  induction s as [|c s IH]; [reflexivity|]. simpl.
  intros H. apply andb_true_iff in H as [Hc Hs].
  destruct (py_isspace c); [now apply IH|]. simpl. now rewrite Hc, Hs.
Qed.

Lemma all_chars_rstrip p (s : string) :
  all_chars p s = true -> all_chars p (rstrip s) = true.
Proof.
  induction s as [|c s IH]; [reflexivity|]. simpl.
  intros H. apply andb_true_iff in H as [Hc Hs].
  destruct (py_isspace c && (rstrip s =? ""))%string; [reflexivity|].
  simpl. now rewrite Hc, IH.
Qed.

Lemma all_chars_strip p (s : string) :
  all_chars p s = true -> all_chars p (strip s) = true.
Proof. intros H. unfold strip. now apply all_chars_rstrip, all_chars_lstrip. Qed.

Lemma all_chars_concat p (sep : string) (l : list string) :
  all_chars p sep = true ->
  Forall (fun x => all_chars p x = true) l ->
  all_chars p (String.concat sep l) = true.
Proof.
  intros Hsep. induction 1 as [|x l Hx Hl IH]; [reflexivity|].
  destruct l as [|y l]; [exact Hx|].
  change (String.concat sep (x :: y :: l))
    with (x ++ sep ++ String.concat sep (y :: l)).
  rewrite !all_chars_append, Hx, Hsep. exact IH.
Qed.

Lemma all_chars_weaken (p q : ascii -> bool) (s : string) :
  (forall c, p c = true -> q c = true) ->
  all_chars p s = true -> all_chars q s = true.
Proof.
  intros Hpq. induction s as [|c s IH]; [reflexivity|]. simpl.
  intros H. apply andb_true_iff in H as [Hc Hs]. now rewrite (Hpq _ Hc), IH.
Qed.

(** ** The post-processing of a remote answer *)

Lemma split_sentences_no_terminator (s : string) :
  all_chars (fun c => negb (is_terminator c)) (fst (split_sentences s)) = true /\
  Forall (fun x => all_chars (fun c => negb (is_terminator c)) x = true)
         (snd (split_sentences s)).
Proof.
  induction s as [|c s [IH1 IH2]]; [split; [reflexivity | constructor]|].
  simpl. destruct (split_sentences s) as [piece rest]. simpl in *.
  destruct (is_terminator c) eqn:E.
  - destruct (starts_with_terminator s); simpl; [auto|].
    split; [reflexivity | now constructor].
  - simpl. rewrite E. simpl. auto.
Qed.

Lemma sentences_of_spec (text : string) :
  Forall (fun x => x <> "" /\ strip x = x /\
                   all_chars (fun c => negb (is_terminator c)) x = true)
         (sentences_of text).
Proof.
  unfold sentences_of. apply List.Forall_forall. intros x Hx.
  apply filter_In in Hx as [Hin Hne]. apply in_map_iff in Hin as (y & <- & Hy).
  split; [|split].
  - intros E. rewrite E in Hne. discriminate.
  - apply strip_fixed.
  - apply all_chars_strip.
    destruct (split_sentences_no_terminator text) as [H1 H2].
    destruct Hy as [<-|Hy]; [exact H1|].
    rewrite List.Forall_forall in H2. now apply H2.
Qed.

(** X14. [_format_response] re-punctuates a text of several sentences:
    when the text, labels removed, has at least two non-blank sentences,
    the answer is these sentences, stripped, each closed by a full stop
    and separated by a blank line, so that every question or exclamation
    mark of the original is gone; otherwise the answer is the text with
    the labels removed, stripped and otherwise unchanged. *)
Theorem format_response_shape (text : string) :
  ((List.length (sentences_of (clean_labels text)) <= 1)%nat /\
   _format_response text = clean_labels text) \/
  ((2 <= List.length (sentences_of (clean_labels text)))%nat /\
   _format_response text
   = String.concat ("." ++ nl ++ nl) (sentences_of (clean_labels text)) ++ "." /\
   Forall (fun x => x <> "" /\ strip x = x /\
                    all_chars (fun c => negb (is_terminator c)) x = true)
          (sentences_of (clean_labels text)) /\
   all_chars (fun c => negb (Ascii.eqb c "!") && negb (Ascii.eqb c "?"))
     (_format_response text) = true).
Proof.
  assert (Hdef : _format_response text =
            if (1 <? List.length (sentences_of (clean_labels text)))%nat
            then String.concat ("." ++ nl ++ nl) (sentences_of (clean_labels text)) ++ "."
            else clean_labels text).
  { unfold _format_response, sentences_of. fold (clean_labels text).
    now destruct (split_sentences (clean_labels text)). }
  rewrite Hdef.
  destruct (1 <? List.length (sentences_of (clean_labels text)))%nat eqn:E.
  - apply Nat.ltb_lt in E. right. split; [lia|]. split; [reflexivity|].
    split; [apply sentences_of_spec|].
    rewrite all_chars_append. apply andb_true_iff. split; [|reflexivity].
    apply all_chars_concat; [reflexivity|].
    eapply List.Forall_impl; [|apply sentences_of_spec].
    intros x (_ & _ & Hx). revert Hx. apply all_chars_weaken.
    intros c Hc. unfold is_terminator in Hc.
    apply negb_true_iff, orb_false_iff in Hc as [Hc Hq].
    apply orb_false_iff in Hc as [_ Hb]. now rewrite Hb, Hq.
  - apply Nat.ltb_ge in E. left. split; [lia | reflexivity].
Qed.

(** The post-processing at work. *)
Example format_response_example :
  _format_response ("Summary: Is this real? Yes!  It is." ++ nl ++ "Author: @bob")
  = "Is this real." ++ nl ++ nl ++ "Yes." ++ nl ++ nl ++ "It is.".
Proof. vm_compute. reflexivity. Qed.

(** Removing a label can uncover the same label: one pass leaves it. *)
Example format_response_leaves_uncovered_label :
  _format_response "SumSummary:mary: done" = "Summary: done".
Proof. vm_compute. reflexivity. Qed.

(** ** Credentials and backend selection *)

Lemma eqb_empty_length (s : string) : String.eqb s "" = (String.length s =? 0)%nat.
Proof. destruct s; reflexivity. Qed.

Lemma create_client_eq cfg :
  create_client cfg =
  if key_usable (fireworks_api_key cfg)
  then DobbyClient (fireworks_api_key cfg) dobby_default_model
  else LocalMockClient.
Proof.
  unfold create_client. destruct (key_usable _) eqn:E; [|reflexivity].
  simpl. now rewrite E.
Qed.

Lemma key_usable_length k : key_usable k = true <-> (10 < key_length k)%nat.
Proof.
  destruct k as [s|]; simpl; [|split; [discriminate | lia]].
  rewrite eqb_empty_length, andb_true_iff, negb_true_iff, Nat.eqb_neq, Nat.ltb_lt.
  lia.
Qed.

Lemma validate_refuses_length k :
  (exists msg, validate_fireworks_key k = inl msg) <-> (0 < key_length k < 10)%nat.
Proof.
  destruct k as [s|]; simpl; [|split; [intros [msg H]; discriminate | lia]].
  rewrite eqb_empty_length.
  destruct (negb (String.length s =? 0)%nat && (String.length s <? 10)%nat) eqn:E.
  - apply andb_true_iff in E as [E0 E1].
    apply negb_true_iff, Nat.eqb_neq in E0. apply Nat.ltb_lt in E1.
    split; [lia | eauto].
  - split; [intros [msg H]; discriminate|]. intros H.
    apply andb_false_iff in E as [E|E].
    + apply negb_false_iff, Nat.eqb_eq in E. lia.
    + apply Nat.ltb_ge in E. lia.
Qed.

(** X15. Validation and selection disagree on the length of a usable
    credential.  The validator refuses a key of 1 to 9 characters; the
    factory takes the remote client only for more than 10; so a key of
    exactly 10 characters is accepted and then treated as absent.  Whatever
    the key, the client the factory returns is available. *)
Theorem credential_selection_law (cfg : Settings) :
  ((exists msg, validate_fireworks_key (fireworks_api_key cfg) = inl msg) <->
   (0 < key_length (fireworks_api_key cfg) < 10)%nat) /\
  (create_client cfg = LocalMockClient <->
   (key_length (fireworks_api_key cfg) <= 10)%nat) /\
  (create_client cfg = DobbyClient (fireworks_api_key cfg) dobby_default_model <->
   (10 < key_length (fireworks_api_key cfg))%nat) /\
  is_available (create_client cfg) = true.
Proof.
  split; [apply validate_refuses_length|].
  rewrite create_client_eq.
  pose proof (key_usable_length (fireworks_api_key cfg)) as Hu.
  destruct (key_usable (fireworks_api_key cfg)) eqn:E.
  - assert (10 < key_length (fireworks_api_key cfg))%nat by (now apply Hu).
    split; [split; [discriminate | lia]|].
    split; [split; [lia | reflexivity]|]. exact E.
  - assert (~ (10 < key_length (fireworks_api_key cfg))%nat).
    { intros HP. apply Hu in HP. discriminate. }
    split; [split; [lia | reflexivity]|].
    split; [split; [discriminate | lia]|]. reflexivity.
Qed.

(** The key of exactly 10 characters. *)
Example ten_character_key :
  validate_fireworks_key (Some "fw_0123456") = inr (Some "fw_0123456") /\
  create_client {| fireworks_api_key := Some "fw_0123456"; use_redis := false;
                   cache_ttl := 86400; rate_limit_requests := 60;
                   rate_limit_window := 300 |} = LocalMockClient.
Proof. split; reflexivity. Qed.

(** ** Allowed origins *)

Lemma split_char_no_sep (sep : ascii) (s : string) :
  Forall (fun x => all_chars (fun c => negb (Ascii.eqb c sep)) x = true)
         (split_char sep s).
Proof.
  induction s as [|c s IH]; [repeat constructor|]. simpl.
  destruct (split_char sep s) as [|piece rest].
  - destruct (Ascii.eqb c sep) eqn:E; repeat constructor. simpl. now rewrite E.
  - inversion IH as [|? ? Hp Hr]; subst.
    destruct (Ascii.eqb c sep) eqn:E; repeat constructor; try assumption.
    simpl. now rewrite E, Hp.
Qed.

(** X16. [get_allowed_origins] returns clean names: none is empty, none
    has whitespace around it, none holds a comma. *)
Theorem get_allowed_origins_clean (allowed_origins : string) :
  Forall (fun origin =>
            origin <> "" /\ strip origin = origin /\
            all_chars (fun c => negb (Ascii.eqb c ",")) origin = true)
         (get_allowed_origins allowed_origins).
Proof.
  unfold get_allowed_origins. apply List.Forall_forall. intros x Hx.
  apply in_map_iff in Hx as (y & <- & Hy).
  apply filter_In in Hy as [Hin Hne].
  split; [|split].
  - intros E. rewrite E in Hne. discriminate.
  - apply strip_fixed.
  - apply all_chars_strip.
    pose proof (split_char_no_sep "," allowed_origins) as Hall.
    rewrite List.Forall_forall in Hall. now apply Hall.
Qed.

Example get_allowed_origins_example :
  get_allowed_origins " https://a.example , ,https://b.example,"
  = ["https://a.example"; "https://b.example"].
Proof. vm_compute. reflexivity. Qed.

(** ** Prompts and the local mock *)

Lemma compat_prefix (n : string) : forall u t,
  compat n u = false -> String.prefix n (u ++ t) = false.
Proof.
  induction n as [|a n IH]; intros [|b u] t H; try discriminate.
  rewrite append_cons. simpl in *.
  destruct (ascii_dec a b) as [->|Hab]; [|reflexivity].
  rewrite Ascii.eqb_refl in H. now apply IH.
Qed.

Lemma find_from_skip (n : string) : forall pre t pos,
  early_free n pre = true ->
  find_from n (pre ++ t) pos = find_from n t (pos + Z.of_nat (String.length pre)).
Proof.
  induction pre as [|c pre IH]; intros t pos H.
  - rewrite append_nil_l. simpl. f_equal. lia.
  - cbn [early_free] in H. apply andb_true_iff in H as [Hc Hrest].
    apply negb_true_iff in Hc.
    rewrite append_cons. cbn [find_from].
    rewrite <- append_cons, (compat_prefix _ _ _ Hc).
    rewrite (IH _ _ Hrest). f_equal. cbn [String.length]. lia.
Qed.

Lemma find_from_here (n t : string) (pos : Z) : find_from n (n ++ t) pos = pos.
Proof.
  destruct (n ++ t) eqn:E; cbn [find_from]; rewrite <- E, prefix_append;
    reflexivity.
Qed.

Lemma find_from_char (c : ascii) (rest : string) : forall u pos,
  all_chars (fun x => negb (Ascii.eqb x c)) u = true ->
  find_from (String c "") (u ++ String c rest) pos =
  (pos + Z.of_nat (String.length u))%Z.
Proof.
  induction u as [|x u IH]; intros pos H.
  - rewrite append_nil_l. cbn [find_from String.prefix].
    destruct (ascii_dec c c); [|congruence].
    rewrite prefix_nil. simpl. lia.
  - cbn [all_chars] in H. apply andb_true_iff in H as [Hx Hu].
    apply negb_true_iff, Ascii.eqb_neq in Hx.
    rewrite append_cons. cbn [find_from String.prefix].
    destruct (ascii_dec c x) as [->|_]; [congruence|].
    rewrite (IH _ Hu). cbn [String.length]. lia.
Qed.

Lemma drop_append (a b : string) : drop (String.length a) (a ++ b) = b.
Proof. induction a as [|c a IH]; [reflexivity|]. exact IH. Qed.

Lemma substring_append (b c : string) : forall a,
  substring (String.length a) (String.length b) (a ++ b ++ c) = b.
Proof.
  induction a as [|x a IH].
  - rewrite append_nil_l. cbn [String.length].
    induction b as [|y b IHb]; [destruct c; reflexivity|].
    rewrite append_cons. cbn [String.length substring]. now rewrite IHb.
  - rewrite append_cons. cbn [String.length substring]. exact IH.
Qed.

Lemma find_at (n a b : string) :
  find n (a ++ b) (Z.of_nat (String.length a)) =
  find_from n b (Z.of_nat (String.length a)).
Proof.
  unfold find. rewrite length_append, Nat2Z.id, drop_append.
  destruct (Z.ltb_spec (Z.of_nat (String.length a + String.length b))
              (Z.of_nat (String.length a))); [lia|reflexivity].
Qed.

(** The mock reads back the line that follows the first ["Tweet:"]. *)
Lemma tweet_content_line (pre line rest : string) :
  early_free "Tweet:" pre = true ->
  single_line line = true ->
  tweet_content (pre ++ "Tweet:" ++ line ++ String newline rest) = strip line.
Proof.
  intros Hpre Hline. unfold tweet_content.
  rewrite str_in_append.
  assert (Hstart : find "Tweet:" (pre ++ "Tweet:" ++ line ++ String newline rest) 0 =
                   Z.of_nat (String.length pre)).
  { change 0%Z with (Z.of_nat (String.length "")) at 1.
    rewrite <- (append_nil_l (pre ++ _)) at 1.
    rewrite find_at. cbn [String.length].
    rewrite (find_from_skip _ _ _ _ Hpre), find_from_here. simpl. lia. }
  rewrite Hstart.
  replace (Z.of_nat (String.length pre) + 6)%Z
    with (Z.of_nat (String.length (pre ++ "Tweet:")))
    by (rewrite length_append; cbn [String.length]; lia).
  rewrite <- (append_assoc pre "Tweet:").
  rewrite find_at. unfold nl. fold newline.
  rewrite (find_from_char newline rest line _ Hline).
  destruct (Z.eqb_spec (Z.of_nat (String.length (pre ++ "Tweet:")) +
                        Z.of_nat (String.length line)) (-1)); [lia|].
  unfold slice.
  replace (Z.to_nat (Z.of_nat (String.length (pre ++ "Tweet:")) +
                     Z.of_nat (String.length line) -
                     Z.of_nat (String.length (pre ++ "Tweet:"))))
    with (String.length line) by lia.
  rewrite Nat2Z.id.
  now rewrite substring_append.
Qed.

Lemma tweet_content_template (h text rest : string) :
  early_free "Tweet:" (h ++ nl ++ nl) = true ->
  single_line text = true ->
  tweet_content (h ++ nl ++ nl ++ "Tweet: " ++ text ++ nl ++ rest) = strip text.
Proof.
  intros Hh Htext.
  replace (h ++ nl ++ nl ++ "Tweet: " ++ text ++ nl ++ rest)
    with ((h ++ nl ++ nl) ++ "Tweet:" ++ (" " ++ text) ++ String newline rest)
    by (rewrite !append_assoc; reflexivity).
  rewrite tweet_content_line; [reflexivity|exact Hh|exact Htext].
Qed.

(** X17. Prompt and mock compose: for a text on one line, the tweet that
    the local mock cuts out of each of the three prompts is the text
    itself, stripped, whatever the persona, the style, the source and the
    author. *)
Theorem mock_reads_the_tweet_back (text persona style : string)
    (url author : option string) :
  single_line text = true ->
  tweet_content (build_summarize_prompt text persona url author) = strip text /\
  tweet_content (build_context_prompt text persona url author) = strip text /\
  tweet_content (build_replies_prompt text persona style url author) = strip text.
Proof.
  intros Htext.
  unfold build_summarize_prompt, build_context_prompt, build_replies_prompt.
  cbv zeta.
  repeat split; apply tweet_content_template; try exact Htext; reflexivity.
Qed.

Lemma mock_reads_the_tweet_back_witness :
  single_line "  gm frens, shipping today  " = true /\
  tweet_content
    (build_replies_prompt "  gm frens, shipping today  " "curator" "witty"
       (Some "https://x.com/a/status/1") (Some "@a")) =
  "gm frens, shipping today".
Proof.
  split; [reflexivity|].
  exact (proj2 (proj2 (mock_reads_the_tweet_back
                         "  gm frens, shipping today  " "curator" "witty"
                         (Some "https://x.com/a/status/1") (Some "@a")
                         eq_refl))).
Defined.

(** A text of two lines is read back only up to its first line. *)
Example mock_reads_the_first_line :
  tweet_content
    (build_summarize_prompt ("first line" ++ nl ++ "second line") "human"
       None None) = "first line".
Proof. vm_compute. reflexivity. Qed.

Lemma prefix_sep (sep : ascii) (b : string) : forall w u,
  all_chars (fun c => negb (Ascii.eqb c sep)) w = true ->
  String.prefix w (u ++ String sep b) = String.prefix w u.
Proof.
  induction w as [|a w IH]; intros u H.
  - now rewrite !prefix_nil.
  - cbn [all_chars] in H. apply andb_true_iff in H as [Ha Hw].
    apply negb_true_iff, Ascii.eqb_neq in Ha.
    destruct u as [|x u].
    + rewrite append_nil_l. simpl. now destruct (ascii_dec a sep).
    + rewrite append_cons. simpl. destruct (ascii_dec a x); [|reflexivity].
      now apply IH.
Qed.

(** A word without the separator lies on one side of it. *)
Lemma str_in_sep (sep : ascii) (w b : string) :
  all_chars (fun c => negb (Ascii.eqb c sep)) w = true ->
  forall a, str_in w (a ++ String sep b) = str_in w a || str_in w b.
Proof.
  intros Hw. induction a as [|c a IH].
  - rewrite (str_in_unfold w ("" ++ String sep b)), (prefix_sep _ _ _ _ Hw).
    rewrite append_nil_l, (str_in_unfold w "").
    now destruct (String.prefix w "").
  - rewrite (str_in_unfold w (String c a ++ String sep b)).
    rewrite (prefix_sep _ _ _ _ Hw), append_cons, IH.
    rewrite (str_in_unfold w (String c a)).
    now destruct (String.prefix w (String c a)).
Qed.

Lemma keyword_like_spec (w : string) :
  keyword_like w = true ->
  all_chars (fun c => negb (Ascii.eqb c " ")) w = true /\
  all_chars (fun c => negb (Ascii.eqb c newline)) w = true /\
  str_in w "" = false /\
  str_in w (lower "Source URL:") = false /\
  str_in w (lower "Author:") = false.
Proof.
  unfold keyword_like. rewrite !andb_true_iff, !negb_true_iff.
  intros [[[Hc Hw] Hs] Ha]. repeat split; try assumption.
  - revert Hc. apply all_chars_weaken. intros c H.
    now apply andb_true_iff in H as [H _].
  - revert Hc. apply all_chars_weaken. intros c H.
    now apply andb_true_iff in H as [_ H].
  - destruct w; [discriminate|reflexivity].
Qed.

Lemma str_in_labelled (w label v : string) :
  keyword_like w = true ->
  str_in w (lower label) = false ->
  str_in w (lower (nl ++ label ++ " " ++ v)) = str_in w (lower v).
Proof.
  intros Hw Hl. destruct (keyword_like_spec w Hw) as (Hsp & Hnl & He & _).
  rewrite !lower_append.
  change (lower nl ++ lower label ++ lower " " ++ lower v)
    with ("" ++ String newline (lower label ++ String " " (lower v))).
  now rewrite (str_in_sep _ _ _ Hnl), (str_in_sep _ _ _ Hsp), He, Hl.
Qed.

(** What the optional source and author add to a prompt. *)
Lemma str_in_suffix (w f : string) (url author : option string) :
  keyword_like w = true ->
  str_in w (lower (f ++ prompt_suffix url author)) =
  str_in w (lower f) || str_in w (lower (opt_text url)) ||
  str_in w (lower (opt_text author)).
Proof.
  intros Hw. destruct (keyword_like_spec w Hw) as (Hsp & Hnl & He & Hu & Ha).
  assert (Hurl : forall g u, str_in w (lower (g ++ nl ++ nl ++ "Source URL: " ++ u)) =
                             str_in w (lower g) || str_in w (lower u)).
  { intros g u. rewrite lower_append.
    change (lower (nl ++ nl ++ "Source URL: " ++ u))
      with (String newline (lower (nl ++ "Source URL:" ++ " " ++ u))).
    now rewrite (str_in_sep _ _ _ Hnl), (str_in_labelled _ _ _ Hw Hu). }
  assert (Haut : forall g a, str_in w (lower (g ++ nl ++ nl ++ "Author: " ++ a)) =
                             str_in w (lower g) || str_in w (lower a)).
  { intros g a. rewrite lower_append.
    change (lower (nl ++ nl ++ "Author: " ++ a))
      with (String newline (lower (nl ++ "Author:" ++ " " ++ a))).
    now rewrite (str_in_sep _ _ _ Hnl), (str_in_labelled _ _ _ Hw Ha). }
  unfold prompt_suffix.
  destruct url as [u|]; [destruct (String.eqb_spec u "") as [->|_]|];
    (destruct author as [a|]; [destruct (String.eqb_spec a "") as [->|_]|]);
    cbn [opt_text lower]; rewrite ?He, ?append_nil_r, ?orb_false_r;
    try reflexivity.
  - apply (Haut f a).
  - apply Hurl.
  - rewrite <- append_assoc, Haut, Hurl. reflexivity.
  - apply Hurl.
  - apply (Haut f a).
Qed.

(** A prompt is a head, the tweet on its line, a tail and the optional
    source and author: a keyword occurs in it where it occurs in one of
    these. *)
Lemma str_in_frame (w hd text tl : string) (url author : option string)
    (b : bool) :
  keyword_like w = true ->
  str_in w (lower hd) || str_in w (lower tl) = b ->
  str_in w
    (lower (hd ++ String " " (text ++ String newline (tl ++ prompt_suffix url author)))) =
  b || request_mentions w text url author.
Proof.
  intros Hw <-. destruct (keyword_like_spec w Hw) as (Hsp & Hnl & _).
  rewrite lower_append.
  change (lower (String " " (text ++ String newline (tl ++ prompt_suffix url author))))
    with (String " " (lower (text ++ String newline (tl ++ prompt_suffix url author)))).
  rewrite (str_in_sep _ _ _ Hsp), lower_append.
  change (lower (String newline (tl ++ prompt_suffix url author)))
    with (String newline (lower (tl ++ prompt_suffix url author))).
  rewrite (str_in_sep _ _ _ Hnl), (str_in_suffix _ _ _ _ Hw).
  unfold request_mentions.
  destruct (str_in w (lower hd)), (str_in w (lower text)),
    (str_in w (lower tl)), (str_in w (lower (opt_text url)));
    reflexivity.
Qed.

Lemma summarize_prompt_frame (text persona : string) (url author : option string) :
  build_summarize_prompt text persona url author =
  ("Create a summary with EXACT formatting." ++ nl ++ nl ++ "Tweet:") ++
  String " "
    (text ++
     String newline
       (drop 49 (build_summarize_prompt "" persona None None) ++
        prompt_suffix url author)).
Proof. reflexivity. Qed.

Lemma context_prompt_frame (text persona : string) (url author : option string) :
  build_context_prompt text persona url author =
  ("Create context with EXACT formatting." ++ nl ++ nl ++ "Tweet:") ++
  String " "
    (text ++
     String newline
       (drop 47 (build_context_prompt "" persona None None) ++
        prompt_suffix url author)).
Proof. reflexivity. Qed.

Lemma get_persona_info_known (persona : string) :
  get_persona_info persona = get_persona_info "human" \/
  get_persona_info persona = get_persona_info "hardcore" \/
  get_persona_info persona = get_persona_info "curator".
Proof.
  unfold get_persona_info, personas. cbn [assoc_get].
  destruct (String.eqb "human" persona); [now left|].
  destruct (String.eqb "hardcore" persona); [now right; left|].
  destruct (String.eqb "curator" persona); [now right; right|now left].
Qed.

Lemma replies_prompt_known (text persona style : string)
    (url author : option string) :
  exists p, (p = "human" \/ p = "hardcore" \/ p = "curator") /\
    build_replies_prompt text persona style url author =
    ("Generate 3 replies with EXACT formatting." ++ nl ++ nl ++ "Tweet:") ++
    String " "
      (text ++
       String newline
         (drop 51 (build_replies_prompt "" p style None None) ++
          prompt_suffix url author)).
Proof.
  unfold build_replies_prompt at 1. cbv zeta.
  destruct (get_persona_info_known persona) as [E|[E|E]]; rewrite E;
    [exists "human"|exists "hardcore"|exists "curator"];
    (split; [tauto|reflexivity]).
Qed.

Lemma prompt_keywords (text persona style : string)
    (url author : option string) :
  let mentions w := request_mentions w text url author in
  let s := lower (build_summarize_prompt text persona url author) in
  let c := lower (build_context_prompt text persona url author) in
  let r := lower (build_replies_prompt text persona style url author) in
  (str_in "summarize" s = mentions "summarize" /\
   str_in "context" s = mentions "context" /\
   str_in "reply" s = mentions "reply") /\
  (str_in "summarize" c = mentions "summarize" /\
   str_in "context" c = true) /\
  (str_in "summarize" r = mentions "summarize" /\
   str_in "context" r = mentions "context" /\
   str_in "reply" r = true).
Proof.
  cbv zeta.
  rewrite summarize_prompt_frame, context_prompt_frame.
  destruct (replies_prompt_known text persona style url author)
    as (p & Hp & ->).
  split; [|split]; [split; [|split]|split|split; [|split]].
  - apply (str_in_frame _ _ _ _ _ _ false); reflexivity.
  - apply (str_in_frame _ _ _ _ _ _ false); reflexivity.
  - apply (str_in_frame _ _ _ _ _ _ false); reflexivity.
  - apply (str_in_frame _ _ _ _ _ _ false); reflexivity.
  - apply (str_in_frame _ _ _ _ _ _ true); reflexivity.
  - destruct Hp as [-> | [-> | ->]];
      apply (str_in_frame _ _ _ _ _ _ false); reflexivity.
  - destruct Hp as [-> | [-> | ->]];
      apply (str_in_frame _ _ _ _ _ _ false); reflexivity.
  - destruct Hp as [-> | [-> | ->]];
      apply (str_in_frame _ _ _ _ _ _ true); reflexivity.
Qed.

(** X18. Which template the local mock picks.  The mock looks for
    "summarize", "context" and "reply" in the lower-cased prompt.  The
    summarize prompt contains none of them, so it selects a template only
    through what the caller supplied; the context prompt always contains
    "context" and the replies prompt always contains "reply", and either
    contains "summarize" (the replies prompt: or "context") exactly when
    the text, the source or the author does. *)
Theorem mock_template_selection (text persona style : string)
    (url author : option string) :
  let mentions w := request_mentions w text url author in
  let s := lower (build_summarize_prompt text persona url author) in
  let c := lower (build_context_prompt text persona url author) in
  let r := lower (build_replies_prompt text persona style url author) in
  (str_in "summarize" s = mentions "summarize" /\
   str_in "context" s = mentions "context" /\
   str_in "reply" s = mentions "reply") /\
  (str_in "summarize" c = mentions "summarize" /\
   str_in "context" c = true) /\
  (str_in "summarize" r = mentions "summarize" /\
   str_in "context" r = mentions "context" /\
   str_in "reply" r = true).
Proof. exact (prompt_keywords text persona style url author). Qed.

(** A tweet without any of the keywords, sent for a summary, gets the
    mock's generic answer, not its summary. *)
Example mock_summary_is_generic :
  response_text (build_summarize_prompt "gm frens, shipping today" "human" None None) =
  generic_head ++ "gm frens, shipping today" ++ generic_tail.
Proof. vm_compute. reflexivity. Qed.

(** ** The replies cut out of the mock's answer *)

Lemma rstrip_keeps (c : ascii) :
  py_isspace c = false ->
  forall a, rstrip (a ++ String c "") = a ++ String c "".
Proof.
  intros Hc. induction a as [|x a IH].
  - rewrite append_nil_l. cbn [rstrip]. now rewrite Hc.
  - rewrite append_cons. cbn [rstrip]. rewrite IH.
    replace (String.eqb (a ++ String c "") "") with false
      by (now destruct a).
    now rewrite andb_false_r.
Qed.

Lemma split_char_cons (sep : ascii) (s : string) :
  exists piece rest, split_char sep s = piece :: rest.
Proof.
  destruct s as [|c s]; [now exists "", []|]. cbn [split_char].
  destruct (split_char sep s) as [|piece rest], (Ascii.eqb c sep); eauto.
Qed.

Lemma split_char_append (sep : ascii) (b : string) : forall a,
  all_chars (fun c => negb (Ascii.eqb c sep)) a = true ->
  split_char sep (a ++ String sep b) = a :: split_char sep b.
Proof.
  induction a as [|c a IH]; intros H.
  - rewrite append_nil_l. cbn [split_char].
    destruct (split_char_cons sep b) as (piece & rest & ->).
    now rewrite Ascii.eqb_refl.
  - cbn [all_chars] in H. apply andb_true_iff in H as [Hc Ha].
    apply negb_true_iff in Hc.
    rewrite append_cons. cbn [split_char]. now rewrite (IH Ha), Hc.
Qed.

Lemma split_char_single (sep : ascii) : forall a,
  all_chars (fun c => negb (Ascii.eqb c sep)) a = true ->
  split_char sep a = [a].
Proof.
  induction a as [|c a IH]; intros H; [reflexivity|].
  cbn [all_chars] in H. apply andb_true_iff in H as [Hc Ha].
  apply negb_true_iff in Hc.
  cbn [split_char]. now rewrite (IH Ha), Hc.
Qed.

Lemma all_chars_substring p (s : string) : forall n m,
  all_chars p s = true -> all_chars p (substring n m s) = true.
Proof.
  induction s as [|c s IH]; intros [|n] [|m] H; try reflexivity;
    cbn [all_chars] in H; apply andb_true_iff in H as [Hc Hs];
    cbn [substring].
  - cbn [all_chars]. rewrite Hc. now apply IH.
  - now apply IH.
  - now apply IH.
Qed.

Lemma parse_numbered_replies (x y : string) :
  single_line x = true ->
  single_line y = true ->
  parse_replies
    (strip
       ("1. Great point about " ++ x ++
        "...! I'd love to hear more about this." ++ nl ++
        "2. This is really interesting - what are your thoughts on the implications?" ++
        nl ++ "3. Thanks for sharing this insight about " ++ y ++ "...!")) =
  ["Great point about " ++ x ++ "...! I'd love to hear more about this.";
   "This is really interesting - what are your thoughts on the implications?";
   "Thanks for sharing this insight about " ++ y ++ "...!"].
Proof.
  intros Hx Hy.
  set (l1 := "1. Great point about " ++ x ++ "...! I'd love to hear more about this.").
  set (l2 := "2. This is really interesting - what are your thoughts on the implications?").
  set (l3 := "3. Thanks for sharing this insight about " ++ y ++ "...!").
  assert (H1 : strip l1 = l1).
  { unfold strip. change (lstrip l1) with l1. unfold l1.
    replace ("1. Great point about " ++ x ++ "...! I'd love to hear more about this.")
      with (("1. Great point about " ++ x ++ "...! I'd love to hear more about this") ++ ".")
      by (rewrite !append_assoc; reflexivity).
    now apply rstrip_keeps. }
  assert (H3 : strip l3 = l3).
  { unfold strip. change (lstrip l3) with l3. unfold l3.
    replace ("3. Thanks for sharing this insight about " ++ y ++ "...!")
      with (("3. Thanks for sharing this insight about " ++ y ++ "...") ++ "!")
      by (rewrite !append_assoc; reflexivity).
    now apply rstrip_keeps. }
  assert (Hs1 : single_line l1 = true).
  { unfold single_line, l1. rewrite !all_chars_append. fold (single_line x).
    now rewrite Hx. }
  assert (Hs3 : single_line l3 = true).
  { unfold single_line, l3. rewrite !all_chars_append. fold (single_line y).
    now rewrite Hy. }
  replace ("1. Great point about " ++ x ++
           "...! I'd love to hear more about this." ++ nl ++ l2 ++ nl ++ l3)
    with (l1 ++ String newline (l2 ++ String newline l3))
    by (unfold l1; rewrite !append_assoc; reflexivity).
  assert (Hr : strip (l1 ++ String newline (l2 ++ String newline l3)) =
               l1 ++ String newline (l2 ++ String newline l3)).
  { unfold strip.
    change (lstrip (l1 ++ String newline (l2 ++ String newline l3)))
      with (l1 ++ String newline (l2 ++ String newline l3)).
    replace (l1 ++ String newline (l2 ++ String newline l3))
      with ((l1 ++ String newline (l2 ++ String newline
               ("3. Thanks for sharing this insight about " ++ y ++ "..."))) ++ "!").
    - now apply rstrip_keeps.
    - unfold l3. repeat (rewrite append_assoc || rewrite append_cons).
      reflexivity. }
  rewrite Hr. unfold parse_replies, reply_lines. fold newline.
  rewrite (split_char_append newline _ l1 Hs1).
  rewrite (split_char_append newline _ l2 eq_refl).
  rewrite (split_char_single newline l3 Hs3).
  cbn [List.map]. rewrite H1, H3.
  reflexivity.
Qed.

(** X19. Prompt, mock and reply parsing compose.  For a text on one line:
    a summarize request that mentions none of the mock's keywords gets the
    generic answer; a context request that does not mention "summarize"
    gets the context answer; and a replies request that mentions neither
    "summarize" nor "context" yields exactly the three replies of the
    reply template, their numbers removed.  Each answer quotes the
    stripped text, cut to 100, 50 and 30 characters. *)
Theorem mock_answer_by_endpoint (text persona style : string)
    (url author : option string) :
  single_line text = true ->
  let mentions w := request_mentions w text url author in
  let tweet := strip text in
  (mentions "summarize" = false -> mentions "context" = false ->
   mentions "reply" = false ->
   response_text (build_summarize_prompt text persona url author) =
   generic_head ++ take 100 tweet ++ generic_tail) /\
  (mentions "summarize" = false ->
   response_text (build_context_prompt text persona url author) =
   context_head ++ take 100 tweet ++ context_tail) /\
  (mentions "summarize" = false -> mentions "context" = false ->
   parse_replies
     (strip (response_text (build_replies_prompt text persona style url author))) =
   mock_replies tweet).
Proof.
  intros Htext. cbv zeta.
  destruct (prompt_keywords text persona style url author)
    as ((Hs1 & Hs2 & Hs3) & (Hc1 & Hc2) & (Hr1 & Hr2 & Hr3)).
  assert (Ts : tweet_content (build_summarize_prompt text persona url author) =
               strip text)
    by (apply tweet_content_template; [reflexivity|exact Htext]).
  assert (Tc : tweet_content (build_context_prompt text persona url author) =
               strip text)
    by (apply tweet_content_template; [reflexivity|exact Htext]).
  assert (Tr : tweet_content (build_replies_prompt text persona style url author) =
               strip text)
    by (apply tweet_content_template; [reflexivity|exact Htext]).
  assert (Hcut : forall n, single_line (take n (strip text)) = true)
    by (intros n; apply all_chars_substring, all_chars_strip, Htext).
  split; [|split].
  - intros M1 M2 M3. unfold response_text. cbv zeta.
    now rewrite Hs1, M1, Hs2, M2, Hs3, M3, Ts.
  - intros M1. unfold response_text. cbv zeta.
    now rewrite Hc1, M1, Hc2, Tc.
  - intros M1 M2. unfold response_text. cbv zeta.
    rewrite Hr1, M1, Hr2, M2, Hr3, Tr.
    apply parse_numbered_replies; apply Hcut.
Qed.

Lemma mock_answer_by_endpoint_witness :
  single_line "gm frens, shipping today" = true /\
  parse_replies
    (strip (response_text
              (build_replies_prompt "gm frens, shipping today" "hardcore"
                 "casual" None (Some "@a")))) =
  ["Great point about gm frens, shipping today...! I'd love to hear more about this.";
   "This is really interesting - what are your thoughts on the implications?";
   "Thanks for sharing this insight about gm frens, shipping today...!"].
Proof.
  split; [reflexivity|].
  exact (proj2 (proj2 (mock_answer_by_endpoint "gm frens, shipping today"
                         "hardcore" "casual" None (Some "@a") eq_refl))
           eq_refl eq_refl).
Defined.

(** A tweet that says "context" turns the replies into the first three
    lines of the mock's context answer. *)
Example replies_follow_the_keyword :
  parse_replies
    (strip (response_text
              (build_replies_prompt "Some context, please" "human"
                 "conversational" None None))) =
  ["Context for the tweet: Some context, please...";
   "This provides important background information about the topic.";
   "The context helps readers understand the broader implications."].
Proof. vm_compute. reflexivity. Qed.

Lemma rstrip_no_trailing (s : string) : ends_with_space (rstrip s) = false.
Proof.
  induction s as [|c s IH]; [reflexivity|]. cbn [rstrip].
  destruct (rstrip s) as [|x r] eqn:E.
  - cbn [String.eqb]. rewrite andb_true_r.
    destruct (py_isspace c) eqn:Hc; [reflexivity|].
    cbn [ends_with_space]. exact Hc.
  - cbn [String.eqb]. rewrite andb_false_r. exact IH.
Qed.

Lemma strip_empty_cons (c : ascii) (s : string) :
  strip (String c s) = "" -> py_isspace c = true /\ strip s = "".
Proof.
  unfold strip. cbn [lstrip].
  destruct (py_isspace c) eqn:Hc; [now split|].
  cbn [rstrip]. rewrite Hc. discriminate.
Qed.

Lemma ends_with_space_cons (c : ascii) (s : string) :
  py_isspace c = true ->
  (s <> "" -> ends_with_space s = true) ->
  ends_with_space (String c s) = true.
Proof.
  intros Hc Hs. destruct s as [|x s]; [exact Hc|].
  change (ends_with_space (String x s) = true). now apply Hs.
Qed.

(** A text of which [split('. ')] leaves only blank pieces ends in white
    space. *)
Lemma blank_pieces_end_in_space : forall n s,
  (String.length s <= n)%nat ->
  Forall (fun piece => strip piece = "")
         (fst (split_dot_space s) :: snd (split_dot_space s)) ->
  s <> "" -> ends_with_space s = true.
Proof.
  induction n as [|n IH]; intros s Hn Hall Hs.
  - destruct s; [congruence|cbn [String.length] in Hn; lia].
  - destruct s as [|c s]; [congruence|]. cbn [String.length] in Hn.
    assert (Hdefault :
      split_dot_space (String c s) =
        (String c (fst (split_dot_space s)), snd (split_dot_space s)) ->
      ends_with_space (String c s) = true).
    { intros E. rewrite E in Hall. cbn [fst snd] in Hall.
      inversion Hall as [|? ? Hhead Htail]; subst.
      apply strip_empty_cons in Hhead as [Hc Hpiece].
      apply ends_with_space_cons; [exact Hc|].
      apply IH; [lia|]. now constructor. }
    destruct (Ascii.eqb_spec c ".") as [->|Hc].
    + destruct s as [|d rest].
      * apply Hdefault. reflexivity.
      * destruct (Ascii.eqb_spec d " ") as [->|Hd].
        -- cbn [split_dot_space] in Hall.
           destruct (split_dot_space rest) as [piece pieces] eqn:E.
           cbn [fst snd] in Hall.
           inversion Hall as [|? ? _ Htail]; subst.
           destruct rest as [|e rest]; [reflexivity|].
           change (ends_with_space (String e rest) = true).
           cbn [String.length] in Hn.
           apply IH; [cbn [String.length]; lia| |discriminate].
           now rewrite E.
        -- apply Hdefault.
           destruct d as [[] [] [] [] [] [] [] []]; try congruence;
             cbn [split_dot_space];
             match goal with
             | |- (let (_, _) := ?X in _) = _ => now destruct X
             end.
    + apply Hdefault.
      destruct c as [[] [] [] [] [] [] [] []]; try congruence;
        cbn [split_dot_space];
        match goal with
        | |- (let (_, _) := ?X in _) = _ => now destruct X
        end.
Qed.

Lemma Forall_firstn_keep {A : Type} (P : A -> Prop) (n : nat) (l : list A) :
  Forall P l -> Forall P (firstn n l).
Proof.
  revert l. induction n as [|n IH]; intros l H; [constructor|].
  destruct H; cbn [firstn]; constructor; auto.
Qed.

Lemma reply_lines_nonempty (t : string) :
  Forall (fun reply => reply <> "") (reply_lines t).
Proof.
  unfold reply_lines. apply List.Forall_forall. intros reply Hin.
  apply filter_In in Hin as [_ Hne]. apply negb_true_iff in Hne.
  now apply String.eqb_neq in Hne.
Qed.

Lemma reply_sentences_nonempty (t : string) :
  Forall (fun reply => reply <> "") (reply_sentences t).
Proof.
  unfold reply_sentences. destruct (split_dot_space t) as [piece pieces].
  apply List.Forall_forall. intros reply Hin.
  apply in_map_iff in Hin as (x & <- & _).
  destruct (strip x); discriminate.
Qed.

Lemma reply_sentences_nil (t : string) :
  reply_sentences t = [] ->
  Forall (fun piece => strip piece = "")
         (fst (split_dot_space t) :: snd (split_dot_space t)).
Proof.
  unfold reply_sentences. destruct (split_dot_space t) as [piece pieces].
  cbn [fst snd]. intros H. apply map_eq_nil in H.
  apply List.Forall_forall. intros x Hin.
  destruct (String.eqb_spec (strip x) "") as [E|E]; [exact E|].
  assert (Hx : In x (List.filter (fun s => negb (String.eqb (strip s) ""))
                       (piece :: pieces))).
  { apply filter_In. split; [exact Hin|].
    apply negb_true_iff. now apply String.eqb_neq. }
  rewrite H in Hx. destruct Hx.
Qed.

(** X20. The replies a generated text yields.  Whatever the language model
    answered, [generate_replies] returns at most three replies and none of
    them is empty; it returns no reply at all exactly when the answer is
    blank. *)
Theorem parse_replies_law (generated : string) :
  let replies := parse_replies (strip generated) in
  (List.length replies <= 3)%nat /\
  Forall (fun reply => reply <> "") replies /\
  (replies = [] <-> strip generated = "").
Proof.
  cbv zeta. unfold parse_replies. split; [apply firstn_le_length|]. split.
  - apply Forall_firstn_keep.
    destruct (reply_lines (strip generated)) eqn:E.
    + apply reply_sentences_nonempty.
    + rewrite <- E. apply reply_lines_nonempty.
  - split.
    + intros H.
      destruct (reply_lines (strip generated)) eqn:E; [|discriminate].
      destruct (reply_sentences (strip generated)) eqn:E'; [|discriminate].
      destruct (String.eqb_spec (strip generated) "") as [Hs|Hs]; [exact Hs|].
      pose proof (blank_pieces_end_in_space _ _ (Nat.le_refl _)
                    (reply_sentences_nil _ E') Hs) as Hend.
      unfold strip in Hend. now rewrite rstrip_no_trailing in Hend.
    + intros ->. reflexivity.
Qed.

(** A text of list marks only has no reply line; the whole text, cut at
    full stops that a space follows, serves as the replies. *)
Example parse_replies_falls_back :
  parse_replies ("1." ++ nl ++ "2.") = ["1." ++ nl ++ "2.."].
Proof. vm_compute. reflexivity. Qed.

(** ** Text normalisation *)

Lemma all_chars_collapse p (s : string) :
  p " "%char = true ->
  all_chars p s = true -> all_chars p (collapse_spaces s) = true.
Proof.
  intros Hsp. induction s as [|c s IH]; [reflexivity|].
  cbn [all_chars collapse_spaces]. intros H.
  apply andb_true_iff in H as [Hc Hs].
  destruct (py_isspace c); [destruct (starts_with_space s)|];
    cbn [all_chars]; rewrite ?Hsp, ?Hc; auto.
Qed.

Lemma collapse_only_spaces (s : string) :
  all_chars (fun c => negb (py_isspace c) || Ascii.eqb c " ")
    (collapse_spaces s) = true.
Proof.
  induction s as [|c s IH]; [reflexivity|]. cbn [collapse_spaces].
  destruct (py_isspace c) eqn:Hc; [destruct (starts_with_space s)|];
    cbn [all_chars]; rewrite ?Hc, IH; reflexivity.
Qed.

Lemma all_chars_and p q (s : string) :
  all_chars p s = true -> all_chars q s = true ->
  all_chars (fun c => p c && q c) s = true.
Proof.
  induction s as [|c s IH]; [reflexivity|]. cbn [all_chars].
  rewrite !andb_true_iff. intros [Hp Hs] [Hq Hs']. auto.
Qed.

Lemma remove_control_chars p (s : string) :
  all_chars p s = true ->
  all_chars (fun c => negb (is_control c) && p c) (remove_control s) = true.
Proof.
  induction s as [|c s IH]; [reflexivity|]. cbn [all_chars remove_control].
  intros H. apply andb_true_iff in H as [Hc Hs].
  destruct (is_control c) eqn:E; [now apply IH|].
  cbn [all_chars]. now rewrite E, Hc, IH.
Qed.

Lemma remove_control_clean (s : string) :
  all_chars (fun c => negb (is_control c)) s = true -> remove_control s = s.
Proof.
  induction s as [|c s IH]; [reflexivity|]. cbn [all_chars remove_control].
  intros H. apply andb_true_iff in H as [Hc Hs].
  apply negb_true_iff in Hc. now rewrite Hc, IH.
Qed.

Lemma length_collapse (s : string) :
  (String.length (collapse_spaces s) <= String.length s)%nat.
Proof.
  induction s as [|c s IH]; [reflexivity|]. cbn [collapse_spaces].
  destruct (py_isspace c); [destruct (starts_with_space s)|];
    cbn [String.length]; lia.
Qed.

Lemma length_lstrip (s : string) :
  (String.length (lstrip s) <= String.length s)%nat.
Proof.
  induction s as [|c s IH]; [reflexivity|]. cbn [lstrip].
  destruct (py_isspace c); cbn [String.length]; lia.
Qed.

Lemma length_rstrip (s : string) :
  (String.length (rstrip s) <= String.length s)%nat.
Proof.
  induction s as [|c s IH]; [reflexivity|]. cbn [rstrip].
  destruct (py_isspace c && String.eqb (rstrip s) ""); cbn [String.length]; lia.
Qed.

Lemma length_strip (s : string) :
  (String.length (strip s) <= String.length s)%nat.
Proof.
  unfold strip. pose proof (length_rstrip (lstrip s)).
  pose proof (length_lstrip s). lia.
Qed.

Lemma length_remove_control (s : string) :
  (String.length (remove_control s) <= String.length s)%nat.
Proof.
  induction s as [|c s IH]; [reflexivity|]. cbn [remove_control].
  destruct (is_control c); cbn [String.length]; lia.
Qed.

Lemma length_basic_normalize (s : string) :
  (String.length (_basic_normalize s) <= String.length s)%nat.
Proof.
  unfold _basic_normalize.
  pose proof (length_remove_control (strip (collapse_spaces s))).
  pose proof (length_strip (collapse_spaces s)).
  pose proof (length_collapse s). lia.
Qed.

Lemma basic_normalize_plain (s : string) :
  all_chars plain_char (_basic_normalize s) = true.
Proof.
  unfold _basic_normalize, plain_char.
  apply remove_control_chars, all_chars_strip, collapse_only_spaces.
Qed.

Lemma basic_normalize_ascii (s : string) :
  is_ascii s = true -> is_ascii (_basic_normalize s) = true.
Proof.
  unfold is_ascii, _basic_normalize. intros H.
  apply (all_chars_collapse _ _ eq_refl) in H.
  apply all_chars_strip, remove_control_chars in H.
  revert H. apply all_chars_weaken.
  intros c Hc. now apply andb_true_iff in Hc as [_ Hc].
Qed.

Lemma plain_ascii_printable (c : ascii) :
  plain_char c = true -> (nat_of_ascii c <? 128)%nat = true ->
  printable c = true.
Proof.
  destruct c as [[] [] [] [] [] [] [] []]; vm_compute; congruence.
Qed.

Lemma printable_text (s : string) :
  all_chars plain_char s = true -> is_ascii s = true ->
  all_chars printable s = true.
Proof.
  unfold is_ascii. induction s as [|c s IH]; [reflexivity|].
  cbn [all_chars]. rewrite !andb_true_iff. intros [Hc Hs] [Ha Hs'].
  split; [now apply plain_ascii_printable|now apply IH].
Qed.

(** X21. What basic normalisation leaves.  The normalised form of an ASCII
    text consists of printable characters only (no tab, no line break, no
    control character), so it is on one line, and it is never longer than
    the text. *)
Theorem basic_normalize_output (text : string) :
  is_ascii text = true ->
  all_chars printable (_basic_normalize text) = true /\
  single_line (_basic_normalize text) = true /\
  (String.length (_basic_normalize text) <= String.length text)%nat.
Proof.
  intros Hascii.
  assert (Hp : all_chars printable (_basic_normalize text) = true)
    by (apply printable_text;
        [apply basic_normalize_plain|now apply basic_normalize_ascii]).
  split; [exact Hp|]. split; [|apply length_basic_normalize].
  revert Hp. apply all_chars_weaken.
  intros c. destruct c as [[] [] [] [] [] [] [] []]; vm_compute; congruence.
Qed.

Lemma basic_normalize_output_witness :
  is_ascii ("  gm" ++ nl ++ String (ascii_of_nat 9) "frens  ") = true /\
  _basic_normalize ("  gm" ++ nl ++ String (ascii_of_nat 9) "frens  ") = "gm frens" /\
  all_chars printable
    (_basic_normalize ("  gm" ++ nl ++ String (ascii_of_nat 9) "frens  ")) = true.
Proof.
  split; [reflexivity|]. split; [reflexivity|].
  exact (proj1 (basic_normalize_output
                  ("  gm" ++ nl ++ String (ascii_of_nat 9) "frens  ") eq_refl)).
Defined.

Lemma starts_collapse (s : string) :
  starts_with_space (collapse_spaces s) = starts_with_space s.
Proof.
  induction s as [|c s IH]; [reflexivity|]. cbn [collapse_spaces starts_with_space].
  destruct (py_isspace c) eqn:Hc; [|cbn [starts_with_space]; exact Hc].
  destruct (starts_with_space s) eqn:Hs; [now rewrite IH|reflexivity].
Qed.

Lemma collapse_single_spaced (s : string) :
  single_spaced (collapse_spaces s) = true.
Proof.
  induction s as [|c s IH]; [reflexivity|]. cbn [collapse_spaces].
  destruct (py_isspace c) eqn:Hc.
  - destruct (starts_with_space s) eqn:Hs; [exact IH|].
    cbn [single_spaced]. now rewrite starts_collapse, Hs, IH.
  - cbn [single_spaced]. now rewrite Hc, IH.
Qed.

Lemma single_spaced_lstrip (s : string) :
  single_spaced s = true -> single_spaced (lstrip s) = true.
Proof.
  induction s as [|c s IH]; [reflexivity|]. intros H. cbn [lstrip].
  destruct (py_isspace c); [|exact H].
  cbn [single_spaced] in H. apply andb_true_iff in H as [_ H]. now apply IH.
Qed.

Lemma starts_rstrip (s : string) :
  starts_with_space (rstrip s) = true -> starts_with_space s = true.
Proof.
  destruct s as [|c s]; [discriminate|]. cbn [rstrip starts_with_space].
  destruct (py_isspace c && String.eqb (rstrip s) ""); [discriminate|].
  now cbn [starts_with_space].
Qed.

Lemma single_spaced_rstrip (s : string) :
  single_spaced s = true -> single_spaced (rstrip s) = true.
Proof.
  induction s as [|c s IH]; [reflexivity|]. cbn [single_spaced rstrip].
  intros H. apply andb_true_iff in H as [Hc Hs].
  destruct (py_isspace c && String.eqb (rstrip s) ""); [reflexivity|].
  cbn [single_spaced]. rewrite (IH Hs), andb_true_r.
  destruct (py_isspace c); [|reflexivity]. cbn [negb orb] in *.
  apply andb_true_iff in Hc as [Hc Hn]. rewrite Hc. cbn [andb].
  apply negb_true_iff in Hn. apply negb_true_iff.
  destruct (starts_with_space (rstrip s)) eqn:E; [|reflexivity].
  apply starts_rstrip in E. congruence.
Qed.

Lemma collapse_fixed (s : string) :
  single_spaced s = true -> collapse_spaces s = s.
Proof.
  induction s as [|c s IH]; [reflexivity|]. cbn [single_spaced collapse_spaces].
  intros H. apply andb_true_iff in H as [Hc Hs]. rewrite (IH Hs).
  destruct (py_isspace c); [|reflexivity]. cbn [negb orb] in Hc.
  apply andb_true_iff in Hc as [Hc Hn]. apply negb_true_iff in Hn.
  apply Ascii.eqb_eq in Hc. now rewrite Hn, Hc.
Qed.

(** Normalising a text without control characters is collapsing and
    stripping it, and the result normalises to itself. *)
Lemma basic_normalize_of_plain (x : string) :
  all_chars (fun c => negb (is_control c)) x = true ->
  _basic_normalize x = strip (collapse_spaces x) /\
  _basic_normalize (strip (collapse_spaces x)) = strip (collapse_spaces x).
Proof.
  intros Hx.
  assert (Hy : all_chars (fun c => negb (is_control c))
                 (strip (collapse_spaces x)) = true)
    by (apply all_chars_strip, all_chars_collapse; [reflexivity|exact Hx]).
  assert (Hss : single_spaced (strip (collapse_spaces x)) = true)
    by (apply single_spaced_rstrip, single_spaced_lstrip, collapse_single_spaced).
  unfold _basic_normalize. split; [now apply remove_control_clean|].
  rewrite (collapse_fixed _ Hss), strip_fixed.
  now apply remove_control_clean.
Qed.

(** X22. Normalising twice settles.  Basic normalisation is not idempotent
    (removing a control character can bring two spaces together), but its
    second pass only collapses and strips what the first left, and from
    then on the text no longer changes. *)
Theorem basic_normalize_settles (text : string) :
  is_ascii text = true ->
  let once := _basic_normalize text in
  let twice := _basic_normalize once in
  twice = strip (collapse_spaces once) /\
  _basic_normalize twice = twice /\
  (String.length twice <= String.length once)%nat.
Proof.
  intros _. cbv zeta.
  assert (Hx : all_chars (fun c => negb (is_control c)) (_basic_normalize text) = true).
  { generalize (basic_normalize_plain text). apply all_chars_weaken.
    intros c Hc. unfold plain_char in Hc.
    now apply andb_true_iff in Hc as [Hc _]. }
  destruct (basic_normalize_of_plain _ Hx) as [H1 H2].
  split; [exact H1|]. split; [now rewrite H1|apply length_basic_normalize].
Qed.

Lemma basic_normalize_settles_witness :
  is_ascii ("a " ++ String (ascii_of_nat 0) " b") = true /\
  _basic_normalize ("a " ++ String (ascii_of_nat 0) " b") = "a  b" /\
  _basic_normalize "a  b" = "a b" /\
  _basic_normalize "a b" = "a b".
Proof.
  split; [reflexivity|]. split; [reflexivity|]. split; [reflexivity|].
  exact (proj1 (proj2 (basic_normalize_settles
                         ("a " ++ String (ascii_of_nat 0) " b") eq_refl))).
Defined.

Lemma lstrip_collapse (s : string) :
  lstrip (collapse_spaces s) = collapse_spaces (lstrip s).
Proof.
  induction s as [|c s IH]; [reflexivity|]. cbn [collapse_spaces lstrip].
  destruct (py_isspace c) eqn:Hc.
  - destruct (starts_with_space s); [exact IH|]. cbn [lstrip]. exact IH.
  - cbn [lstrip collapse_spaces]. now rewrite Hc.
Qed.

Lemma collapse_empty (s : string) : collapse_spaces s = "" -> s = "".
Proof.
  induction s as [|c s IH]; [reflexivity|]. cbn [collapse_spaces].
  destruct (py_isspace c); [|discriminate].
  destruct (starts_with_space s) eqn:Hs; [|discriminate].
  intros H. apply IH in H. subst s. discriminate.
Qed.

Lemma starts_rstrip_eq (s : string) :
  rstrip s <> "" -> starts_with_space (rstrip s) = starts_with_space s.
Proof.
  destruct s as [|c s]; [reflexivity|]. cbn [rstrip].
  destruct (py_isspace c && String.eqb (rstrip s) ""); [congruence|reflexivity].
Qed.

Lemma rstrip_collapse (s : string) :
  rstrip (collapse_spaces s) = collapse_spaces (rstrip s).
Proof.
  induction s as [|c s IH]; [reflexivity|]. cbn [collapse_spaces rstrip].
  destruct (py_isspace c) eqn:Hc; cbn [andb].
  - destruct (String.eqb_spec (rstrip s) "") as [E|E].
    + rewrite E in IH. cbn [collapse_spaces] in IH.
      destruct (starts_with_space s); [exact IH|].
      cbn [rstrip]. now rewrite IH.
    + cbn [collapse_spaces]. rewrite Hc, (starts_rstrip_eq _ E).
      destruct (starts_with_space s); [exact IH|].
      cbn [rstrip]. rewrite IH.
      destruct (String.eqb_spec (collapse_spaces (rstrip s)) "") as [E'|_];
        [now apply collapse_empty in E'|reflexivity].
  - cbn [rstrip collapse_spaces]. rewrite Hc. cbn [andb]. now rewrite IH.
Qed.

Lemma strip_collapse (s : string) :
  strip (collapse_spaces s) = collapse_spaces (strip s).
Proof. unfold strip. now rewrite lstrip_collapse, rstrip_collapse. Qed.

Lemma is_valid_text_eq (text : string) :
  is_valid_text text =
  (min_length <=? Z.of_nat (String.length (strip (_basic_normalize text))))%Z.
Proof.
  unfold is_valid_text, min_length.
  destruct (String.eqb_spec text "") as [->|_]; [reflexivity|].
  pose proof (length_strip (_basic_normalize text)).
  destruct (Z.ltb_spec (Z.of_nat (String.length (_basic_normalize text))) 10),
    (Z.ltb_spec (Z.of_nat (String.length (strip (_basic_normalize text)))) 10),
    (Z.leb_spec 10 (Z.of_nat (String.length (strip (_basic_normalize text)))));
    try reflexivity; lia.
Qed.

(** X23. Validity of a text.  [is_valid_text] amounts to one test: the
    normalised text, stripped, has at least ten characters (its test for
    the empty text and its first length test follow from that one).
    Normalising first can only lose validity: when the endpoints test the
    text they have already normalised and find it valid, the original was
    valid too. *)
Theorem is_valid_text_law (text : string) :
  is_ascii text = true ->
  (is_valid_text text = true <->
   (10 <= String.length (strip (_basic_normalize text)))%nat) /\
  (is_valid_text (_basic_normalize text) = true -> is_valid_text text = true).
Proof.
  intros _. rewrite !is_valid_text_eq. unfold min_length. split.
  - rewrite Z.leb_le. lia.
  - rewrite !Z.leb_le.
    assert (Hx : all_chars (fun c => negb (is_control c)) (_basic_normalize text) = true).
    { generalize (basic_normalize_plain text). apply all_chars_weaken.
      intros c Hc. unfold plain_char in Hc.
      now apply andb_true_iff in Hc as [Hc _]. }
    destruct (basic_normalize_of_plain _ Hx) as [-> _].
    rewrite strip_fixed, strip_collapse.
    pose proof (length_collapse (strip (_basic_normalize text))). lia.
Qed.

Lemma is_valid_text_law_witness :
  is_ascii "gm frens, shipping today" = true /\
  is_valid_text "gm frens, shipping today" = true.
Proof.
  split; [reflexivity|].
  exact (proj2 (is_valid_text_law "gm frens, shipping today" eq_refl) eq_refl).
Defined.

(** A valid text that is no longer valid once normalised: its normal form
    has ten characters, two of them adjacent spaces. *)
Example valid_text_lost_by_normalising :
  let text := "aaaa " ++ String (ascii_of_nat 0) " bbbb" in
  is_valid_text text = true /\
  _basic_normalize text = "aaaa  bbbb" /\
  is_valid_text (_basic_normalize text) = false.
Proof. vm_compute. repeat split. Qed.

Lemma all_chars_remove_marked p (m : ascii) (s : string) : forall b,
  all_chars p s = true -> all_chars p (remove_marked m b s) = true.
Proof.
  induction s as [|c s IH]; intros b H; [reflexivity|].
  cbn [all_chars] in H. apply andb_true_iff in H as [Hc Hs].
  cbn [remove_marked].
  destruct (b && is_word c); [now apply IH|].
  destruct (Ascii.eqb c m && starts_with_word s); [now apply IH|].
  cbn [all_chars]. rewrite Hc. now apply IH.
Qed.

Lemma length_remove_marked (m : ascii) (s : string) : forall b,
  (String.length (remove_marked m b s) <= String.length s)%nat.
Proof.
  induction s as [|c s IH]; intros b; [reflexivity|]. cbn [remove_marked].
  destruct (b && is_word c); [cbn [String.length]; specialize (IH true); lia|].
  destruct (Ascii.eqb c m && starts_with_word s);
    [cbn [String.length]; specialize (IH true); lia|].
  cbn [String.length]. specialize (IH false). lia.
Qed.

Lemma strip_mentions_ascii (s : string) :
  is_ascii s = true -> is_ascii (_strip_mentions s) = true.
Proof.
  unfold is_ascii, _strip_mentions. intros H.
  apply all_chars_strip, all_chars_collapse; [reflexivity|].
  now apply all_chars_remove_marked.
Qed.

Lemma length_strip_mentions (s : string) :
  (String.length (_strip_mentions s) <= String.length s)%nat.
Proof.
  unfold _strip_mentions.
  pose proof (length_strip (collapse_spaces (remove_marked "@" false s))).
  pose proof (length_collapse (remove_marked "@" false s)).
  pose proof (length_remove_marked "@" s false). lia.
Qed.

Lemma length_substring_le (s : string) : forall n m,
  (String.length (substring n m s) <= m)%nat.
Proof.
  induction s as [|c s IH]; intros [|n] [|m]; cbn [substring String.length];
    try lia.
  - specialize (IH 0%nat m). lia.
  - apply (IH n 0%nat).
  - apply (IH n (S m)).
Qed.

(** X24. What [normalize] returns for a non-empty ASCII text, URLs kept.
    The text it returns is printable, its character count is the length
    of that text and is at most 10003, and the original length is
    reported.  For a text of at most 10000 characters, the limit of the
    request schema, nothing is cut: the text returned is the basic normal
    form and the truncation flag is false. *)
Theorem normalize_law (_strip_urls : string -> string)
    (langdetect_detect : string -> result string)
    (text : string) (strip_mentions : bool) :
  is_ascii text = true ->
  text <> "" ->
  let r := normalize _strip_urls langdetect_detect text false strip_mentions in
  let source := if strip_mentions then _strip_mentions text else text in
  n_normalized r = true /\
  all_chars printable (n_text r) = true /\
  n_char_count r = Z.of_nat (String.length (n_text r)) /\
  (n_char_count r <= max_length + 3)%Z /\
  n_original_length r = Some (Z.of_nat (String.length text)) /\
  ((Z.of_nat (String.length text) <= max_length)%Z ->
   n_text r = _basic_normalize source /\ n_truncated r = Some false).
Proof.
  intros Hascii Htext. cbv zeta. unfold normalize.
  destruct (String.eqb_spec text "") as [E|_]; [contradiction|].
  set (source := if strip_mentions then _strip_mentions text else text).
  assert (Hsrc : is_ascii source = true)
    by (unfold source; destruct strip_mentions;
        [now apply strip_mentions_ascii|exact Hascii]).
  assert (Hlen : (String.length source <= String.length text)%nat)
    by (unfold source; destruct strip_mentions;
        [apply length_strip_mentions|lia]).
  pose proof (length_basic_normalize source) as Hn.
  assert (Hp : all_chars printable (_basic_normalize source) = true)
    by (apply printable_text;
        [apply basic_normalize_plain|now apply basic_normalize_ascii]).
  cbn [n_normalized n_text n_char_count n_original_length n_truncated].
  unfold max_length in *.
  destruct (Z.ltb_spec 10000 (Z.of_nat (String.length (_basic_normalize source))))
    as [Hcut|Hkeep].
  - split; [reflexivity|]. split.
    + rewrite all_chars_append. apply andb_true_iff. split; [|reflexivity].
      now apply all_chars_substring.
    + split; [reflexivity|]. split.
      * rewrite length_append. cbn [String.length]. unfold slice.
        pose proof (length_substring_le (_basic_normalize source)
                      (Z.to_nat 0) (Z.to_nat (10000 - 0))). lia.
      * split; [reflexivity|]. intros Hshort. lia.
  - split; [reflexivity|]. split; [exact Hp|]. split; [reflexivity|].
    split; [lia|]. split; [reflexivity|]. intros Hshort.
    split; [reflexivity|].
    destruct (Z.ltb_spec 10000 (Z.of_nat (String.length text))); [lia|reflexivity].
Qed.

Lemma normalize_law_witness :
  is_ascii ("  Hey @bob," ++ nl ++ "gm frens  ") = true /\
  n_language (normalize (fun s => s) (fun _ => Ok "en")
                ("  Hey @bob," ++ nl ++ "gm frens  ") false true) = "en" /\
  n_text (normalize (fun s => s) (fun _ => Ok "en")
            ("  Hey @bob," ++ nl ++ "gm frens  ") false true) = "Hey , gm frens" /\
  n_truncated (normalize (fun s => s) (fun _ => Ok "en")
                 ("  Hey @bob," ++ nl ++ "gm frens  ") false true) = Some false.
Proof.
  split; [reflexivity|]. split; [reflexivity|]. split; [reflexivity|].
  exact (proj2 (proj2 (proj2 (proj2 (proj2 (proj2
           (normalize_law (fun s => s) (fun _ => Ok "en")
              ("  Hey @bob," ++ nl ++ "gm frens  ") true eq_refl
              ltac:(discriminate))))))
           ltac:(vm_compute; discriminate))).
Defined.

(** The truncation flag looks at the original text: a text of 10002
    characters that normalises to three is reported as truncated. *)
Example truncated_flag_without_truncation :
  let r := normalize (fun s => s) (fun _ => Ok "en")
             ("a" ++ replicate_char (Z.to_nat 10000) " " ++ "b") false false in
  n_text r = "a b" /\ n_truncated r = Some true.
Proof. vm_compute. split; reflexivity. Qed.

(** ** Mentions *)

Lemma unmarked_findall (m : ascii) (s : string) :
  unmarked m s = true -> findall_marked m s = [].
Proof.
  induction s as [|c s IH]; [reflexivity|]. cbn [unmarked findall_marked].
  intros H. apply andb_true_iff in H as [Hc Hs].
  apply negb_true_iff in Hc. rewrite Hc. now apply IH.
Qed.

Lemma remove_marked_head (m : ascii) (s : string) :
  starts_with_word (remove_marked m true s) = false /\
  (starts_with_word s = false ->
   starts_with_word (remove_marked m false s) = false).
Proof.
  induction s as [|c s [IHt IHf]]; [now split|]. cbn [remove_marked andb].
  split.
  - destruct (is_word c) eqn:Hw; [exact IHt|].
    destruct (Ascii.eqb c m && starts_with_word s); [exact IHt|exact Hw].
  - cbn [starts_with_word]. intros Hw.
    destruct (Ascii.eqb c m && starts_with_word s); [exact IHt|exact Hw].
Qed.

Lemma remove_marked_unmarked (m : ascii) (s : string) : forall b,
  unmarked m (remove_marked m b s) = true.
Proof.
  induction s as [|c s IH]; intros b; [reflexivity|]. cbn [remove_marked].
  destruct (b && is_word c); [apply IH|].
  destruct (Ascii.eqb c m && starts_with_word s) eqn:E; [apply IH|].
  cbn [unmarked]. rewrite IH, andb_true_r. apply negb_true_iff.
  destruct (Ascii.eqb c m); [|reflexivity]. cbn [andb] in *.
  now apply (remove_marked_head m s).
Qed.

Lemma space_is_no_word (c : ascii) : py_isspace c = true -> is_word c = false.
Proof. destruct c as [[] [] [] [] [] [] [] []]; vm_compute; congruence. Qed.

Lemma starts_word_collapse (s : string) :
  starts_with_word (collapse_spaces s) = starts_with_word s.
Proof.
  destruct s as [|c s]; [reflexivity|].
  destruct (py_isspace c) eqn:Hc.
  - pose proof (starts_collapse (String c s)) as H.
    replace (starts_with_space (String c s)) with true in H by now symmetry.
    change (starts_with_word (String c s)) with (is_word c).
    rewrite (space_is_no_word _ Hc).
    destruct (collapse_spaces (String c s)) as [|d r]; [reflexivity|].
    now apply space_is_no_word.
  - cbn [collapse_spaces]. now rewrite Hc.
Qed.

Lemma unmarked_collapse (m : ascii) (s : string) :
  py_isspace m = false ->
  unmarked m s = true -> unmarked m (collapse_spaces s) = true.
Proof.
  intros Hm. induction s as [|c s IH]; [reflexivity|].
  cbn [unmarked collapse_spaces]. intros H.
  apply andb_true_iff in H as [Hc Hs].
  destruct (py_isspace c) eqn:Hsp.
  - destruct (starts_with_space s); [now apply IH|].
    cbn [unmarked]. rewrite (IH Hs), andb_true_r.
    destruct (Ascii.eqb_spec " " m) as [<-|_]; [discriminate|reflexivity].
  - cbn [unmarked]. now rewrite starts_word_collapse, Hc, (IH Hs).
Qed.

Lemma unmarked_lstrip (m : ascii) (s : string) :
  unmarked m s = true -> unmarked m (lstrip s) = true.
Proof.
  induction s as [|c s IH]; [reflexivity|]. intros H. cbn [lstrip].
  destruct (py_isspace c); [|exact H].
  cbn [unmarked] in H. apply andb_true_iff in H as [_ H]. now apply IH.
Qed.

Lemma starts_word_rstrip (s : string) :
  starts_with_word (rstrip s) = true -> starts_with_word s = true.
Proof.
  destruct s as [|c s]; [discriminate|]. cbn [rstrip].
  destruct (py_isspace c && String.eqb (rstrip s) ""); [discriminate|].
  now cbn [starts_with_word].
Qed.

Lemma unmarked_rstrip (m : ascii) (s : string) :
  unmarked m s = true -> unmarked m (rstrip s) = true.
Proof.
  induction s as [|c s IH]; [reflexivity|]. cbn [unmarked rstrip].
  intros H. apply andb_true_iff in H as [Hc Hs].
  destruct (py_isspace c && String.eqb (rstrip s) ""); [reflexivity|].
  cbn [unmarked]. rewrite (IH Hs), andb_true_r.
  apply negb_true_iff in Hc. apply negb_true_iff.
  destruct (Ascii.eqb c m); [|reflexivity]. cbn [andb] in *.
  destruct (starts_with_word (rstrip s)) eqn:E; [|reflexivity].
  apply starts_word_rstrip in E. congruence.
Qed.

(** X25. Stripping mentions is complete.  In what [_strip_mentions]
    returns for an ASCII text [extract_mentions] finds nothing, and the
    result is no longer than the text. *)
Theorem strip_mentions_leaves_none (text : string) :
  is_ascii text = true ->
  extract_mentions (_strip_mentions text) = [] /\
  (String.length (_strip_mentions text) <= String.length text)%nat.
Proof.
  intros _. split; [|apply length_strip_mentions].
  unfold extract_mentions. rewrite unmarked_findall; [reflexivity|].
  unfold _strip_mentions, strip.
  apply unmarked_rstrip, unmarked_lstrip, unmarked_collapse; [reflexivity|].
  apply remove_marked_unmarked.
Qed.

Lemma strip_mentions_leaves_none_witness :
  is_ascii "@@al_ice9 hi  @bob x@y!" = true /\
  extract_mentions "@@al_ice9 hi  @bob x@y!" = ["@al_ice9"; "@bob"; "@y"] /\
  _strip_mentions "@@al_ice9 hi  @bob x@y!" = "@ hi x!" /\
  extract_mentions (_strip_mentions "@@al_ice9 hi  @bob x@y!") = [].
Proof.
  split; [reflexivity|]. split; [reflexivity|]. split; [reflexivity|].
  exact (proj1 (strip_mentions_leaves_none "@@al_ice9 hi  @bob x@y!" eq_refl)).
Defined.

(** ** The endpoints over the in-process limiter *)

Lemma summarize_post_answer (LimiterState : Type)
    (allowed : LimiterState -> string -> option string -> Z -> Q ->
               result (bool * Q) * LimiterState)
    generate strip_urls detect limiter text persona url author
    start_time now end_time :
  let call := allowed limiter "127.0.0.1" (Some "summarize") 1%Z now in
  let served := summarize_post LimiterState allowed generate strip_urls detect
                  limiter text persona url author start_time now end_time in
  snd served = snd call /\
  (forall retry_after, fst call = Ok (false, retry_after) ->
     fst served = HTTPException 429 (rate_limit_detail retry_after)) /\
  (forall retry_after, fst call = Ok (true, retry_after) ->
     status (fst served) <> 429%Z).
Proof.
  cbv zeta. unfold summarize_post.
  destruct (allowed limiter "127.0.0.1" (Some "summarize") 1%Z now)
    as [[[[|] retry]|e] limiter'];
    cbn [negb fst snd];
    repeat match goal with
           | |- context [if ?b then _ else _] => destruct b
           | |- context [match ?x with Ok _ => _ | Raise _ => _ end] => destruct x
           end;
    cbn [fst snd status]; (split; [reflexivity|]); split; intros r Hr;
    try discriminate; try (injection Hr as <-; reflexivity).
Qed.

Lemma build_context_answer (LimiterState : Type)
    (allowed : LimiterState -> string -> option string -> Z -> Q ->
               result (bool * Q) * LimiterState)
    generate strip_urls detect limiter text persona url author
    start_time now end_time :
  let call := allowed limiter "127.0.0.1" (Some "context") 1%Z now in
  let served := build_context LimiterState allowed generate strip_urls detect
                  limiter text persona url author start_time now end_time in
  snd served = snd call /\
  (forall retry_after, fst call = Ok (false, retry_after) ->
     fst served = HTTPException 429 (rate_limit_detail retry_after)) /\
  (forall retry_after, fst call = Ok (true, retry_after) ->
     status (fst served) <> 429%Z).
Proof.
  cbv zeta. unfold build_context.
  destruct (allowed limiter "127.0.0.1" (Some "context") 1%Z now)
    as [[[[|] retry]|e] limiter'];
    cbn [negb fst snd];
    repeat match goal with
           | |- context [if ?b then _ else _] => destruct b
           | |- context [match ?x with Ok _ => _ | Raise _ => _ end] => destruct x
           end;
    cbn [fst snd status]; (split; [reflexivity|]); split; intros r Hr;
    try discriminate; try (injection Hr as <-; reflexivity).
Qed.

Lemma at_rest_untouched cfg rl key now :
  now - last_cleanup rl < cleanup_interval rl ->
  buckets rl !! key = None ->
  at_rest cfg rl key now (inject_Z (rate_limit_requests cfg)).
Proof.
  intros Hnd Hkey. unfold at_rest, bucket_of.
  rewrite (cleanup_not_due _ _ Hnd), Hkey. simpl. repeat split; lra.
Qed.

Lemma is_allowed_untouched cfg rl client_id endpoint n now key :
  rate_limit_window cfg <> 0%Z ->
  key <> _get_bucket_key client_id endpoint ->
  now - last_cleanup rl < cleanup_interval rl ->
  buckets rl !! key = None ->
  now - last_cleanup (snd (is_allowed cfg rl client_id endpoint n now))
    < cleanup_interval (snd (is_allowed cfg rl client_id endpoint n now)) /\
  buckets (snd (is_allowed cfg rl client_id endpoint n now)) !! key = None.
Proof.
  intros Hw Hkey Hnd Hnone.
  rewrite (is_allowed_eq _ _ _ _ _ _ Hw). cbv zeta. cbn [snd].
  rewrite (cleanup_not_due _ _ Hnd). cbn [set_buckets last_cleanup
    cleanup_interval buckets].
  split; [exact Hnd|]. now rewrite lookup_insert_ne.
Qed.

Lemma repeat_is_allowed_untouched cfg client_id endpoint n now key k :
  rate_limit_window cfg <> 0%Z ->
  key <> _get_bucket_key client_id endpoint ->
  forall rl,
  now - last_cleanup rl < cleanup_interval rl ->
  buckets rl !! key = None ->
  now - last_cleanup (snd (repeat_is_allowed cfg rl client_id endpoint n now k))
    < cleanup_interval (snd (repeat_is_allowed cfg rl client_id endpoint n now k)) /\
  buckets (snd (repeat_is_allowed cfg rl client_id endpoint n now k)) !! key = None.
Proof.
  intros Hw Hkey. induction k as [|k IH]; intros rl Hnd Hnone; [now split|].
  cbn [repeat_is_allowed].
  destruct (is_allowed_untouched cfg rl client_id endpoint n now key
              Hw Hkey Hnd Hnone) as [Hnd' Hnone'].
  destruct (is_allowed cfg rl client_id endpoint n now) as [r rl1].
  cbn [snd] in Hnd', Hnone'. specialize (IH rl1 Hnd' Hnone').
  destruct (repeat_is_allowed cfg rl1 client_id endpoint n now k) as [rs rl2].
  exact IH.
Qed.

(** Serving requests to [/summarize] moves the limiter as so many calls
    for the one key of the endpoint, whatever the requests hold. *)
Lemma summarize_all_repeat cfg generate strip_urls detect now requests :
  forall limiter,
  let served := summarize_all cfg generate strip_urls detect limiter requests now in
  let calls := repeat_is_allowed cfg limiter "127.0.0.1" (Some "summarize") 1 now
                 (List.length requests) in
  snd served = snd calls /\
  (fst calls = repeat (Ok (true, 0)) (List.length requests) ->
   Forall (fun answer => status answer <> 429%Z) (fst served)).
Proof.
  cbv zeta. induction requests as [|r requests IH]; intros limiter.
  - split; [reflexivity|constructor].
  - cbn [summarize_all repeat_is_allowed List.length].
    destruct (summarize_post_answer RateLimiter (is_allowed cfg) generate
                strip_urls detect limiter (rq_text r) (rq_persona r)
                (rq_url r) (rq_author r) now now now) as (Hst & _ & Hok).
    destruct (summarize_post RateLimiter (is_allowed cfg) generate strip_urls
                detect limiter (rq_text r) (rq_persona r) (rq_url r)
                (rq_author r) now now now) as [answer limiter1].
    destruct (is_allowed cfg limiter "127.0.0.1" (Some "summarize") 1 now)
      as [call rl1].
    cbn [fst snd] in Hst, Hok. subst limiter1.
    specialize (IH rl1).
    destruct (summarize_all cfg generate strip_urls detect rl1 requests now)
      as [answers limiter2].
    destruct (repeat_is_allowed cfg rl1 "127.0.0.1" (Some "summarize") 1 now
                (List.length requests)) as [calls rl2].
    cbn [fst snd] in *. destruct IH as [IH1 IH2]. split; [exact IH1|].
    cbn [repeat]. intros Hcalls. injection Hcalls as Hcall Hrest.
    constructor; [now apply (Hok 0)|now apply IH2].
Qed.

(** X26. The limit of an endpoint is shared by all its callers.  The
    handlers ask the limiter about the fixed client ["127.0.0.1"], so over
    a new in-process limiter, with a limit and a window of at most [2^53]
    (which the program's floating point holds exactly): of a burst of
    requests to [/summarize], whatever their texts (valid or not) and
    whoever sent them, the first [rate_limit_requests] are not answered
    429 and the next one is answered 429, with the rate-limit message for
    a positive delay; a request to [/context] at that moment is still not
    answered 429. *)
Theorem endpoint_limit_is_shared (cfg : Settings)
    (generate : string -> result GenerationResult)
    (strip_urls : string -> string) (detect : string -> result string)
    (requests : list Request) (next other : Request) (t0 : Q) :
  (0 < rate_limit_requests cfg <= 2 ^ 53)%Z ->
  (0 < rate_limit_window cfg <= 2 ^ 53)%Z ->
  List.length requests = Z.to_nat (rate_limit_requests cfg) ->
  let served :=
    summarize_all cfg generate strip_urls detect (RateLimiter_init t0)
      requests t0 in
  Forall (fun answer => status answer <> 429%Z) (fst served) /\
  status
    (fst (summarize_post RateLimiter (is_allowed cfg) generate strip_urls detect
            (snd served) (rq_text next) (rq_persona next) (rq_url next)
            (rq_author next) t0 t0 t0)) = 429%Z /\
  (exists retry_after,
     0 < retry_after /\
     fst (summarize_post RateLimiter (is_allowed cfg) generate strip_urls detect
            (snd served) (rq_text next) (rq_persona next) (rq_url next)
            (rq_author next) t0 t0 t0) =
     HTTPException 429 (rate_limit_detail retry_after)) /\
  status (fst (build_context RateLimiter (is_allowed cfg) generate strip_urls
                 detect (snd served) (rq_text other) (rq_persona other)
                 (rq_url other) (rq_author other) t0 t0 t0)) <> 429%Z.
Proof.
  intros [Hr _] [Hw _] Hlen. cbv zeta.
  assert (Hw0 : rate_limit_window cfg <> 0%Z) by lia.
  destruct (summarize_all_repeat cfg generate strip_urls detect t0 requests
              (RateLimiter_init t0)) as [Hst Hall].
  rewrite Hst, Hlen in *.
  assert (Hq : inject_Z (Z.of_nat (Z.to_nat (rate_limit_requests cfg)))
               <= inject_Z (rate_limit_requests cfg))
    by (rewrite <- Zle_Qle; lia).
  destruct (burst_granted cfg "127.0.0.1" (Some "summarize") t0
              (Z.to_nat (rate_limit_requests cfg)) (RateLimiter_init t0)
              (inject_Z (rate_limit_requests cfg)) Hw0
              (at_rest_init cfg _ t0) Hq) as [Hcalls Hrest].
  split; [now apply Hall|].
  assert (Hdenied : exists retry_after,
            0 < retry_after /\
            fst (summarize_post RateLimiter (is_allowed cfg) generate strip_urls
                   detect
                   (snd (repeat_is_allowed cfg (RateLimiter_init t0) "127.0.0.1"
                           (Some "summarize") 1 t0
                           (Z.to_nat (rate_limit_requests cfg))))
                   (rq_text next) (rq_persona next) (rq_url next)
                   (rq_author next) t0 t0 t0) =
            HTTPException 429 (rate_limit_detail retry_after)).
  { assert (Hzero : inject_Z (rate_limit_requests cfg)
                    - inject_Z (Z.of_nat (Z.to_nat (rate_limit_requests cfg))) == 0)
      by (rewrite Z2Nat.id by lia; lra).
    pose proof (configured_rate_pos cfg Hr Hw) as Hrate.
    destruct (is_allowed_at_rest_denied cfg _ "127.0.0.1" (Some "summarize") 1 t0 _
                Hw0 ltac:(lra) Hrest) as (retry & Hcall & Hretry & _).
    { rewrite Hzero. reflexivity. }
    { rewrite Hzero. reflexivity. }
    exists retry. split.
    + rewrite Hretry, Hzero. apply Qdiv_pos; [exact Hrate|lra].
    + now apply summarize_post_answer. }
  split; [|split; [exact Hdenied|]].
  - destruct Hdenied as (retry & _ & ->). reflexivity.
  - destruct (repeat_is_allowed_untouched cfg "127.0.0.1" (Some "summarize") 1 t0
                (_get_bucket_key "127.0.0.1" (Some "context"))
                (Z.to_nat (rate_limit_requests cfg)) Hw0 ltac:(discriminate)
                (RateLimiter_init t0) ltac:(simpl; lra) (lookup_empty _))
      as [Hnd Hnone].
    assert (Hone : inject_Z 1 <= inject_Z (rate_limit_requests cfg))
      by (rewrite <- Zle_Qle; lia).
    destruct (is_allowed_at_rest_granted cfg _ "127.0.0.1" (Some "context") 1 t0 _
                Hw0 ltac:(lia) (at_rest_untouched cfg _ _ t0 Hnd Hnone) Hone)
      as [Hcall _].
    now apply (build_context_answer RateLimiter (is_allowed cfg) generate
                 strip_urls detect _ _ _ _ _ t0 t0 t0) with (retry_after := 0).
Qed.

Lemma endpoint_limit_is_shared_witness :
  List.map status
    (fst (summarize_all (scenario_settings false) mock_client (fun s => s)
            (fun _ => Ok "en") (RateLimiter_init 0) sample_requests 0)) =
  [200; 400; 200; 200; 200]%Z /\
  fst (summarize_post RateLimiter (is_allowed (scenario_settings false))
         mock_client (fun s => s) (fun _ => Ok "en")
         (snd (summarize_all (scenario_settings false) mock_client (fun s => s)
                 (fun _ => Ok "en") (RateLimiter_init 0) sample_requests 0))
         "a sixth request, from someone else" "human" None None 0 0 0) =
  HTTPException 429 "Rate limit exceeded. Try again in 2 seconds" /\
  status
    (fst (build_context RateLimiter (is_allowed (scenario_settings false))
            mock_client (fun s => s) (fun _ => Ok "en")
            (snd (summarize_all (scenario_settings false) mock_client (fun s => s)
                    (fun _ => Ok "en") (RateLimiter_init 0) sample_requests 0))
            "a sixth request, from someone else" "human" None None 0 0 0))
  <> 429%Z.
Proof.
  split; [vm_compute; reflexivity|]. split; [vm_compute; reflexivity|].
  exact (proj2 (proj2 (proj2
           (endpoint_limit_is_shared (scenario_settings false) mock_client
              (fun s => s) (fun _ => Ok "en") sample_requests
              {| rq_text := "a sixth request, from someone else";
                 rq_persona := "human"; rq_url := None; rq_author := None |}
              {| rq_text := "a sixth request, from someone else";
                 rq_persona := "human"; rq_url := None; rq_author := None |}
              0 ltac:(simpl; lia) ltac:(simpl; lia) eq_refl)))).
Defined.

(** ** The throughput of the in-process limiter *)









(** With a window longer than an hour the bound fails: the sweep forgets
    an exhausted bucket that is not yet refilled, and the next burst
    finds a full one. *)
Example sweep_exceeds_the_rate :
  let cfg := {| fireworks_api_key := None; use_redis := false; cache_ttl := 86400;
                rate_limit_requests := 10; rate_limit_window := 10000 |} in
  let calls := (repeat ("c1", None, 1%Z, 0) 10 ++
                repeat ("c1", None, 1%Z, 3601) 10)%list in
  granted_to cfg (RateLimiter_init 0) "c1" calls = 20%Z /\
  inject_Z 10 + configured_rate cfg * (last_time 0 calls - 0) < inject_Z 20.
Proof. vm_compute. split; reflexivity. Qed.
